(** * Navigation core of the resuscitation handbook: a shallow embedding

    The development follows the TypeScript sources of the navigation core:
    [state/store.ts], [state/decisions.ts], [algorithms/loader.ts]
    (angle normalisation), [wheel/fsm.ts], [wheel/physics.ts],
    [navigation/anchors.ts], [navigation/advance.ts], [ui/timer.ts],
    [cards/renderer.ts] and [automation.ts].

    Modelling conventions.
    - Card indices, counters and seconds are integers ([Z]).  Angles and
      lengths are rationals ([Q]).  The navigation functions store angles
      without ever branching on their value, so they are modelled with
      exact arithmetic; whatever is stated about the value of an angle or
      of a length is stated for the double-precision versions of the
      functions that compute it, in [Double], where every arithmetic
      result is rounded to the nearest double.  The non-finite numbers
      appear only where the source tests for them ([jsnum]).
    - A string field that is absent, [null] or [undefined] is the empty
      string, which JavaScript treats as falsy just the same.
    - [DECK] and [decisionRecords] are plain objects used as maps.  The
      model ([gmap string _]) holds their own properties.  A JavaScript
      lookup also finds the members every object inherits from
      [Object.prototype] ([inheritedKey]); a statement that depends on a
      lookup finding nothing is therefore made for keys, and for decks
      ([plainKeys]), that use none of these names.
    - The process-wide singletons [state], [DECK] and [RUNTIME_ALGORITHM]
      are threaded explicitly: an [Env] for what navigation only reads,
      an [AppState] for what it mutates. *)

From Stdlib Require Import QArith Qround Qabs Qminmax Qpower Lqa Ascii String DecimalString.
From stdpp Require Import gmap strings list fin_maps.

Open Scope Z_scope.

(** ** Data model ([types.ts]) *)

Record TransitionOption := {
  label : string;
  target_id : string;
}.

(** [TOther] stands for a transitions object whose [type] is missing or is
    none of the three known tags. *)
Inductive Transition :=
| TLinear (next_id : string)
| TSplit (options : list TransitionOption)
| TSelfLoop (next_id : string)
| TOther.

Record Card := {
  id : string;
  type : string;
  phase : string;
  status : string;
  transitions : option Transition;
}.

Inductive Direction := anticlockwise | clockwise.

Record WheelArc := {
  start_degrees : Q;
  end_degrees : Q;
  direction : Direction;
  phase_spread_degrees : Q;
}.

(** The [wheel_arc] object as found in the metadata, before
    [normalizeWheelArc]: a field is [None] when it is absent or does not
    convert to a finite number. *)
Record RawWheelArc := {
  raw_start_degrees : option Q;
  raw_end_degrees : option Q;
  raw_direction : string;
  raw_phase_spread_degrees : option Q;
}.

Record AlgorithmMeta := {
  wheel_arc : option RawWheelArc;
  auto_start_on_card : string;
}.

Record Algorithm := {
  algorithm_meta : AlgorithmMeta;
  deck : list Card;
}.

Inductive WheelMode := COVER | LINEAR | DECISION | LOOP | TERMINAL.

Record Anchor := {
  anchor_id : string;
  anchor_angle : Q;
}.

Record WheelState := {
  mode : WheelMode;
  angle : Q;
  visualAngle : option Q;
  dragOrigin : option Q;
  navConsumed : bool;
}.

Record DecisionTrailEntry := {
  card_id : string;
  option_index : Z;
  option_label : string;
  trail_target_id : string;
  interaction : string;
  source : string;
  timestamp : string;
}.

Record AppState := {
  currentId : string;
  history : list string;
  decisionIndex : Z;
  decisionRecords : gmap string Z;
  decisionTrail : list DecisionTrailEntry;
  decisionTapped : bool;
  carouselIndex : Z;
  timerSeconds : Z;
  timerRunning : bool;
  timerInterval : bool;
  checklistState : gmap string bool;
  anchors : list Anchor;
  anchorIndex : Z;
  wheel : WheelState;
}.

Record AdvanceOptions := {
  opt_source : string;
  splitConfirmed : bool;
}.

(** What navigation reads but never writes: the loaded algorithm, whether
    the knob element exists in the page, and the wall clock reading used
    for trail entries. *)
Record Env := {
  RUNTIME_ALGORITHM : Algorithm;
  dom_knob : bool;
  now : string;
}.

(** JavaScript numbers as far as [Number.isFinite] tells them apart. *)
Inductive jsnum :=
| Num (q : Q)
| NaN
| PosInfinity
| NegInfinity.

Definition truthy (s : string) : bool := negb (String.eqb s "").

(** ** State store ([state/store.ts]) *)

Definition rebuildDeckMap (cards : list Card) : gmap string Card :=
  foldl (fun m card => <[id card := card]> m) ∅ cards.

Definition DECK (env : Env) : gmap string Card :=
  rebuildDeckMap (deck (RUNTIME_ALGORITHM env)).




(** ** Decision helpers ([state/decisions.ts]) *)

Definition isSplitDecisionCard (card : option Card) : bool :=
  match card with
  | Some c =>
      match transitions c with
      | Some (TSplit options) => (0 <? Z.of_nat (length options))
      | _ => false
      end
  | None => false
  end.

Definition normalizeDecisionIndexForCard (card : option Card) (requestedIndex : jsnum) : Z :=
  match card with
  | Some c =>
      match transitions c with
      | Some (TSplit options) =>
          if (Z.of_nat (length options) =? 0) then 0
          else
            let value := match requestedIndex with
                         | Num q => Qfloor q
                         | _ => 0
                         end in
            Z.max 0 (Z.min (Z.of_nat (length options) - 1) value)
      | _ => 0
      end
  | None => 0
  end.

Definition rememberedDecisionIndexForCard (s : AppState) (card : Card) : Z :=
  if isSplitDecisionCard (Some card) then
    let remembered := match decisionRecords s !! id card with
                      | Some r => r
                      | None => decisionIndex s
                      end in
    normalizeDecisionIndexForCard (Some card) (Num (inject_Z remembered))
  else 0.

Definition optionCount (c : Card) : Z :=
  match transitions c with
  | Some (TSplit options) => Z.of_nat (length options)
  | _ => 0
  end.

Definition isFinite (n : jsnum) : bool :=
  match n with Num _ => true | _ => false end.

(** ** Angle normalisation ([algorithms/loader.ts]) *)

Open Scope Q_scope.

(** JavaScript's [%] on numbers: the remainder takes the sign of the
    dividend, the quotient being truncated towards zero. *)
Definition Qtrunc (q : Q) : Z :=
  if Qlt_le_dec q 0 then Qceiling q else Qfloor q.

Definition jsrem (n d : Q) : Q := n - d * inject_Z (Qtrunc (n / d)).

(** In exact arithmetic; [Double.normalizeDegrees] rounds the sum. *)
Definition normalizeDegrees (deg : jsnum) : Q :=
  match deg with
  | Num n =>
      let mod_ := jsrem n 360 in
      if Qlt_le_dec mod_ 0 then mod_ + 360 else mod_
  | _ => 0
  end.

Definition DEFAULT_WHEEL_ARC : WheelArc :=
  {| start_degrees := 330; end_degrees := 30;
     direction := anticlockwise; phase_spread_degrees := 4 |}.

(** Lower-casing of the ASCII letters, which is what decides the
    comparison with the ASCII word ['anticlockwise'] for every string of
    ASCII characters. *)
Definition toLowerAscii (a : ascii) : ascii :=
  let n := nat_of_ascii a in
  if (Nat.leb 65 n && Nat.leb n 90)%bool then ascii_of_nat (n + 32) else a.

Fixpoint toLowerCase (s : string) : string :=
  match s with
  | EmptyString => EmptyString
  | String a r => String (toLowerAscii a) (toLowerCase r)
  end.

Definition normalizeWheelArc (meta : AlgorithmMeta) : WheelArc :=
  let dir (d : string) :=
    if String.eqb (toLowerCase d) "anticlockwise" then anticlockwise else clockwise in
  match wheel_arc meta with
  | Some raw =>
      {| start_degrees :=
           match raw_start_degrees raw with
           | Some x => normalizeDegrees (Num x)
           | None => start_degrees DEFAULT_WHEEL_ARC
           end;
         end_degrees :=
           match raw_end_degrees raw with
           | Some x => normalizeDegrees (Num x)
           | None => end_degrees DEFAULT_WHEEL_ARC
           end;
         direction :=
           if truthy (raw_direction raw) then dir (raw_direction raw)
           else direction DEFAULT_WHEEL_ARC;
         phase_spread_degrees :=
           match raw_phase_spread_degrees raw with
           | Some x => Qmax 0 x
           | None => phase_spread_degrees DEFAULT_WHEEL_ARC
           end |}
  | None => DEFAULT_WHEEL_ARC
  end.

Definition getCurrentWheelArc (env : Env) : WheelArc :=
  normalizeWheelArc (algorithm_meta (RUNTIME_ALGORITHM env)).

(** ** Wheel finite state machine ([wheel/fsm.ts]) *)

Definition computeWheelMode (card : option Card) : WheelMode :=
  match card with
  | None => LINEAR
  | Some c =>
      if String.eqb (type c) "cover" then COVER
      else if String.eqb (type c) "decision" then DECISION
      else if String.eqb (type c) "terminal" then TERMINAL
      else if (String.eqb (phase c) "cpr_loop" || String.eqb (phase c) "loop")%bool then LOOP
      else LINEAR
  end.

(** ** Wheel physics ([wheel/physics.ts]) *)

Definition set_wheel (w : WheelState) (s : AppState) : AppState :=
  {| currentId := currentId s; history := history s;
     decisionIndex := decisionIndex s; decisionRecords := decisionRecords s;
     decisionTrail := decisionTrail s; decisionTapped := decisionTapped s;
     carouselIndex := carouselIndex s; timerSeconds := timerSeconds s;
     timerRunning := timerRunning s; timerInterval := timerInterval s;
     checklistState := checklistState s; anchors := anchors s;
     anchorIndex := anchorIndex s; wheel := w |}.

Definition set_visualAngle (v : option Q) (w : WheelState) : WheelState :=
  {| mode := mode w; angle := angle w; visualAngle := v;
     dragOrigin := dragOrigin w; navConsumed := navConsumed w |}.

(** In exact arithmetic, as [render] and the drag handlers call it: they
    never read the visual angle back.  What the visual angle is after a
    call is stated for [Double.setKnobPosition]. *)
Definition setKnobPosition (env : Env) (deg : Q) (s : AppState) : AppState :=
  if negb (dom_knob env) then s
  else
    let lastVisual := match visualAngle (wheel s) with
                      | None => deg
                      | Some v => v
                      end in
    let targetDeg := normalizeDegrees (Num deg) in
    let normalizedLast := normalizeDegrees (Num lastVisual) in
    let diff := targetDeg - normalizedLast in
    let diff := if Qlt_le_dec 180 diff then diff - 360 else diff in
    let diff := if Qlt_le_dec diff (-180) then diff + 360 else diff in
    let newVisual := lastVisual + diff in
    set_wheel (set_visualAngle (Some newVisual) (wheel s)) s.

Definition continuous_step (a b : option Q) : Prop :=
  match a, b with
  | Some x, Some y => Qabs (y - x) <= 180
  | None, _ => True
  | Some _, None => False
  end.

Fixpoint chain {A : Type} (R : A -> A -> Prop) (l : list A) : Prop :=
  match l with
  | x :: ((y :: _) as tl) => R x y /\ chain R tl
  | _ => True
  end.

(** ** Field updates of the mutable state *)

Definition set_currentId (v : string) (s : AppState) : AppState :=
  {| currentId := v; history := history s;
     decisionIndex := decisionIndex s; decisionRecords := decisionRecords s;
     decisionTrail := decisionTrail s; decisionTapped := decisionTapped s;
     carouselIndex := carouselIndex s; timerSeconds := timerSeconds s;
     timerRunning := timerRunning s; timerInterval := timerInterval s;
     checklistState := checklistState s; anchors := anchors s;
     anchorIndex := anchorIndex s; wheel := wheel s |}.

Definition set_history (v : list string) (s : AppState) : AppState :=
  {| currentId := currentId s; history := v;
     decisionIndex := decisionIndex s; decisionRecords := decisionRecords s;
     decisionTrail := decisionTrail s; decisionTapped := decisionTapped s;
     carouselIndex := carouselIndex s; timerSeconds := timerSeconds s;
     timerRunning := timerRunning s; timerInterval := timerInterval s;
     checklistState := checklistState s; anchors := anchors s;
     anchorIndex := anchorIndex s; wheel := wheel s |}.

Definition set_decisionIndex (v : Z) (s : AppState) : AppState :=
  {| currentId := currentId s; history := history s;
     decisionIndex := v; decisionRecords := decisionRecords s;
     decisionTrail := decisionTrail s; decisionTapped := decisionTapped s;
     carouselIndex := carouselIndex s; timerSeconds := timerSeconds s;
     timerRunning := timerRunning s; timerInterval := timerInterval s;
     checklistState := checklistState s; anchors := anchors s;
     anchorIndex := anchorIndex s; wheel := wheel s |}.

Definition set_decisionRecords (v : gmap string Z) (s : AppState) : AppState :=
  {| currentId := currentId s; history := history s;
     decisionIndex := decisionIndex s; decisionRecords := v;
     decisionTrail := decisionTrail s; decisionTapped := decisionTapped s;
     carouselIndex := carouselIndex s; timerSeconds := timerSeconds s;
     timerRunning := timerRunning s; timerInterval := timerInterval s;
     checklistState := checklistState s; anchors := anchors s;
     anchorIndex := anchorIndex s; wheel := wheel s |}.

Definition set_decisionTrail (v : list DecisionTrailEntry) (s : AppState) : AppState :=
  {| currentId := currentId s; history := history s;
     decisionIndex := decisionIndex s; decisionRecords := decisionRecords s;
     decisionTrail := v; decisionTapped := decisionTapped s;
     carouselIndex := carouselIndex s; timerSeconds := timerSeconds s;
     timerRunning := timerRunning s; timerInterval := timerInterval s;
     checklistState := checklistState s; anchors := anchors s;
     anchorIndex := anchorIndex s; wheel := wheel s |}.

Definition set_decisionTapped (v : bool) (s : AppState) : AppState :=
  {| currentId := currentId s; history := history s;
     decisionIndex := decisionIndex s; decisionRecords := decisionRecords s;
     decisionTrail := decisionTrail s; decisionTapped := v;
     carouselIndex := carouselIndex s; timerSeconds := timerSeconds s;
     timerRunning := timerRunning s; timerInterval := timerInterval s;
     checklistState := checklistState s; anchors := anchors s;
     anchorIndex := anchorIndex s; wheel := wheel s |}.

Definition set_carouselIndex (v : Z) (s : AppState) : AppState :=
  {| currentId := currentId s; history := history s;
     decisionIndex := decisionIndex s; decisionRecords := decisionRecords s;
     decisionTrail := decisionTrail s; decisionTapped := decisionTapped s;
     carouselIndex := v; timerSeconds := timerSeconds s;
     timerRunning := timerRunning s; timerInterval := timerInterval s;
     checklistState := checklistState s; anchors := anchors s;
     anchorIndex := anchorIndex s; wheel := wheel s |}.

Definition set_timer (seconds : Z) (running interval : bool) (s : AppState) : AppState :=
  {| currentId := currentId s; history := history s;
     decisionIndex := decisionIndex s; decisionRecords := decisionRecords s;
     decisionTrail := decisionTrail s; decisionTapped := decisionTapped s;
     carouselIndex := carouselIndex s; timerSeconds := seconds;
     timerRunning := running; timerInterval := interval;
     checklistState := checklistState s; anchors := anchors s;
     anchorIndex := anchorIndex s; wheel := wheel s |}.

Definition set_anchors (v : list Anchor) (s : AppState) : AppState :=
  {| currentId := currentId s; history := history s;
     decisionIndex := decisionIndex s; decisionRecords := decisionRecords s;
     decisionTrail := decisionTrail s; decisionTapped := decisionTapped s;
     carouselIndex := carouselIndex s; timerSeconds := timerSeconds s;
     timerRunning := timerRunning s; timerInterval := timerInterval s;
     checklistState := checklistState s; anchors := v;
     anchorIndex := anchorIndex s; wheel := wheel s |}.

Definition set_anchorIndex (v : Z) (s : AppState) : AppState :=
  {| currentId := currentId s; history := history s;
     decisionIndex := decisionIndex s; decisionRecords := decisionRecords s;
     decisionTrail := decisionTrail s; decisionTapped := decisionTapped s;
     carouselIndex := carouselIndex s; timerSeconds := timerSeconds s;
     timerRunning := timerRunning s; timerInterval := timerInterval s;
     checklistState := checklistState s; anchors := anchors s;
     anchorIndex := v; wheel := wheel s |}.

Definition set_mode (v : WheelMode) (w : WheelState) : WheelState :=
  {| mode := v; angle := angle w; visualAngle := visualAngle w;
     dragOrigin := dragOrigin w; navConsumed := navConsumed w |}.

Definition set_angle (v : Q) (w : WheelState) : WheelState :=
  {| mode := mode w; angle := v; visualAngle := visualAngle w;
     dragOrigin := dragOrigin w; navConsumed := navConsumed w |}.

Definition set_drag (origin : option Q) (consumed : bool) (w : WheelState) : WheelState :=
  {| mode := mode w; angle := angle w; visualAngle := visualAngle w;
     dragOrigin := origin; navConsumed := consumed |}.

(** [xs[i]] for a JavaScript array and an integral index: [undefined]
    outside the array. *)
Definition js_index {A : Type} (xs : list A) (i : Z) : option A :=
  if (i <? 0)%Z then None else xs !! Z.to_nat i.

(** [options[0] ? options[0].target_id : null] *)
Definition firstTarget (options : list TransitionOption) : string :=
  match options with
  | o :: _ => target_id o
  | [] => ""
  end.

(** ** Timer ([ui/timer.ts]) *)

Definition startTimer (s : AppState) : AppState :=
  set_timer (timerSeconds s) true true s.

(** The interval callback installed by [startTimer]. *)
Definition timerTick (s : AppState) : AppState :=
  set_timer (timerSeconds s + 1)%Z (timerRunning s) (timerInterval s) s.

Definition resetTimerState (s : AppState) : AppState :=
  set_timer 0%Z false false s.

(** ** Anchor engine ([navigation/anchors.ts]) *)

Definition angleOnArc (arc : WheelArc) (ratio : Q) : Q :=
  let t := Qmax 0 (Qmin 1 ratio) in
  let cwDistance := jsrem (end_degrees arc - start_degrees arc + 360) 360 in
  let ccwDistance := jsrem (start_degrees arc - end_degrees arc + 360) 360 in
  match direction arc with
  | anticlockwise =>
      let n := start_degrees arc - ccwDistance * t in
      let mod_ := jsrem n 360 in
      if Qlt_le_dec mod_ 0 then mod_ + 360 else mod_
  | clockwise =>
      let n := start_degrees arc + cwDistance * t in
      let mod_ := jsrem n 360 in
      if Qlt_le_dec mod_ 0 then mod_ + 360 else mod_
  end.

Definition currentAlgorithmStartId (env : Env) : string :=
  match deck (RUNTIME_ALGORITHM env) with
  | c :: _ => id c
  | [] => ""
  end.

(** The [while] loop of [countPathLength].  Every iteration that does not
    leave the loop adds a card of the deck to [visited], so the loop body
    runs at most once per card; [None] is the fuel running out. *)
Fixpoint countPathLoop (D : gmap string Card) (fuel : nat)
    (cardId : string) (visited : gset string) (count : Z) : option Z :=
  match fuel with
  | O => None
  | S fuel' =>
      if negb (truthy cardId) then Some count
      else
        match D !! cardId with
        | None => Some count
        | Some card =>
            if decide (cardId ∈ visited) then Some count
            else
              let visited := {[cardId]} ∪ visited in
              let count := (count + 1)%Z in
              match transitions card with
              | None => Some count
              | Some (TLinear next_id) =>
                  countPathLoop D fuel' next_id visited count
              | Some (TSplit options) =>
                  countPathLoop D fuel' (firstTarget options) visited count
              | Some (TSelfLoop next_id) =>
                  if String.eqb next_id (id card) then Some count
                  else countPathLoop D fuel' next_id visited count
              | Some TOther => Some count
              end
        end
  end.

Definition loopFuel (D : gmap string Card) : nat := S (size D).

Definition countPathLength (env : Env) (startId : string) (alreadyVisited : gset string) : Z :=
  match countPathLoop (DECK env) (loopFuel (DECK env)) startId alreadyVisited 0 with
  | Some n => n
  | None => 0%Z
  end.

(** The [for] loop of [longestBranchTarget] over the options, with its two
    running variables. *)
Fixpoint longestBranchLoop (env : Env) (visited : gset string)
    (options : list TransitionOption) (bestTarget : string) (bestLength : Z) : string * Z :=
  match options with
  | [] => (bestTarget, bestLength)
  | opt :: rest =>
      if negb (truthy (target_id opt)) || negb (bool_decide (is_Some (DECK env !! target_id opt)))
      then longestBranchLoop env visited rest bestTarget bestLength
      else if decide (target_id opt ∈ visited)
      then longestBranchLoop env visited rest bestTarget bestLength
      else
        let len := countPathLength env (target_id opt) visited in
        if (bestLength <? len)%Z
        then longestBranchLoop env visited rest (target_id opt) len
        else longestBranchLoop env visited rest bestTarget bestLength
  end.

Definition longestBranchTarget (env : Env) (card : Card) (visited : gset string) : string :=
  match transitions card with
  | Some (TSplit options) =>
      let bestTarget := fst (longestBranchLoop env visited options "" (-1)%Z) in
      if truthy bestTarget then bestTarget else firstTarget options
  | _ => ""
  end.

(** The [while] loop of [computeForwardPath]; [None] is the fuel running
    out. *)
Fixpoint forwardLoop (env : Env) (s : AppState) (fuel : nat)
    (cardId : string) (visited : gset string) (path : list string) : option (list string) :=
  match fuel with
  | O => None
  | S fuel' =>
      if negb (truthy cardId) then Some path
      else
        match DECK env !! cardId with
        | None => Some path
        | Some card =>
            if decide (cardId ∈ visited) then Some path
            else
              let visited := {[cardId]} ∪ visited in
              let path := path ++ [cardId] in
              match transitions card with
              | None => Some path
              | Some (TLinear next_id) =>
                  forwardLoop env s fuel' next_id visited path
              | Some (TSplit options) =>
                  match decisionRecords s !! id card with
                  | Some idx =>
                      let cardId :=
                        match js_index options idx with
                        | Some opt => target_id opt
                        | None => ""
                        end in
                      forwardLoop env s fuel' cardId visited path
                  | None =>
                      forwardLoop env s fuel'
                        (longestBranchTarget env card visited) visited path
                  end
              | Some (TSelfLoop next_id) =>
                  if String.eqb next_id (id card) then Some path
                  else forwardLoop env s fuel' next_id visited path
              | Some TOther => Some path
              end
        end
  end.

Definition computeForwardPath (env : Env) (s : AppState) : list string :=
  match forwardLoop env s (loopFuel (DECK env)) (currentAlgorithmStartId env) ∅ [] with
  | Some path => path
  | None => []
  end.

Definition computeAnchors (env : Env) (s : AppState) : list Anchor :=
  let path := computeForwardPath env s in
  let arc := getCurrentWheelArc env in
  match path with
  | [] => []
  | [only] => [ {| anchor_id := only; anchor_angle := start_degrees arc |} ]
  | _ =>
      imap (fun i id_ =>
              {| anchor_id := id_;
                 anchor_angle :=
                   angleOnArc arc
                     (inject_Z (Z.of_nat i) / inject_Z (Z.of_nat (length path) - 1)) |})
           path
  end.

(** [Array.prototype.findIndex]: [-1] when no element qualifies. *)
Fixpoint findIndexFrom (p : Anchor -> bool) (l : list Anchor) (i : Z) : Z :=
  match l with
  | [] => (-1)%Z
  | a :: r => if p a then i else findIndexFrom p r (i + 1)%Z
  end.

Definition findAnchorIndex (s : AppState) (cardId : string) : Z :=
  findIndexFrom (fun a => String.eqb (anchor_id a) cardId) (anchors s) 0.

Definition currentAnchorAngle (env : Env) (s : AppState) : Q :=
  if ((0 <=? anchorIndex s)%Z && (anchorIndex s <? Z.of_nat (length (anchors s)))%Z)%bool
  then match js_index (anchors s) (anchorIndex s) with
       | Some a => anchor_angle a
       | None => start_degrees (getCurrentWheelArc env)
       end
  else start_degrees (getCurrentWheelArc env).

Definition syncAnchors (env : Env) (s : AppState) : AppState :=
  let s := set_anchors (computeAnchors env s) s in
  let idx := findAnchorIndex s (currentId s) in
  if (0 <=? idx)%Z then set_anchorIndex idx s
  else set_anchorIndex (Z.max 0 (Z.of_nat (length (anchors s)) - 1)) s.

(** ** Render orchestration ([cards/renderer.ts])

    Only the part of [render] that writes the navigation state; the DOM
    rendering pipeline that follows reads the state and leaves it alone. *)
Definition render (env : Env) (s : AppState) : AppState :=
  match DECK env !! currentId s with
  | None => s
  | Some card =>
      let s := set_wheel (set_mode (computeWheelMode (Some card)) (wheel s)) s in
      let s := syncAnchors env s in
      let s := set_wheel (set_angle (currentAnchorAngle env s) (wheel s)) s in
      setKnobPosition env (angle (wheel s)) s
  end.

(** ** Navigation engine ([navigation/advance.ts]) *)

(** [`Option ${pickedIndex + 1}`] and the like: decimal rendering of an
    integer inside a template literal. *)
Definition decimal (z : Z) : string :=
  NilZero.string_of_int (Z.to_int z).

Definition advance (env : Env) (options : AdvanceOptions) (s : AppState) : bool * AppState :=
  let source := if truthy (opt_source options) then opt_source options else "ui" in
  let splitConfirmed := (splitConfirmed options || String.eqb source "automation")%bool in
  match DECK env !! currentId s with
  | None => (false, s)
  | Some card =>
      if String.eqb (status card) "complete" then (false, s)
      else
        (* the transition is resolved to [Some (nextId, state)], or the
           function returns early with [None] *)
        let resolved :=
          match transitions card with
          | None => None
          | Some TOther => None
          | Some (TLinear next_id) => Some (next_id, s)
          | Some (TSplit opts) =>
              if (Z.of_nat (length opts) =? 0)%Z then None
              else if negb splitConfirmed then None
              else
                let pickedIndex :=
                  normalizeDecisionIndexForCard (Some card) (Num (inject_Z (decisionIndex s))) in
                let picked := js_index opts pickedIndex in
                let nextId := match picked with
                              | Some p => target_id p
                              | None => ""
                              end in
                let s := set_decisionRecords (<[id card := pickedIndex]> (decisionRecords s)) s in
                let entry :=
                  {| card_id := id card;
                     option_index := pickedIndex;
                     option_label :=
                       match picked with
                       | Some p => if truthy (label p) then label p
                                   else ("Option " ++ decimal (pickedIndex + 1))%string
                       | None => ("Option " ++ decimal (pickedIndex + 1))%string
                       end;
                     trail_target_id := nextId;
                     interaction := "forward-decision-confirm";
                     source := source;
                     timestamp := now env |} in
                Some (nextId, set_decisionTrail (decisionTrail s ++ [entry]) s)
          | Some (TSelfLoop next_id) =>
              Some (if truthy next_id then next_id else id card, s)
          end in
        match resolved with
        | None => (false, s)
        | Some (nextId, s) =>
            match (if truthy nextId then DECK env !! nextId else None) with
            | Some nextCard =>
                let s := if String.eqb nextId (currentId s) then s
                         else set_history (history s ++ [currentId s]) s in
                let s := set_currentId nextId s in
                let s := if isSplitDecisionCard (Some nextCard)
                         then set_decisionIndex (rememberedDecisionIndexForCard s nextCard) s
                         else set_decisionIndex 0 s in
                let s := set_decisionTapped false s in
                let s := set_carouselIndex 0 s in
                let autoStartCard := auto_start_on_card (algorithm_meta (RUNTIME_ALGORITHM env)) in
                let shouldStartTimer :=
                  (negb (truthy autoStartCard) || String.eqb nextId autoStartCard)%bool in
                let s := if (negb (timerRunning s) && shouldStartTimer)%bool
                         then startTimer s else s in
                (true, render env s)
            | None => (false, s)
            end
        end
  end.

Definition rewind (env : Env) (s : AppState) : bool * AppState :=
  match last (history s) with
  | None => (false, s)
  | Some prevId =>
      let s := set_history (removelast (history s)) s in
      let s := set_currentId prevId s in
      let prevCard := DECK env !! prevId in
      let s :=
        match prevCard with
        | Some c =>
            if isSplitDecisionCard prevCard then
              let s := set_decisionIndex (rememberedDecisionIndexForCard s c) s in
              set_decisionTapped (bool_decide (is_Some (decisionRecords s !! prevId))) s
            else set_decisionTapped false (set_decisionIndex 0 s)
        | None => set_decisionTapped false (set_decisionIndex 0 s)
        end in
      let s := set_carouselIndex 0 s in
      (true, render env s)
  end.

Definition canTapAdvance (card : option Card) : bool :=
  match card with
  | None => false
  | Some c =>
      if String.eqb (status c) "complete" then false
      else if isSplitDecisionCard card then false
      else true
  end.

(** ** Automation interface ([automation.ts])

    Every call answers [{ok, error, snapshot}]; the snapshot is a copy of
    fields of the state the call leaves behind, so a call is modelled as
    returning its [ok]/[error] pair together with that state. *)

Record AutomationResult := {
  ok : bool;
  error : option string;
}.

Definition setCurrentCardForAutomation (env : Env) (cardId : string) (s : AppState)
  : AutomationResult * AppState :=
  match DECK env !! cardId with
  | None => ({| ok := false; error := Some ("Unknown card id: " ++ cardId)%string |}, s)
  | Some card =>
      let s := set_currentId (id card) s in
      let s := set_history [] s in
      let s := if isSplitDecisionCard (Some card)
               then set_decisionIndex (rememberedDecisionIndexForCard s card) s
               else set_decisionIndex 0 s in
      let s := set_decisionTapped false s in
      let s := set_carouselIndex 0 s in
      let s := set_wheel (set_mode (computeWheelMode (Some card)) (wheel s)) s in
      let s := set_wheel (set_drag None false (wheel s)) s in
      let s := resetTimerState s in
      let s := render env s in
      ({| ok := true; error := None |}, s)
  end.

Module Automation.

Definition reset (env : Env) (s : AppState) : AutomationResult * AppState :=
  let startId := if truthy (currentAlgorithmStartId env)
                 then currentAlgorithmStartId env else currentId s in
  setCurrentCardForAutomation env startId s.

Definition gotoCard (env : Env) (cardId : string) (s : AppState)
  : AutomationResult * AppState :=
  setCurrentCardForAutomation env cardId s.

Definition selectDecisionOption (env : Env) (index : jsnum) (s : AppState)
  : AutomationResult * AppState :=
  match DECK env !! currentId s with
  | Some card =>
      match transitions card with
      | Some (TSplit _) =>
          let s := set_decisionIndex (normalizeDecisionIndexForCard (Some card) index) s in
          let s := set_decisionTapped true s in
          ({| ok := true; error := None |}, render env s)
      | _ => ({| ok := false; error := Some "Current card is not a split decision card" |}, s)
      end
  | None => ({| ok := false; error := Some "Current card is not a split decision card" |}, s)
  end.

Definition advance (env : Env) (s : AppState) : AutomationResult * bool * AppState :=
  let '(moved, s) :=
    advance env {| opt_source := "automation"; splitConfirmed := true |} s in
  ({| ok := true; error := None |}, moved, s).

Definition back (env : Env) (s : AppState) : AutomationResult * AppState :=
  let '(_, s) := rewind env s in
  ({| ok := true; error := None |}, s).

End Automation.

(** ** Loading an algorithm ([main.ts], [algorithms/loader.ts]) *)

(** [normalizeAlgorithm] keeps only the cards of the raw deck that have a
    truthy [id]; [RUNTIME_ALGORITHM] is only ever assigned its result, and
    is the empty deck before the first load. *)
Definition loadedDeck (env : Env) : Prop :=
  Forall (fun c => truthy (id c) = true) (deck (RUNTIME_ALGORITHM env)).

(** The state [applyAlgorithm] leaves behind once the algorithm of [env]
    is installed. *)
Definition applyAlgorithm (env : Env) (s : AppState) : AppState :=
  let start := currentAlgorithmStartId env in
  let cur := if truthy start then start else "CARD_00_START" in
  let w := {| mode := if truthy cur then computeWheelMode (DECK env !! cur) else LINEAR;
              angle := 330; visualAngle := Some 330;
              dragOrigin := None; navConsumed := false |} in
  let s := {| currentId := cur; history := [];
              decisionIndex := 0; decisionRecords := ∅;
              decisionTrail := []; decisionTapped := false;
              carouselIndex := 0; timerSeconds := timerSeconds s;
              timerRunning := timerRunning s; timerInterval := timerInterval s;
              checklistState := ∅; anchors := []; anchorIndex := 0;
              wheel := w |} in
  render env (resetTimerState s).

(** The option tap of the preview zone ([cards/preview-zone.ts]). *)
Definition tapDecisionOption (env : Env) (idx : jsnum) (s : AppState) : AppState :=
  match DECK env !! currentId s with
  | None => s
  | Some card =>
      let s := set_decisionIndex (normalizeDecisionIndexForCard (Some card) idx) s in
      render env (set_decisionTapped true s)
  end.

(** On a card that is no split decision the highlighted option index is
    at its default.  The load establishes this and every writer of
    [currentId] or [decisionIndex] keeps it. *)
Definition indexAtRest (env : Env) (s : AppState) : Prop :=
  isSplitDecisionCard (DECK env !! currentId s) = false -> decisionIndex s = 0%Z.

(** ** Reading the walks

    Auxiliary notions used to state what the loops compute. *)

(** The condition of both [while] loops. *)
Definition walkable (D : gmap string Card) (cardId : string) (visited : gset string) : bool :=
  truthy cardId && bool_decide (is_Some (D !! cardId)) && bool_decide (cardId ∉ visited).

(** The id the body of the [computeForwardPath] loop assigns to [cardId]
    for the card it has just pushed, [None] when it breaks instead. *)
Definition forwardNext (env : Env) (s : AppState) (card : Card) (visited : gset string)
  : option string :=
  match transitions card with
  | None => None
  | Some (TLinear next_id) => Some next_id
  | Some (TSplit options) =>
      match decisionRecords s !! id card with
      | Some idx => Some match js_index options idx with
                         | Some opt => target_id opt
                         | None => ""
                         end
      | None => Some (longestBranchTarget env card visited)
      end
  | Some (TSelfLoop next_id) =>
      if String.eqb next_id (id card) then None else Some next_id
  | Some TOther => None
  end.




(** ** Sample decks and states used as concrete inputs *)

Module Samples.

Definition card (i : string) (t : option Transition) : Card :=
  {| id := i; type := "standard"; phase := "action"; status := "";
     transitions := t |}.

Definition opt (l t : string) : TransitionOption :=
  {| label := l; target_id := t |}.

(** A card that ends a path: the loader links every other card without
    transitions to the card that follows it. *)
Definition terminal (i : string) : Card :=
  {| id := i; type := "terminal"; phase := "complete"; status := "complete";
     transitions := None |}.

Definition envOf (cards : list Card) : Env :=
  {| RUNTIME_ALGORITHM :=
       {| algorithm_meta := {| wheel_arc := None; auto_start_on_card := "" |};
          deck := cards |};
     dom_knob := true;
     now := "2024-01-01T00:00:00.000Z" |}.

Definition wheel0 : WheelState :=
  {| mode := COVER; angle := 330; visualAngle := Some 330;
     dragOrigin := None; navConsumed := false |}.

Definition stateAt (cur : string) (hist : list string) (records : gmap string Z)
    (seconds : Z) (running : bool) : AppState :=
  {| currentId := cur; history := hist;
     decisionIndex := 0; decisionRecords := records;
     decisionTrail := []; decisionTapped := false;
     carouselIndex := 0; timerSeconds := seconds;
     timerRunning := running; timerInterval := running;
     checklistState := ∅; anchors := []; anchorIndex := 0;
     wheel := wheel0 |}.

(** A -> B -> C, C terminal. *)
Definition linearDeck : list Card :=
  [ card "A" (Some (TLinear "B"));
    card "B" (Some (TLinear "C"));
    {| id := "C"; type := "terminal"; phase := "complete"; status := "complete";
       transitions := None |} ].

(** D is a decision whose first option points at a card that is not in
    the deck. *)
Definition danglingDeck : list Card :=
  [ card "D" (Some (TSplit [opt "YES" "GONE"; opt "NO" "F"]));
    card "F" None ].

(** L loops on itself. *)
Definition loopDeck : list Card :=
  [ card "L" (Some (TSelfLoop "L")) ].

(** S branches to A (A, T, then E or L1 -> L2 -> L3) and to
    B (B -> B2 -> B3 -> B4). *)
Definition nestedDeck : list Card :=
  [ card "S" (Some (TSplit [opt "left" "A"; opt "right" "B"]));
    card "A" (Some (TLinear "T"));
    card "T" (Some (TSplit [opt "stop" "E"; opt "go" "L1"]));
    terminal "E";
    card "L1" (Some (TLinear "L2"));
    card "L2" (Some (TLinear "L3"));
    terminal "L3";
    card "B" (Some (TLinear "B2"));
    card "B2" (Some (TLinear "B3"));
    card "B3" (Some (TLinear "B4"));
    terminal "B4" ].

(** S branches to a branch of two cards and to a branch of five. *)
Definition twoFiveDeck : list Card :=
  [ card "S" (Some (TSplit [opt "short" "P1"; opt "long" "Q1"]));
    card "P1" (Some (TLinear "P2"));
    terminal "P2";
    card "Q1" (Some (TLinear "Q2"));
    card "Q2" (Some (TLinear "Q3"));
    card "Q3" (Some (TLinear "Q4"));
    card "Q4" (Some (TLinear "Q5"));
    terminal "Q5" ].



End Samples.

(** ** Reading [advance]

    The two halves of [advance], named so that its outcome can be stated:
    resolving the transition of the current card, and landing on the
    card it leads to. *)

(** Lines 22-42 of [advance]: the next id together with the state as the
    split branch leaves it, or [None] for the early returns. *)
Definition resolveTransition (env : Env) (source : string) (confirmed : bool)
    (card : Card) (s : AppState) : option (string * AppState) :=
  match transitions card with
  | None => None
  | Some TOther => None
  | Some (TLinear next_id) => Some (next_id, s)
  | Some (TSplit opts) =>
      if (Z.of_nat (length opts) =? 0)%Z then None
      else if negb confirmed then None
      else
        let pickedIndex :=
          normalizeDecisionIndexForCard (Some card) (Num (inject_Z (decisionIndex s))) in
        let picked := js_index opts pickedIndex in
        let nextId := match picked with
                      | Some p => target_id p
                      | None => ""
                      end in
        let s := set_decisionRecords (<[id card := pickedIndex]> (decisionRecords s)) s in
        let entry :=
          {| card_id := id card;
             option_index := pickedIndex;
             option_label :=
               match picked with
               | Some p => if truthy (label p) then label p
                           else ("Option " ++ decimal (pickedIndex + 1))%string
               | None => ("Option " ++ decimal (pickedIndex + 1))%string
               end;
             trail_target_id := nextId;
             interaction := "forward-decision-confirm";
             source := source;
             timestamp := now env |} in
        Some (nextId, set_decisionTrail (decisionTrail s ++ [entry]) s)
  | Some (TSelfLoop next_id) =>
      Some (if truthy next_id then next_id else id card, s)
  end.

(** Lines 45-66 of [advance]: the move onto [nextCard]. *)
Definition landOn (env : Env) (nextId : string) (nextCard : Card) (s : AppState) : AppState :=
  let s := if String.eqb nextId (currentId s) then s
           else set_history (history s ++ [currentId s]) s in
  let s := set_currentId nextId s in
  let s := if isSplitDecisionCard (Some nextCard)
           then set_decisionIndex (rememberedDecisionIndexForCard s nextCard) s
           else set_decisionIndex 0 s in
  let s := set_decisionTapped false s in
  let s := set_carouselIndex 0 s in
  let autoStartCard := auto_start_on_card (algorithm_meta (RUNTIME_ALGORITHM env)) in
  let shouldStartTimer :=
    (negb (truthy autoStartCard) || String.eqb nextId autoStartCard)%bool in
  let s := if (negb (timerRunning s) && shouldStartTimer)%bool
           then startTimer s else s in
  render env s.

Definition advanceSource (options : AdvanceOptions) : string :=
  if truthy (opt_source options) then opt_source options else "ui".

Definition advanceConfirmed (options : AdvanceOptions) : bool :=
  (splitConfirmed options || String.eqb (advanceSource options) "automation")%bool.

(** ** Invariants of the navigation state *)


(** The highlighted option index fits the current card: within the
    options of a split decision, at its default anywhere else. *)
Definition indexFitsCard (env : Env) (s : AppState) : Prop :=
  (isSplitDecisionCard (DECK env !! currentId s) = false -> decisionIndex s = 0%Z)
  /\ (forall c, DECK env !! currentId s = Some c ->
                isSplitDecisionCard (Some c) = true ->
                (0 <= decisionIndex s <= optionCount c - 1)%Z).

(** ** More wheel physics ([wheel/physics.ts]) *)

Definition NAV_THRESHOLD_DEG : Q := 10.

(** Wrap-safe delta between two angles. *)
Definition angleDelta (fromDeg toDeg : Q) : Q :=
  let delta := fromDeg - toDeg in
  let delta := if Qlt_le_dec 180 delta then delta - 360 else delta in
  if Qlt_le_dec delta (-180) then delta + 360 else delta.

Definition isAngleWithinArc (angle : Q) (arc : WheelArc) : bool :=
  let deg := normalizeDegrees (Num angle) in
  match direction arc with
  | anticlockwise =>
      let ccwDistance := jsrem (start_degrees arc - end_degrees arc + 360) 360 in
      let ccwFromStart := jsrem (start_degrees arc - deg + 360) 360 in
      Qle_bool ccwFromStart ccwDistance
  | clockwise =>
      let cwDistance := jsrem (end_degrees arc - start_degrees arc + 360) 360 in
      let cwFromStart := jsrem (deg - start_degrees arc + 360) 360 in
      Qle_bool cwFromStart cwDistance
  end.

Definition shortestAngularDistance (a b : Q) : Q :=
  let nA := normalizeDegrees (Num a) in
  let nB := normalizeDegrees (Num b) in
  let diff := Qabs (nA - nB) in
  Qmin diff (360 - diff).

Definition clampAngleToArc (angle : Q) (arc : WheelArc) : Q :=
  let deg := normalizeDegrees (Num angle) in
  if isAngleWithinArc deg arc then deg
  else
    let startDist := shortestAngularDistance deg (start_degrees arc) in
    let endDist := shortestAngularDistance deg (end_degrees arc) in
    if Qle_bool startDist endDist then start_degrees arc else end_degrees arc.

(** ** Gesture classification ([wheel/gestures.ts]) *)

Definition Qgtb (a b : Q) : bool := if Qlt_le_dec b a then true else false.
Definition Qltb (a b : Q) : bool := if Qlt_le_dec a b then true else false.

Definition isForwardGesture (delta : Q) (arc : WheelArc) (threshold : option Q) : bool :=
  let t := match threshold with Some t => t | None => NAV_THRESHOLD_DEG end in
  match direction arc with
  | anticlockwise => Qgtb delta t
  | clockwise => Qltb delta (- t)
  end.

Definition isReverseGesture (delta : Q) (arc : WheelArc) (threshold : option Q) : bool :=
  let t := match threshold with Some t => t | None => NAV_THRESHOLD_DEG end in
  match direction arc with
  | anticlockwise => Qltb delta (- t)
  | clockwise => Qgtb delta t
  end.

(** ** Knob drag handling ([wheel/knob.ts])

    The handlers take the pointer angle that [getAngleFromEvent] reads
    off the event, and thread the module variable [isDraggingKnob]
    beside the state.  Class changes on the knob element and haptic
    feedback do not touch the state and are left out. *)

Definition set_navConsumed (v : bool) (s : AppState) : AppState :=
  set_wheel (set_drag (dragOrigin (wheel s)) v (wheel s)) s.

Definition set_dragOrigin (v : option Q) (s : AppState) : AppState :=
  set_wheel (set_drag v (navConsumed (wheel s)) (wheel s)) s.

Definition startKnobDrag (env : Env) (pointer : Q) (ds : bool * AppState) : bool * AppState :=
  let s := snd ds in
  let arc := getCurrentWheelArc env in
  let startAngle := clampAngleToArc pointer arc in
  let s := set_dragOrigin (Some startAngle) s in
  let s := set_navConsumed false s in
  (true, s).

Definition handleDecisionWheelDrag (env : Env) (delta : Q) (s : AppState) : AppState :=
  match DECK env !! currentId s with
  | Some card =>
      match transitions card with
      | Some (TSplit _) =>
          let arc := getCurrentWheelArc env in
          if isReverseGesture delta arc None then
            let '(moved, s) := rewind env s in
            if moved then set_navConsumed true s else s
          else if (decisionTapped s && isForwardGesture delta arc None)%bool then
            let '(moved, s) :=
              advance env {| opt_source := "wheel-drag"; splitConfirmed := true |} s in
            if moved then set_navConsumed true s else s
          else s
      | _ => s
      end
  | None => s
  end.

Definition onKnobDrag (env : Env) (pointer : Q) (ds : bool * AppState) : bool * AppState :=
  let '(isDraggingKnob, s) := ds in
  if negb isDraggingKnob then ds
  else
    match DECK env !! currentId s with
    | None => ds
    | Some card =>
        let arc := getCurrentWheelArc env in
        let currentAngle := clampAngleToArc pointer arc in
        let s := match dragOrigin (wheel s) with
                 | None => set_dragOrigin (Some currentAngle) s
                 | Some _ => s
                 end in
        let delta := angleDelta match dragOrigin (wheel s) with
                                | Some o => o
                                | None => currentAngle
                                end currentAngle in
        let mode_ := mode (wheel s) in
        if navConsumed (wheel s) then (isDraggingKnob, s)
        else
          match mode_ with
          | COVER =>
              if isForwardGesture delta arc None then
                let s := snd (advance env {| opt_source := "wheel-drag";
                                             splitConfirmed := false |} s) in
                (isDraggingKnob, set_navConsumed true s)
              else (isDraggingKnob, setKnobPosition env currentAngle s)
          | TERMINAL =>
              if isReverseGesture delta arc None then
                let s := snd (rewind env s) in
                (isDraggingKnob, set_navConsumed true s)
              else (isDraggingKnob, setKnobPosition env currentAngle s)
          | DECISION => (isDraggingKnob, handleDecisionWheelDrag env delta s)
          | _ =>
              if isForwardGesture delta arc None then
                let s := snd (advance env {| opt_source := "wheel-drag";
                                             splitConfirmed := false |} s) in
                (isDraggingKnob, set_navConsumed true s)
              else if isReverseGesture delta arc None then
                let s := snd (rewind env s) in
                (isDraggingKnob, set_navConsumed true s)
              else (isDraggingKnob, setKnobPosition env currentAngle s)
          end
    end.

Definition endKnobDrag (env : Env) (ds : bool * AppState) : bool * AppState :=
  let '(isDraggingKnob, s) := ds in
  if negb isDraggingKnob then ds
  else
    let s := set_dragOrigin None s in
    let s := set_navConsumed false s in
    let s := set_wheel (set_angle (currentAnchorAngle env s) (wheel s)) s in
    (false, setKnobPosition env (angle (wheel s)) s).

(** ** Zone drag navigation ([navigation/zone-drag.ts]) *)

Inductive DragDirection := DragAdvance | DragRewind.

(** The part of the module's drag record that decides navigation; the
    dragged element and its saved transform only serve the animation. *)
Record DragState := {
  active : bool;
  startY : Q;
  drag_direction : option DragDirection;
  zoneHeight : Q;
}.

(** In exact arithmetic, which is enough to say which fields a release
    writes; where the threshold lies is stated for [Double.onPointerUp]. *)
Definition ZONE_THRESHOLD_RATIO : Q := 35 # 100.

(** [onPointerDown]: [onOptionCard] tells whether the target carries the
    class of a decision option card, [zoneHeights] gives the rendered
    heights of the top and the bottom zone. *)
Definition onPointerDown (onOptionCard : bool) (clientY : Q) (direction_ : DragDirection)
    (zoneHeights : Q * Q) (drag : DragState) : DragState :=
  if onOptionCard then drag
  else
    {| active := true; startY := clientY; drag_direction := Some direction_;
       zoneHeight := match direction_ with
                     | DragAdvance => fst zoneHeights
                     | DragRewind => snd zoneHeights
                     end |}.

(** [onPointerUp]: the drag record and the state after the release, and
    whether the release committed a navigation. *)
Definition onPointerUp (env : Env) (clientY : Q) (drag : DragState) (s : AppState)
  : DragState * bool * AppState :=
  if negb (active drag) then (drag, false, s)
  else
    let dy := clientY - startY drag in
    let threshold := zoneHeight drag * ZONE_THRESHOLD_RATIO in
    let '(committed, s) :=
      match drag_direction drag with
      | Some DragAdvance =>
          if Qgtb dy threshold
          then advance env {| opt_source := "zone-drag"; splitConfirmed := false |} s
          else (false, s)
      | Some DragRewind =>
          if Qltb dy (- threshold) then rewind env s else (false, s)
      | None => (false, s)
      end in
    ({| active := false; startY := startY drag; drag_direction := None;
        zoneHeight := zoneHeight drag |}, committed, s).

(** ** Decision drag-to-confirm ([cards/decision-drag.ts]) *)

Definition startDecisionDrag (env : Env) (isDraggingDecision : bool) (s : AppState) : bool :=
  match DECK env !! currentId s with
  | Some card => if String.eqb (type card) "decision" then true else isDraggingDecision
  | None => isDraggingDecision
  end.

Definition endDecisionDrag (env : Env) (dy : Q) (ds : bool * AppState) : bool * AppState :=
  let '(isDraggingDecision, s) := ds in
  if negb isDraggingDecision then ds
  else
    let s := if (Qgtb dy 60 && decisionTapped s)%bool
             then snd (advance env {| opt_source := "decision-confirm";
                                      splitConfirmed := true |} s)
             else s in
    (false, s).

(** ** Tap to advance ([main.ts]) *)

(** The click listener of the wheel ([onKnob] tells whether the click
    landed on the knob itself). *)
Definition wheelTap (env : Env) (onKnob : bool) (s : AppState) : AppState :=
  if onKnob then s
  else if negb (canTapAdvance (DECK env !! currentId s)) then s
  else snd (advance env {| opt_source := "wheel-tap"; splitConfirmed := false |} s).

Definition knobTap (env : Env) (s : AppState) : AppState :=
  if negb (canTapAdvance (DECK env !! currentId s)) then s
  else snd (advance env {| opt_source := "knob-tap"; splitConfirmed := false |} s).

(** Two states with the same committed choices and the same trail. *)
Definition sameDecisions (s s' : AppState) : Prop :=
  decisionRecords s' = decisionRecords s /\ decisionTrail s' = decisionTrail s.

(** ** Normalising a loaded algorithm ([algorithms/loader.ts])

    The raw JSON as far as the deck normalisation reads it.  As
    elsewhere an absent or [null] string field is the empty string; an
    [options] field that is no array is [None]; an option entry that is
    [null] counts as one without [target_id], which the loader drops
    just the same. *)

Record RawOption := {
  raw_label : string;
  raw_target_id : string;
}.

Record RawTransitions := {
  raw_type : string;
  raw_next_id : string;
  raw_options : option (list RawOption);
}.

Record RawCard := {
  raw_id : string;
  raw_card_type : string;
  raw_status : string;
  raw_phase : string;
  raw_transitions : option RawTransitions;
}.

Definition isTerminalLike (card : RawCard) : bool :=
  (String.eqb (raw_card_type card) "terminal"
   || String.eqb (raw_status card) "complete"
   || String.eqb (raw_status card) "handoff")%bool.

(** The [map] over the filtered options: the label falls back to
    [`Option ${idx + 1}`], [idx] counting the options that were kept. *)
Fixpoint normalizeOptions (idx : Z) (options : list RawOption) : list TransitionOption :=
  match options with
  | [] => []
  | o :: rest =>
      {| label := if truthy (raw_label o) then raw_label o
                  else ("Option " ++ decimal (idx + 1))%string;
         target_id := raw_target_id o |}
      :: normalizeOptions (idx + 1) rest
  end.

(** [normalizeTransitions (card, index, cards)]; [nextCardId] is the id
    of [cards[index + 1]], if there is such a card. *)
Definition normalizeTransitions (card : RawCard) (nextCardId : option string)
  : option Transition :=
  match raw_transitions card with
  | None =>
      if isTerminalLike card then None
      else match nextCardId with
           | Some n => Some (TLinear n)
           | None => None
           end
  | Some raw =>
      let options :=
        match raw_options raw with
        | Some opts =>
            if String.eqb (raw_type raw) "split"
            then normalizeOptions 0 (List.filter (fun o => truthy (raw_target_id o)) opts)
            else []
        | None => []
        end in
      if (0 <? Z.of_nat (length options))%Z then Some (TSplit options)
      else if String.eqb (raw_type raw) "self_loop" then
        Some (TSelfLoop (if truthy (raw_next_id raw) then raw_next_id raw else raw_id card))
      else
        let linearNext :=
          if truthy (raw_next_id raw) then raw_next_id raw
          else if negb (isTerminalLike card)
               then match nextCardId with Some n => n | None => "" end
               else "" in
        if truthy linearNext then Some (TLinear linearNext) else None
  end.

Section Loader.

(** [String.prototype.trim], which [inferPhase] applies to an explicit
    phase. *)
Variable trim : string -> string.

Definition inferPhase (card : RawCard) : string :=
  let explicit := if truthy (raw_phase card) then trim (raw_phase card) else "" in
  if truthy explicit then
    if String.eqb explicit "cpr_loop" then "loop" else explicit
  else if negb (truthy (raw_card_type card)) then "action"
  else if String.eqb (raw_card_type card) "cover" then "start_point"
  else if String.eqb (raw_card_type card) "decision" then "decision"
  else if String.eqb (raw_card_type card) "terminal" then "complete"
  else if String.eqb (raw_card_type card) "loop_start" then "loop"
  else "action".

(** The [forEach] of [normalizeAlgorithm] over the cards that passed the
    id filter: each card gets its phase and its transitions, the latter
    reading the id of the card that follows. *)
Fixpoint normalizeCards (cards : list RawCard) : list Card :=
  match cards with
  | [] => []
  | card :: rest =>
      {| id := raw_id card;
         type := raw_card_type card;
         phase := inferPhase card;
         status := raw_status card;
         transitions := normalizeTransitions card (raw_id <$> head rest) |}
      :: normalizeCards rest
  end.

(** The deck [normalizeAlgorithm] answers for a raw deck: cards without a
    truthy id are dropped first. *)
Definition normalizeDeck (rawDeck : list RawCard) : list Card :=
  normalizeCards (List.filter (fun card => truthy (raw_id card)) rawDeck).

End Loader.

(** A transition as the loader leaves it. *)
Definition loaderTransition (t : Transition) : Prop :=
  match t with
  | TLinear n => truthy n = true
  | TSelfLoop n => truthy n = true
  | TSplit opts =>
      opts <> []
      /\ Forall (fun o => truthy (target_id o) = true /\ truthy (label o) = true) opts
  | TOther => False
  end.

(** ** Double-precision arithmetic

    JavaScript numbers are IEEE 754 binary64 values, and every [+], [-]
    and [*] answers the double nearest to the exact result, ties going to
    the even significand.  [round64] is that rounding on the rationals;
    numbers stay far below the overflow threshold in the code modelled
    here.  [%] is exact on doubles, and so are comparisons. *)

Open Scope Q_scope.

Definition pow2 (k : Z) : Q := Qpower 2 k.

(** The integer part of the binary logarithm of a positive rational. *)
Definition ilog2 (x : Q) : Z :=
  let e := (Z.log2 (Qnum x) - Z.log2 (Zpos (Qden x)))%Z in
  if Qlt_le_dec x (pow2 e) then (e - 1)%Z else e.

(** The nearest integer, ties to even. *)
Definition rne (x : Q) : Z :=
  let f := Qfloor x in
  match Qcompare (x - inject_Z f) (1 # 2) with
  | Lt => f
  | Gt => (f + 1)%Z
  | Eq => if Z.even f then f else (f + 1)%Z
  end.

(** The exponent of the last place of the double nearest to [x]: 52
    binary places below the leading one, but never below the subnormal
    spacing [2^-1074]. *)
Definition qexp (x : Q) : Z := Z.max (ilog2 (Qabs x) - 52) (-1074).

Definition round64 (x : Q) : Q :=
  if Qeq_bool x 0 then 0
  else Qred (inject_Z (rne (x / pow2 (qexp x))) * pow2 (qexp x)).

(** What the proofs use of the rounding: it respects equality of
    rationals, it is monotone, and integers below [2^53] are doubles. *)
Definition rounding (rnd : Q -> Q) : Prop :=
  (forall x y, x == y -> rnd x == rnd y)
  /\ (forall x y, x <= y -> rnd x <= rnd y)
  /\ (forall z : Z, (Z.abs z < 2 ^ 53)%Z -> rnd (inject_Z z) == inject_Z z).

(** The code that computes with angles and lengths, in double
    arithmetic. *)
Module Double.

Section Rounding.

Variable rnd : Q -> Q.

(** [normalizeDegrees] ([algorithms/loader.ts]). *)
Definition normalizeDegrees (deg : jsnum) : Q :=
  match deg with
  | Num n =>
      let mod_ := jsrem n 360 in
      if Qlt_le_dec mod_ 0 then rnd (mod_ + 360) else mod_
  | _ => 0
  end.

(** [normalizeWheelArc] ([algorithms/loader.ts]); [Math.max] is exact. *)
Definition normalizeWheelArc (meta : AlgorithmMeta) : WheelArc :=
  let dir (d : string) :=
    if String.eqb (toLowerCase d) "anticlockwise" then anticlockwise else clockwise in
  match wheel_arc meta with
  | Some raw =>
      {| start_degrees :=
           match raw_start_degrees raw with
           | Some x => normalizeDegrees (Num x)
           | None => start_degrees DEFAULT_WHEEL_ARC
           end;
         end_degrees :=
           match raw_end_degrees raw with
           | Some x => normalizeDegrees (Num x)
           | None => end_degrees DEFAULT_WHEEL_ARC
           end;
         direction :=
           if truthy (raw_direction raw) then dir (raw_direction raw)
           else direction DEFAULT_WHEEL_ARC;
         phase_spread_degrees :=
           match raw_phase_spread_degrees raw with
           | Some x => Qmax 0 x
           | None => phase_spread_degrees DEFAULT_WHEEL_ARC
           end |}
  | None => DEFAULT_WHEEL_ARC
  end.

Definition getCurrentWheelArc (env : Env) : WheelArc :=
  normalizeWheelArc (algorithm_meta (RUNTIME_ALGORITHM env)).

(** [angleOnArc] ([navigation/anchors.ts]): every sum, difference and
    product is rounded; [%], [Math.max] and [Math.min] are exact. *)
Definition angleOnArc (arc : WheelArc) (ratio : Q) : Q :=
  let t := Qmax 0 (Qmin 1 ratio) in
  let cwDistance := jsrem (rnd (rnd (end_degrees arc - start_degrees arc) + 360)) 360 in
  let ccwDistance := jsrem (rnd (rnd (start_degrees arc - end_degrees arc) + 360)) 360 in
  match direction arc with
  | anticlockwise =>
      let n := rnd (start_degrees arc - rnd (ccwDistance * t)) in
      let mod_ := jsrem n 360 in
      if Qlt_le_dec mod_ 0 then rnd (mod_ + 360) else mod_
  | clockwise =>
      let n := rnd (start_degrees arc + rnd (cwDistance * t)) in
      let mod_ := jsrem n 360 in
      if Qlt_le_dec mod_ 0 then rnd (mod_ + 360) else mod_
  end.

(** [computeAnchors] ([navigation/anchors.ts]); the quotient
    [i / (path.length - 1)] is rounded. *)
Definition computeAnchors (env : Env) (s : AppState) : list Anchor :=
  let path := computeForwardPath env s in
  let arc := getCurrentWheelArc env in
  match path with
  | [] => []
  | [only] => [ {| anchor_id := only; anchor_angle := start_degrees arc |} ]
  | _ =>
      imap (fun i id_ =>
              {| anchor_id := id_;
                 anchor_angle :=
                   angleOnArc arc
                     (rnd (inject_Z (Z.of_nat i)
                           / inject_Z (Z.of_nat (length path) - 1))) |})
           path
  end.

(** The signed step [setKnobPosition] computes from the normalised
    target and the normalised last angle. *)
Definition knobDelta (target last : Q) : Q :=
  let diff := rnd (target - last) in
  let diff := if Qlt_le_dec 180 diff then rnd (diff - 360) else diff in
  if Qlt_le_dec diff (-180) then rnd (diff + 360) else diff.

(** [setKnobPosition] ([wheel/physics.ts]). *)
Definition setKnobPosition (env : Env) (deg : Q) (s : AppState) : AppState :=
  if negb (dom_knob env) then s
  else
    let lastVisual := match visualAngle (wheel s) with
                      | None => deg
                      | Some v => v
                      end in
    let targetDeg := normalizeDegrees (Num deg) in
    let normalizedLast := normalizeDegrees (Num lastVisual) in
    let diff := rnd (targetDeg - normalizedLast) in
    let diff := if Qlt_le_dec 180 diff then rnd (diff - 360) else diff in
    let diff := if Qlt_le_dec diff (-180) then rnd (diff + 360) else diff in
    let newVisual := rnd (lastVisual + diff) in
    set_wheel (set_visualAngle (Some newVisual) (wheel s)) s.

(** The visual angles seen while a list of targets is fed to
    [setKnobPosition], the initial one first. *)
Fixpoint visualTrace (env : Env) (s : AppState) (targets : list Q) : list (option Q) :=
  match targets with
  | [] => [visualAngle (wheel s)]
  | t :: ts => visualAngle (wheel s) :: visualTrace env (setKnobPosition env t s) ts
  end.

(** One update of the visual angle: the knob stays where it is, or a
    step of at most 180 degrees is added and the sum rounded. *)
Definition knobStep (a b : option Q) : Prop :=
  match a, b with
  | Some x, Some y => y = x \/ exists d, Qabs d <= 180 /\ y = rnd (x + d)
  | None, _ => True
  | Some _, None => False
  end.

(** [ZONE_THRESHOLD_RATIO] and [onPointerUp] ([navigation/zone-drag.ts]):
    the literal [0.35] is the double nearest to 35/100. *)
Definition ZONE_THRESHOLD_RATIO : Q := rnd (35 # 100).

Definition onPointerUp (env : Env) (clientY : Q) (drag : DragState) (s : AppState)
  : DragState * bool * AppState :=
  if negb (active drag) then (drag, false, s)
  else
    let dy := rnd (clientY - startY drag) in
    let threshold := rnd (zoneHeight drag * ZONE_THRESHOLD_RATIO) in
    let '(committed, s) :=
      match drag_direction drag with
      | Some DragAdvance =>
          if Qgtb dy threshold
          then advance env {| opt_source := "zone-drag"; splitConfirmed := false |} s
          else (false, s)
      | Some DragRewind =>
          if Qltb dy (- threshold) then rewind env s else (false, s)
      | None => (false, s)
      end in
    ({| active := false; startY := startY drag; drag_direction := None;
        zoneHeight := zoneHeight drag |}, committed, s).

End Rounding.

End Double.

Open Scope Z_scope.

(** ** More sample inputs *)

Module MoreSamples.

Definition splitCard : Card :=
  Samples.card "S" (Some (TSplit [Samples.opt "short" "P1"; Samples.opt "long" "Q1"])).

Definition confirm : AdvanceOptions :=
  {| opt_source := "decision-confirm"; splitConfirmed := true |}.

Definition plain : AdvanceOptions :=
  {| opt_source := "wheel-tap"; splitConfirmed := false |}.

Definition rawDeck : list RawCard :=
  [ {| raw_id := "A"; raw_card_type := "cover"; raw_status := ""; raw_phase := "";
       raw_transitions := None |};
    {| raw_id := ""; raw_card_type := "standard"; raw_status := ""; raw_phase := "";
       raw_transitions := None |};
    {| raw_id := "D"; raw_card_type := "decision"; raw_status := ""; raw_phase := "";
       raw_transitions :=
         Some {| raw_type := "split"; raw_next_id := "";
                 raw_options := Some [ {| raw_label := "YES"; raw_target_id := "E" |};
                                       {| raw_label := ""; raw_target_id := "" |};
                                       {| raw_label := ""; raw_target_id := "A" |} ] |} |};
    {| raw_id := "E"; raw_card_type := "terminal"; raw_status := "complete";
       raw_phase := ""; raw_transitions := None |} ].

Definition noTrim (x : string) : string := x.

End MoreSamples.

(** * Properties *)

Open Scope Z_scope.

(** *** Clamp invariant *)

Lemma normalize_split_range (c : Card) (n : jsnum) :
  isSplitDecisionCard (Some c) = true ->
  0 <= normalizeDecisionIndexForCard (Some c) n <= optionCount c - 1.
Proof.
  unfold isSplitDecisionCard, normalizeDecisionIndexForCard, optionCount.
  destruct (transitions c) as [[nx|opts|nx|]|]; try discriminate.
  intros Hpos. apply Z.ltb_lt in Hpos.
  destruct (Z.eqb_spec (Z.of_nat (length opts)) 0); lia.
Qed.

Lemma normalize_not_split (c : option Card) (n : jsnum) :
  isSplitDecisionCard c = false ->
  normalizeDecisionIndexForCard c n = 0.
Proof.
  unfold isSplitDecisionCard, normalizeDecisionIndexForCard.
  destruct c as [c|]; [|reflexivity].
  destruct (transitions c) as [[nx|opts|nx|]|]; try reflexivity.
  intros Hpos. apply Z.ltb_ge in Hpos.
  destruct (Z.eqb_spec (Z.of_nat (length opts)) 0); [reflexivity|lia].
Qed.

Lemma normalize_non_finite (c : option Card) (n : jsnum) :
  isFinite n = false ->
  normalizeDecisionIndexForCard c n = 0.
Proof.
  unfold normalizeDecisionIndexForCard.
  destruct n; [discriminate|..]; intros _;
    destruct c as [c|]; try reflexivity;
    destruct (transitions c) as [[nx|opts|nx|]|]; try reflexivity;
    destruct (Z.eqb_spec (Z.of_nat (length opts)) 0); lia.
Qed.

(** C7. For every card and every integer [i] the normalised index lies in
    [[0, optionCount - 1]] when the card is a split card with at least one
    option, and is [0] for a missing card, a card without a split
    transition or a split without options; a non-finite request is
    replaced by [0] before clamping, so it yields [0] on every card, and a
    finite one is floored first. *)
Theorem normalizeDecisionIndexForCard_clamp :
  (forall (c : Card) (i : Z),
      (isSplitDecisionCard (Some c) = true ->
       0 <= normalizeDecisionIndexForCard (Some c) (Num (inject_Z i)) <= optionCount c - 1)
      /\ (isSplitDecisionCard (Some c) = false ->
          normalizeDecisionIndexForCard (Some c) (Num (inject_Z i)) = 0))
  /\ (forall i : Z, normalizeDecisionIndexForCard None (Num (inject_Z i)) = 0)
  /\ (forall (c : option Card) (n : jsnum),
         isFinite n = false -> normalizeDecisionIndexForCard c n = 0)
  /\ (forall (c : Card) (q : Q),
         normalizeDecisionIndexForCard (Some c) (Num q)
         = normalizeDecisionIndexForCard (Some c) (Num (inject_Z (Qfloor q)))).
Proof.
  repeat split.
  - apply normalize_split_range; assumption.
  - apply normalize_split_range; assumption.
  - intros Hns. apply normalize_not_split; assumption.
  - intros c n Hn. apply normalize_non_finite; assumption.
  - intros c q. unfold normalizeDecisionIndexForCard.
    rewrite Qfloor_Z. reflexivity.
Qed.


(** ** Angle normalisation and the unwrapped visual angle *)

Open Scope Q_scope.

Lemma inject_Z_minus (x y : Z) : inject_Z (x - y) = inject_Z x - inject_Z y.
Proof.
  unfold Z.sub, Qminus. rewrite inject_Z_plus, inject_Z_opp. reflexivity.
Qed.

Lemma jsrem_360_bounds (n : Q) : -360 < jsrem n 360 /\ jsrem n 360 < 360.
Proof.
  unfold jsrem, Qtrunc.
  assert (Hdiv : n == 360 * (n / 360)) by (field; discriminate).
  destruct (Qlt_le_dec (n / 360) 0) as [Hneg|Hpos].
  - pose proof (Qle_ceiling (n / 360)) as Hc.
    pose proof (Qceiling_lt (n / 360)) as Hl.
    rewrite inject_Z_minus in Hl. change (inject_Z 1) with 1 in Hl.
    split; lra.
  - pose proof (Qfloor_le (n / 360)) as Hf.
    pose proof (Qlt_floor (n / 360)) as Hl.
    rewrite inject_Z_plus in Hl. change (inject_Z 1) with 1 in Hl.
    split; lra.
Qed.

Lemma normalizeDegrees_range (n : Q) :
  0 <= normalizeDegrees (Num n) /\ normalizeDegrees (Num n) < 360.
Proof.
  unfold normalizeDegrees.
  pose proof (jsrem_360_bounds n) as [Hlo Hhi].
  destruct (Qlt_le_dec (jsrem n 360) 0); split; lra.
Qed.

Lemma normalizeDegrees_principal (n : Q) :
  0 <= n -> n < 360 -> normalizeDegrees (Num n) == n.
Proof.
  intros Hlo Hhi. unfold normalizeDegrees, jsrem, Qtrunc.
  assert (Hdiv : n == 360 * (n / 360)) by (field; discriminate).
  assert (Hq0 : 0 <= n / 360) by lra.
  assert (Hq1 : n / 360 < 1) by lra.
  destruct (Qlt_le_dec (n / 360) 0) as [Hneg|Hpos]; [lra|].
  assert (Hfl : Qfloor (n / 360) = 0%Z).
  { pose proof (Qfloor_le (n / 360)) as Hf.
    pose proof (Qlt_floor (n / 360)) as Hl.
    assert (H1 : (Qfloor (n / 360) < 1)%Z).
    { rewrite Zlt_Qlt. change (inject_Z 1) with 1. lra. }
    assert (H2 : (-1 < Qfloor (n / 360))%Z).
    { rewrite Zlt_Qlt. rewrite inject_Z_plus in Hl.
      change (inject_Z 1) with 1 in Hl. change (inject_Z (-1)) with (-1). lra. }
    lia. }
  rewrite Hfl. change (inject_Z 0) with 0.
  destruct (Qlt_le_dec (n - 360 * 0) 0); lra.
Qed.


(** ** Rounding to the nearest double *)

Lemma pow2_pos (k : Z) : 0 < pow2 k.
Proof. apply Qpower_0_lt. reflexivity. Qed.

Lemma pow2_plus (a b : Z) : pow2 (a + b) == pow2 a * pow2 b.
Proof. apply Qpower_plus. discriminate. Qed.

Lemma pow2_le (a b : Z) : (a <= b)%Z -> pow2 a <= pow2 b.
Proof. intros H. apply Qpower_le_compat_l; [exact H|discriminate]. Qed.

Lemma pow2_lt (a b : Z) : (a < b)%Z -> pow2 a < pow2 b.
Proof. intros H. apply Qpower_lt_compat_l; [exact H|reflexivity]. Qed.

Lemma pow2_Z (k : Z) : (0 <= k)%Z -> pow2 k == inject_Z (2 ^ k).
Proof. intros H. unfold pow2. rewrite Zpower_Qpower by exact H. reflexivity. Qed.

Lemma Qmake_times_den (n : Z) (d : positive) : (n # d) * inject_Z (Zpos d) == inject_Z n.
Proof. unfold Qeq, Qmult, inject_Z. simpl. lia. Qed.

Lemma ilog2_spec (x : Q) : 0 < x -> pow2 (ilog2 x) <= x /\ x < pow2 (ilog2 x + 1).
Proof.
  intros Hx. destruct x as [n d].
  assert (Hn : (0 < n)%Z) by (unfold Qlt in Hx; simpl in Hx; lia).
  pose proof (Z.log2_spec n Hn) as [Hn1 Hn2].
  pose proof (Z.log2_spec (Zpos d) (Pos2Z.is_pos d)) as [Hd1 Hd2].
  pose proof (Z.log2_nonneg n) as Ha. pose proof (Z.log2_nonneg (Zpos d)) as Hb.
  unfold ilog2. cbn [Qnum Qden].
  set (a := Z.log2 n) in *. set (b := Z.log2 (Zpos d)) in *.
  set (x := n # d) in *.
  assert (Hxd : x * inject_Z (Zpos d) == inject_Z n) by apply Qmake_times_den.
  rewrite Zle_Qle, <- pow2_Z in Hn1 by lia.
  rewrite Zlt_Qlt in Hn2. replace (Z.succ a) with (a + 1)%Z in Hn2 by lia.
  rewrite <- pow2_Z in Hn2 by lia.
  rewrite Zle_Qle, <- pow2_Z in Hd1 by lia.
  rewrite Zlt_Qlt in Hd2. replace (Z.succ b) with (b + 1)%Z in Hd2 by lia.
  rewrite <- pow2_Z in Hd2 by lia.
  assert (Hlo : pow2 (a - b - 1) < x).
  { pose proof (pow2_plus (a - b - 1) (b + 1)) as Hp.
    replace (a - b - 1 + (b + 1))%Z with a in Hp by lia.
    pose proof (pow2_pos (b + 1)). pose proof (pow2_pos (a - b - 1)).
    nra. }
  assert (Hhi : x < pow2 (a - b + 1)).
  { pose proof (pow2_plus (a - b + 1) b) as Hp.
    replace (a - b + 1 + b)%Z with (a + 1)%Z in Hp by lia.
    pose proof (pow2_pos b). pose proof (pow2_pos (a - b + 1)).
    nra. }
  destruct (Qlt_le_dec x (pow2 (a - b))) as [Hlt|Hge].
  - split; [apply Qlt_le_weak; exact Hlo|].
    replace (a - b - 1 + 1)%Z with (a - b)%Z by lia. exact Hlt.
  - split; [exact Hge|exact Hhi].
Qed.

Lemma ilog2_unique (x : Q) (k : Z) :
  pow2 k <= x -> x < pow2 (k + 1) -> ilog2 x = k.
Proof.
  intros H1 H2.
  assert (Hx : 0 < x) by (pose proof (pow2_pos k); lra).
  destruct (ilog2_spec x Hx) as [H3 H4].
  destruct (Z.lt_trichotomy (ilog2 x) k) as [Hlt|[Heq|Hgt]]; [|exact Heq|].
  - exfalso. pose proof (pow2_le (ilog2 x + 1) k ltac:(lia)). lra.
  - exfalso. pose proof (pow2_le (k + 1) (ilog2 x) ltac:(lia)). lra.
Qed.

Lemma ilog2_wd (x y : Q) : 0 < x -> x == y -> ilog2 x = ilog2 y.
Proof.
  intros Hx Heq. destruct (ilog2_spec x Hx) as [H1 H2].
  symmetry. apply ilog2_unique; rewrite <- Heq; assumption.
Qed.

Lemma ilog2_le (x y : Q) : 0 < x -> x <= y -> (ilog2 x <= ilog2 y)%Z.
Proof.
  intros Hx Hxy.
  destruct (ilog2_spec x Hx) as [H1 H2].
  destruct (ilog2_spec y ltac:(lra)) as [H3 H4].
  destruct (Z_le_gt_dec (ilog2 x) (ilog2 y)) as [Hle|Hgt]; [exact Hle|].
  exfalso. pose proof (pow2_le (ilog2 y + 1) (ilog2 x) ltac:(lia)). lra.
Qed.

(** rne *)

Lemma rne_cases (x : Q) :
  (x - inject_Z (Qfloor x) < 1 # 2 /\ rne x = Qfloor x)
  \/ (1 # 2 < x - inject_Z (Qfloor x) /\ rne x = (Qfloor x + 1)%Z)
  \/ (x - inject_Z (Qfloor x) == 1 # 2
      /\ rne x = if Z.even (Qfloor x) then Qfloor x else (Qfloor x + 1)%Z).
Proof.
  unfold rne. cbv zeta.
  destruct (Qcompare_spec (x - inject_Z (Qfloor x)) (1 # 2)) as [H|H|H].
  - right. right. split; [exact H|reflexivity].
  - left. split; [exact H|reflexivity].
  - right. left. split; [exact H|reflexivity].
Qed.

Lemma rne_bounds (x : Q) : (Qfloor x <= rne x <= Qfloor x + 1)%Z.
Proof.
  destruct (rne_cases x) as [[_ ->]|[[_ ->]|[_ ->]]]; try lia.
  destruct (Z.even (Qfloor x)); lia.
Qed.

Lemma rne_mono (x y : Q) : x <= y -> (rne x <= rne y)%Z.
Proof.
  intros Hxy. pose proof (Qfloor_resp_le x y Hxy) as Hf.
  pose proof (rne_bounds x). pose proof (rne_bounds y).
  destruct (Z.eq_dec (Qfloor x) (Qfloor y)) as [Heq|Hne]; [|lia].
  destruct (rne_cases x) as [[Hx ->]|[[Hx ->]|[Hx ->]]];
    destruct (rne_cases y) as [[Hy ->]|[[Hy ->]|[Hy ->]]];
    rewrite <- ?Heq in *; try lia; try lra;
    destruct (Z.even (Qfloor x)); try lia; lra.
Qed.

Lemma rne_Z (z : Z) : rne (inject_Z z) = z.
Proof.
  destruct (rne_cases (inject_Z z)) as [[_ H]|[[H _]|[H _]]];
    rewrite Qfloor_Z in *; [exact H|lra|lra].
Qed.

Lemma rne_wd (x y : Q) : x == y -> rne x = rne y.
Proof.
  intros Heq. unfold rne. cbv zeta.
  rewrite (Qfloor_comp _ _ Heq).
  assert (H : x - inject_Z (Qfloor y) == y - inject_Z (Qfloor y)) by (rewrite Heq; reflexivity).
  rewrite (Qcompare_comp _ _ H _ _ (Qeq_refl _)). reflexivity.
Qed.

Lemma Qfloor_opp_nonint (x : Q) :
  ~ x == inject_Z (Qfloor x) -> Qfloor (- x) = (- Qfloor x - 1)%Z.
Proof.
  intros Hni.
  pose proof (Qfloor_le x). pose proof (Qlt_floor x).
  pose proof (Qfloor_le (- x)). pose proof (Qlt_floor (- x)).
  assert (Hlt : inject_Z (Qfloor x) < x).
  { apply Qle_lteq in H. destruct H as [H|H]; [exact H|]. exfalso. apply Hni. symmetry. exact H. }
  rewrite inject_Z_plus in H0, H2. change (inject_Z 1) with 1 in *.
  assert (H3 : (Qfloor (- x) < - Qfloor x)%Z).
  { rewrite Zlt_Qlt, inject_Z_opp. lra. }
  assert (H4 : (- Qfloor x < Qfloor (- x) + 2)%Z).
  { rewrite Zlt_Qlt, inject_Z_plus, inject_Z_opp.
    change (inject_Z 2) with 2. lra. }
  lia.
Qed.

Lemma rne_opp (x : Q) : rne (- x) = (- rne x)%Z.
Proof.
  destruct (Qeq_dec x (inject_Z (Qfloor x))) as [Hint|Hni].
  - rewrite (rne_wd x _ Hint).
    assert (H : - x == inject_Z (- Qfloor x)) by (rewrite inject_Z_opp, <- Hint; reflexivity).
    rewrite (rne_wd _ _ H), !rne_Z. reflexivity.
  - pose proof (Qfloor_opp_nonint x Hni) as Hf.
    pose proof (Qfloor_le x). pose proof (Qlt_floor x).
    rewrite inject_Z_plus in H0. change (inject_Z 1) with 1 in *.
    assert (Hd : - x - inject_Z (Qfloor (- x)) == 1 - (x - inject_Z (Qfloor x))).
    { rewrite Hf. replace (- Qfloor x - 1)%Z with (- (Qfloor x + 1))%Z by lia.
      rewrite inject_Z_opp, inject_Z_plus. change (inject_Z 1) with 1. ring. }
    destruct (rne_cases x) as [[Hx ->]|[[Hx ->]|[Hx ->]]];
      destruct (rne_cases (- x)) as [[Hy ->]|[[Hy ->]|[Hy ->]]];
      rewrite Hd in Hy; rewrite ?Hf; try lia; try lra.
    replace (- Qfloor x - 1)%Z with (- (Qfloor x + 1))%Z by lia.
    rewrite Z.even_opp, Z.even_add. cbn.
    destruct (Z.even (Qfloor x)); cbn; lia.
Qed.

(** round64 *)

Lemma round64_eq (x : Q) :
  ~ x == 0 -> round64 x == inject_Z (rne (x / pow2 (qexp x))) * pow2 (qexp x).
Proof.
  intros Hx. unfold round64.
  destruct (Qeq_bool x 0) eqn:Hb; [apply Qeq_bool_eq in Hb; contradiction|].
  rewrite Qred_correct. reflexivity.
Qed.

Lemma round64_zero (x : Q) : x == 0 -> round64 x == 0.
Proof.
  intros Hx. unfold round64. apply Qeq_eq_bool in Hx. rewrite Hx. reflexivity.
Qed.

Lemma Qabs_pos_nz (x : Q) : ~ x == 0 -> 0 < Qabs x.
Proof.
  intros Hx. destruct (Qlt_le_dec x 0) as [Hneg|Hpos].
  - rewrite Qabs_neg by lra. lra.
  - rewrite Qabs_pos by exact Hpos.
    apply Qle_lteq in Hpos. destruct Hpos as [H|H]; [exact H|].
    exfalso. apply Hx. symmetry. exact H.
Qed.

Lemma qexp_wd (x y : Q) : ~ x == 0 -> x == y -> qexp x = qexp y.
Proof.
  intros Hx Heq. unfold qexp.
  rewrite (ilog2_wd (Qabs x) (Qabs y)); [reflexivity|apply Qabs_pos_nz; exact Hx|].
  rewrite Heq. reflexivity.
Qed.

Lemma round64_wd (x y : Q) : x == y -> round64 x == round64 y.
Proof.
  intros Heq. destruct (Qeq_dec x 0) as [Hz|Hnz].
  - rewrite (round64_zero x Hz), (round64_zero y); [reflexivity|rewrite <- Heq; exact Hz].
  - assert (Hny : ~ y == 0) by (rewrite <- Heq; exact Hnz).
    rewrite (round64_eq x Hnz), (round64_eq y Hny), (qexp_wd x y Hnz Heq).
    assert (H : x / pow2 (qexp y) == y / pow2 (qexp y)) by (rewrite Heq; reflexivity).
    rewrite (rne_wd _ _ H). reflexivity.
Qed.

Lemma round64_opp (x : Q) : round64 (- x) == - round64 x.
Proof.
  destruct (Qeq_dec x 0) as [Hz|Hnz].
  - rewrite (round64_zero x Hz), (round64_zero (- x)); [reflexivity|rewrite Hz; reflexivity].
  - assert (Hn : ~ - x == 0) by (intros H; apply Hnz; lra).
    rewrite (round64_eq x Hnz), (round64_eq (- x) Hn).
    assert (He : qexp (- x) = qexp x).
    { unfold qexp. rewrite (ilog2_wd (Qabs (- x)) (Qabs x)); [reflexivity| |apply Qabs_opp].
      apply Qabs_pos_nz. exact Hn. }
    rewrite He.
    assert (H : - x / pow2 (qexp x) == - (x / pow2 (qexp x))).
    { field. pose proof (pow2_pos (qexp x)). lra. }
    rewrite (rne_wd _ _ H), rne_opp, inject_Z_opp. ring.
Qed.

Lemma round64_nonneg (x : Q) : 0 <= x -> 0 <= round64 x.
Proof.
  intros Hx. destruct (Qeq_dec x 0) as [Hz|Hnz].
  - rewrite (round64_zero x Hz). lra.
  - rewrite (round64_eq x Hnz).
    pose proof (pow2_pos (qexp x)) as Hp.
    assert (H0 : 0 <= x / pow2 (qexp x)).
    { apply Qle_shift_div_l; [exact Hp|lra]. }
    pose proof (rne_mono _ _ H0) as Hr. change 0 with (inject_Z 0) in Hr at 1.
    rewrite rne_Z in Hr. rewrite Zle_Qle in Hr. change (inject_Z 0) with 0 in Hr.
    nra.
Qed.

Lemma round64_pos_mono (x y : Q) : 0 < x -> x <= y -> round64 x <= round64 y.
Proof.
  intros Hx Hxy.
  assert (Hnx : ~ x == 0) by lra. assert (Hny : ~ y == 0) by lra.
  rewrite (round64_eq x Hnx), (round64_eq y Hny).
  assert (Hax : Qabs x == x) by (apply Qabs_pos; lra).
  assert (Hay : Qabs y == y) by (apply Qabs_pos; lra).
  destruct (ilog2_spec (Qabs x) (Qabs_pos_nz x Hnx)) as [Hx1 Hx2].
  destruct (ilog2_spec (Qabs y) (Qabs_pos_nz y Hny)) as [Hy1 Hy2].
  assert (Hlog : (ilog2 (Qabs x) <= ilog2 (Qabs y))%Z).
  { apply ilog2_le; [apply Qabs_pos_nz; exact Hnx|lra]. }
  pose proof (pow2_pos (qexp x)) as Hpx. pose proof (pow2_pos (qexp y)) as Hpy.
  destruct (Z.eq_dec (qexp x) (qexp y)) as [Heq|Hne].
  - rewrite Heq.
    assert (Hdiv : x / pow2 (qexp y) <= y / pow2 (qexp y)).
    { apply Qmult_le_compat_r; [exact Hxy|]. apply Qlt_le_weak, Qinv_lt_0_compat. exact Hpy. }
    pose proof (rne_mono _ _ Hdiv) as Hr. rewrite Zle_Qle in Hr. nra.
  - assert (Hlt : (qexp x < qexp y)%Z) by (unfold qexp in *; lia).
    assert (Hey : qexp y = (ilog2 (Qabs y) - 52)%Z) by (unfold qexp in *; lia).
    assert (Hex : (ilog2 (Qabs x) + 1 <= qexp x + 53)%Z) by (unfold qexp; lia).
    (* upper bound for round64 x *)
    assert (Hux : x / pow2 (qexp x) <= inject_Z (2 ^ 53)).
    { apply Qle_shift_div_r; [exact Hpx|].
      rewrite <- pow2_Z by lia. rewrite <- pow2_plus.
      pose proof (pow2_le (ilog2 (Qabs x) + 1) (53 + qexp x) ltac:(lia)). lra. }
    pose proof (rne_mono _ _ Hux) as Hrx. rewrite rne_Z in Hrx.
    rewrite Zle_Qle in Hrx. rewrite <- pow2_Z in Hrx by lia.
    (* lower bound for round64 y *)
    assert (Hly : inject_Z (2 ^ 52) <= y / pow2 (qexp y)).
    { apply Qle_shift_div_l; [exact Hpy|].
      rewrite <- pow2_Z by lia. rewrite <- pow2_plus.
      replace (52 + qexp y)%Z with (ilog2 (Qabs y)) by lia. lra. }
    pose proof (rne_mono _ _ Hly) as Hry. rewrite rne_Z in Hry.
    rewrite Zle_Qle in Hry. rewrite <- pow2_Z in Hry by lia.
    pose proof (pow2_plus 53 (qexp x)) as Hp1.
    pose proof (pow2_plus 52 (qexp y)) as Hp2.
    pose proof (pow2_le (53 + qexp x) (52 + qexp y) ltac:(lia)) as Hp3.
    pose proof (pow2_pos 53). pose proof (pow2_pos 52).
    apply Qle_trans with (pow2 53 * pow2 (qexp x)); [nra|].
    apply Qle_trans with (pow2 52 * pow2 (qexp y)); [lra|nra].
Qed.

Lemma round64_mono (x y : Q) : x <= y -> round64 x <= round64 y.
Proof.
  intros Hxy.
  destruct (Qlt_le_dec 0 x) as [Hx|Hx]; [apply round64_pos_mono; assumption|].
  assert (Hrx : round64 x <= 0).
  { pose proof (round64_nonneg (- x) ltac:(lra)) as H. rewrite round64_opp in H. lra. }
  destruct (Qlt_le_dec y 0) as [Hy|Hy].
  - pose proof (round64_pos_mono (- y) (- x) ltac:(lra) ltac:(lra)) as H.
    rewrite !round64_opp in H. lra.
  - pose proof (round64_nonneg y Hy). lra.
Qed.

Lemma pow2_neg_Z (k : Z) : (k <= 0)%Z -> pow2 k * inject_Z (2 ^ (- k)) == 1.
Proof.
  intros Hk. rewrite <- pow2_Z by lia. rewrite <- pow2_plus.
  replace (k + - k)%Z with 0%Z by lia. reflexivity.
Qed.

Lemma round64_int (z : Z) : (Z.abs z < 2 ^ 53)%Z -> round64 (inject_Z z) == inject_Z z.
Proof.
  intros Hz. destruct (Z.eq_dec z 0%Z) as [->|Hnz]; [reflexivity|].
  assert (Hq : ~ inject_Z z == 0).
  { intros H. apply Hnz. apply (proj1 (inject_Z_injective z 0)). exact H. }
  rewrite (round64_eq _ Hq).
  set (e := qexp (inject_Z z)).
  assert (He : (e <= 0)%Z).
  { unfold e, qexp.
    destruct (ilog2_spec (Qabs (inject_Z z)) (Qabs_pos_nz _ Hq)) as [H1 _].
    assert (Habs : Qabs (inject_Z z) == inject_Z (Z.abs z)) by reflexivity.
    assert (Hlt : inject_Z (Z.abs z) < pow2 53).
    { rewrite pow2_Z by lia. rewrite <- Zlt_Qlt. exact Hz. }
    assert (Hl : (ilog2 (Qabs (inject_Z z)) < 53)%Z).
    { destruct (Z_lt_ge_dec (ilog2 (Qabs (inject_Z z))) 53) as [H|H]; [exact H|].
      exfalso. pose proof (pow2_le 53 (ilog2 (Qabs (inject_Z z))) ltac:(lia)). lra. }
    lia. }
  pose proof (pow2_neg_Z e He) as Hinv. pose proof (pow2_pos e) as Hp.
  assert (Hdiv : inject_Z z / pow2 e == inject_Z (z * 2 ^ (- e))).
  { rewrite inject_Z_mult. field_simplify_eq; [|lra]. nra. }
  rewrite (rne_wd _ _ Hdiv), rne_Z, inject_Z_mult. nra.
Qed.

Lemma round64_rounding : rounding round64.
Proof.
  split; [exact round64_wd|]. split; [exact round64_mono|exact round64_int].
Qed.

(** ** The knob in double arithmetic *)

Section DoubleFacts.

Variable rnd : Q -> Q.
Hypothesis Hrnd : rounding rnd.

Lemma rnd_between (a b : Z) (x : Q) :
  (Z.abs a < 2 ^ 53)%Z -> (Z.abs b < 2 ^ 53)%Z ->
  inject_Z a <= x -> x <= inject_Z b ->
  inject_Z a <= rnd x /\ rnd x <= inject_Z b.
Proof.
  destruct Hrnd as (_ & Hmono & Hint). intros Ha Hb H1 H2.
  split.
  - apply Qle_trans with (rnd (inject_Z a)); [|apply Hmono; exact H1].
    rewrite (Hint a Ha). apply Qle_refl.
  - apply Qle_trans with (rnd (inject_Z b)); [apply Hmono; exact H2|].
    rewrite (Hint b Hb). apply Qle_refl.
Qed.

Lemma normalizeDegrees_double_bounds (n : Q) :
  0 <= Double.normalizeDegrees rnd (Num n) /\ Double.normalizeDegrees rnd (Num n) <= 360.
Proof.
  unfold Double.normalizeDegrees.
  pose proof (jsrem_360_bounds n) as [Hlo Hhi].
  destruct (Qlt_le_dec (jsrem n 360) 0) as [Hneg|Hpos]; [|split; lra].
  apply (rnd_between 0 360); [reflexivity|reflexivity|unfold inject_Z; lra|unfold inject_Z; lra].
Qed.

Lemma knobDelta_double_bound (t l : Q) :
  0 <= t -> t <= 360 -> 0 <= l -> l <= 360 ->
  Qabs (Double.knobDelta rnd t l) <= 180.
Proof.
  intros Ht0 Ht1 Hl0 Hl1. unfold Double.knobDelta.
  destruct (rnd_between (-360) 360 (t - l)) as [H1 H2];
    [reflexivity|reflexivity|unfold inject_Z; lra|unfold inject_Z; lra|].
  change (inject_Z (-360)) with (-360) in H1. change (inject_Z 360) with 360 in H2.
  destruct (Qlt_le_dec 180 (rnd (t - l))) as [Hbig|Hsmall].
  - destruct (rnd_between (-180) 0 (rnd (t - l) - 360)) as [H3 H4];
      [reflexivity|reflexivity|unfold inject_Z; lra|unfold inject_Z; lra|].
    change (inject_Z (-180)) with (-180) in H3. change (inject_Z 0) with 0 in H4.
    destruct (Qlt_le_dec (rnd (rnd (t - l) - 360)) (-180)) as [Hlt|Hge]; [lra|].
    apply Qabs_Qle_condition. split; lra.
  - destruct (Qlt_le_dec (rnd (t - l)) (-180)) as [Hlt|Hge].
    + destruct (rnd_between 0 180 (rnd (t - l) + 360)) as [H3 H4];
        [reflexivity|reflexivity|unfold inject_Z; lra|unfold inject_Z; lra|].
      change (inject_Z 0) with 0 in H3. change (inject_Z 180) with 180 in H4.
      apply Qabs_Qle_condition. split; lra.
    + apply Qabs_Qle_condition. split; lra.
Qed.

Lemma setKnobPosition_double_visual (env : Env) (t : Q) (s : AppState) :
  dom_knob env = true ->
  visualAngle (wheel (Double.setKnobPosition rnd env t s))
  = Some (rnd (match visualAngle (wheel s) with Some v => v | None => t end
               + Double.knobDelta rnd
                   (Double.normalizeDegrees rnd (Num t))
                   (Double.normalizeDegrees rnd
                      (Num match visualAngle (wheel s) with Some v => v | None => t end)))).
Proof.
  intros Hk. unfold Double.setKnobPosition. rewrite Hk. reflexivity.
Qed.

Lemma setKnobPosition_double_step (env : Env) (t : Q) (s : AppState) :
  Double.knobStep rnd (visualAngle (wheel s))
    (visualAngle (wheel (Double.setKnobPosition rnd env t s))).
Proof.
  destruct (dom_knob env) eqn:Hk.
  - rewrite (setKnobPosition_double_visual env t s Hk).
    destruct (visualAngle (wheel s)) as [v|]; [|exact I].
    cbn [Double.knobStep]. right. eexists. split; [|reflexivity].
    destruct (normalizeDegrees_double_bounds t). destruct (normalizeDegrees_double_bounds v).
    apply knobDelta_double_bound; assumption.
  - unfold Double.setKnobPosition. rewrite Hk. cbn [negb].
    destruct (visualAngle (wheel s)); [left; reflexivity|exact I].
Qed.

Lemma visualTrace_double_chain (env : Env) (targets : list Q) :
  forall s, chain (Double.knobStep rnd) (Double.visualTrace rnd env s targets).
Proof.
  induction targets as [|t ts IH]; intros s; [exact I|].
  cbn [Double.visualTrace].
  specialize (IH (Double.setKnobPosition rnd env t s)).
  destruct ts as [|t' ts'].
  - cbn. split; [apply setKnobPosition_double_step|exact I].
  - cbn [Double.visualTrace chain] in *. split; [apply setKnobPosition_double_step|exact IH].
Qed.

Lemma knobStep_exact (a b : option Q) :
  (forall x, rnd x == x) -> Double.knobStep rnd a b -> continuous_step a b.
Proof.
  intros Hex. destruct a as [x|], b as [y|];
    cbn [Double.knobStep continuous_step]; try tauto.
  intros [->|(d & Hd & ->)].
  - assert (H0 : x - x == 0) by ring. rewrite (Qabs_wd _ _ H0).
    change (Qabs 0) with 0. lra.
  - assert (H0 : rnd (x + d) - x == d) by (rewrite Hex; ring).
    rewrite (Qabs_wd _ _ H0). exact Hd.
Qed.

Lemma chain_impl {A : Type} (R R' : A -> A -> Prop) (l : list A) :
  (forall a b, R a b -> R' a b) -> chain R l -> chain R' l.
Proof.
  intros HR. induction l as [|x [|y tl] IH]; cbn; try tauto.
  intros [H1 H2]. split; [apply HR; exact H1|apply IH; exact H2].
Qed.

End DoubleFacts.

(** C5 (as the code has it).  Every call of [setKnobPosition] with the
    knob present adds to the last visual angle [v] a signed step [d] of
    absolute value at most 180, the difference between the normalised
    target and the normalised [v] brought back into [[-180,180]], and
    stores the double nearest to [v + d].  So consecutive visual angles
    differ by at most 180 plus the rounding error of that one addition,
    whatever the targets and the initial angle; they differ by at most
    180 wherever the arithmetic is exact. *)
Theorem setKnobPosition_double_continuity (rnd : Q -> Q) (env : Env) (s : AppState)
    (targets : list Q) :
  rounding rnd ->
  chain (Double.knobStep rnd) (Double.visualTrace rnd env s targets)
  /\ (forall v t,
         dom_knob env = true -> visualAngle (wheel s) = Some v ->
         let d := Double.knobDelta rnd (Double.normalizeDegrees rnd (Num t))
                    (Double.normalizeDegrees rnd (Num v)) in
         visualAngle (wheel (Double.setKnobPosition rnd env t s)) = Some (rnd (v + d))
         /\ Qabs d <= 180
         /\ Qabs (rnd (v + d) - v) <= 180 + Qabs (rnd (v + d) - (v + d)))
  /\ ((forall x, rnd x == x) ->
      chain continuous_step (Double.visualTrace rnd env s targets)).
Proof.
  intros Hrnd. split; [apply visualTrace_double_chain; exact Hrnd|]. split.
  - intros v t Hk Hv d.
    assert (Hd : Qabs d <= 180).
    { destruct (normalizeDegrees_double_bounds rnd Hrnd t).
      destruct (normalizeDegrees_double_bounds rnd Hrnd v).
      apply knobDelta_double_bound; assumption. }
    split; [|split; [exact Hd|]].
    + rewrite (setKnobPosition_double_visual rnd env t s Hk), Hv. reflexivity.
    + assert (Heq : rnd (v + d) - v == d + (rnd (v + d) - (v + d))) by ring.
      rewrite (Qabs_wd _ _ Heq).
      eapply Qle_trans; [apply Qabs_triangle|]. lra.
  - intros Hex. eapply chain_impl; [|apply visualTrace_double_chain; exact Hrnd].
    intros a b. apply knobStep_exact. exact Hex.
Qed.

Lemma setKnobPosition_double_continuity_witness :
  chain (Double.knobStep round64)
    (Double.visualTrace round64 (Samples.envOf Samples.linearDeck)
       (Samples.stateAt "A" [] ∅ 0 false) [350%Q; 10%Q; 200%Q]).
Proof.
  refine (proj1 (setKnobPosition_double_continuity round64 (Samples.envOf Samples.linearDeck)
                   (Samples.stateAt "A" [] ∅ 0 false) [350%Q; 10%Q; 200%Q] _)).
  exact round64_rounding.
Defined.

(** C5, as stated, fails by a rounding error.  From the visual angle 330
    the targets 0.2 and 180.2, both in [[0,360)], give the visual angles
    360.2 and 540.2 as doubles, and these two are more than 180 apart. *)
Lemma double_rounding_breaks_continuity :
  Forall (fun t => 0 <= t /\ t < 360) [round64 (2 # 10); round64 (1802 # 10)]
  /\ (exists x y,
         Double.visualTrace round64 (Samples.envOf Samples.linearDeck)
           (Samples.stateAt "A" [] ∅ 0 false) [round64 (2 # 10); round64 (1802 # 10)]
         = [Some 330; Some x; Some y]
         /\ 180 < y - x)
  /\ ~ chain continuous_step
         (Double.visualTrace round64 (Samples.envOf Samples.linearDeck)
            (Samples.stateAt "A" [] ∅ 0 false) [round64 (2 # 10); round64 (1802 # 10)]).
Proof.
  split; [|split].
  - repeat constructor; vm_compute; first [reflexivity|discriminate].
  - eexists _, _. split; [vm_compute; reflexivity|]. vm_compute. reflexivity.
  - vm_compute. intros (_ & H & _). apply H. reflexivity.
Qed.

Open Scope Q_scope.

(** ** The deck map *)

Lemma rebuildDeckMap_acc_id (cards : list Card) :
  forall m : gmap string Card,
    (forall k c, m !! k = Some c -> id c = k) ->
    forall k c, foldl (fun m card => <[id card := card]> m) m cards !! k = Some c -> id c = k.
Proof.
  induction cards as [|card cards IH]; intros m Hm k c; cbn [foldl].
  - apply Hm.
  - apply IH. intros k' c' Hl.
    destruct (decide (id card = k')) as [<-|Hne].
    + rewrite lookup_insert_eq in Hl. congruence.
    + rewrite lookup_insert_ne in Hl by assumption. eapply Hm; eassumption.
Qed.

Lemma DECK_lookup_id (env : Env) (k : string) (c : Card) :
  DECK env !! k = Some c -> id c = k.
Proof.
  unfold DECK, rebuildDeckMap. apply rebuildDeckMap_acc_id.
  intros k' c' Hl. rewrite lookup_empty in Hl. discriminate.
Qed.

Lemma rebuildDeckMap_acc_elem (cards : list Card) :
  forall m : gmap string Card,
    forall k c, foldl (fun m card => <[id card := card]> m) m cards !! k = Some c ->
                m !! k = Some c \/ c ∈ cards.
Proof.
  induction cards as [|card cards IH]; intros m k c; cbn [foldl].
  - intros Hl. left. exact Hl.
  - intros Hl. apply IH in Hl as [Hl|Hin].
    + destruct (decide (id card = k)) as [<-|Hne].
      * rewrite lookup_insert_eq in Hl. injection Hl as <-. right. apply list_elem_of_here.
      * rewrite lookup_insert_ne in Hl by assumption. left. exact Hl.
    + right. apply list_elem_of_further. exact Hin.
Qed.

Lemma DECK_lookup_elem (env : Env) (k : string) (c : Card) :
  DECK env !! k = Some c -> c ∈ deck (RUNTIME_ALGORITHM env).
Proof.
  unfold DECK, rebuildDeckMap. intros Hl.
  apply rebuildDeckMap_acc_elem in Hl as [Hl|Hin]; [|exact Hin].
  rewrite lookup_empty in Hl. discriminate.
Qed.

Lemma rebuildDeckMap_acc_dom (cards : list Card) :
  forall (m : gmap string Card) (k : string),
    is_Some (m !! k) ->
    is_Some (foldl (fun m card => <[id card := card]> m) m cards !! k).
Proof.
  induction cards as [|card cards IH]; intros m k Hk; cbn [foldl]; [exact Hk|].
  apply IH. rewrite lookup_insert_is_Some. destruct (decide (id card = k)); auto.
Qed.

Lemma DECK_start_known (env : Env) (c0 : Card) (rest : list Card) :
  deck (RUNTIME_ALGORITHM env) = c0 :: rest -> is_Some (DECK env !! id c0).
Proof.
  intros Hdeck. unfold DECK, rebuildDeckMap. rewrite Hdeck. cbn [foldl].
  apply rebuildDeckMap_acc_dom. rewrite lookup_insert_eq. eauto.
Qed.

Lemma truthy_true (x : string) : truthy x = true <-> x <> "".
Proof.
  unfold truthy. destruct (String.eqb_spec x ""); cbn; split; congruence.
Qed.

Lemma loadedDeck_truthy (env : Env) (k : string) (c : Card) :
  loadedDeck env -> DECK env !! k = Some c -> truthy k = true.
Proof.
  intros Hld Hl. pose proof (DECK_lookup_id env k c Hl) as <-.
  apply DECK_lookup_elem in Hl.
  unfold loadedDeck in Hld. rewrite Forall_forall in Hld. apply Hld. exact Hl.
Qed.

(** ** What [render] leaves alone *)

Ltac render_frame :=
  intros; unfold render, setKnobPosition, syncAnchors;
  repeat match goal with
         | |- context [match ?x with _ => _ end] => destruct x
         end; reflexivity.

Lemma render_currentId env s : currentId (render env s) = currentId s.
Proof. render_frame. Qed.
Lemma render_history env s : history (render env s) = history s.
Proof. render_frame. Qed.
Lemma render_decisionIndex env s : decisionIndex (render env s) = decisionIndex s.
Proof. render_frame. Qed.
Lemma render_decisionRecords env s : decisionRecords (render env s) = decisionRecords s.
Proof. render_frame. Qed.
Lemma render_decisionTrail env s : decisionTrail (render env s) = decisionTrail s.
Proof. render_frame. Qed.
Lemma render_decisionTapped env s : decisionTapped (render env s) = decisionTapped s.
Proof. render_frame. Qed.
Lemma render_carouselIndex env s : carouselIndex (render env s) = carouselIndex s.
Proof. render_frame. Qed.
Lemma render_timerSeconds env s : timerSeconds (render env s) = timerSeconds s.
Proof. render_frame. Qed.
Lemma render_timerRunning env s : timerRunning (render env s) = timerRunning s.
Proof. render_frame. Qed.
Lemma render_timerInterval env s : timerInterval (render env s) = timerInterval s.
Proof. render_frame. Qed.
Lemma render_checklistState env s : checklistState (render env s) = checklistState s.
Proof. render_frame. Qed.

Create Rewrite HintDb render_frame.
#[local] Hint Rewrite render_currentId render_history render_decisionIndex
  render_decisionRecords render_decisionTrail render_decisionTapped
  render_carouselIndex render_timerSeconds render_timerRunning
  render_timerInterval render_checklistState : render_frame.

(** ** The decision guard *)

Open Scope Z_scope.

Lemma advance_split_unconfirmed (env : Env) (s : AppState) (card : Card)
    (options : AdvanceOptions) :
  DECK env !! currentId s = Some card ->
  isSplitDecisionCard (Some card) = true ->
  splitConfirmed options = false ->
  (if truthy (opt_source options) then opt_source options else "ui") <> "automation" ->
  advance env options s = (false, s).
Proof.
  intros Hcard Hsplit Hconf Hsrc. unfold advance. rewrite Hcard, Hconf.
  apply String.eqb_neq in Hsrc. rewrite Hsrc. cbn [orb negb].
  destruct (String.eqb (status card) "complete"); [reflexivity|].
  unfold isSplitDecisionCard in Hsplit.
  destruct (transitions card) as [[nx|opts|nx|]|]; try discriminate.
  destruct (Z.of_nat (length opts) =? 0); reflexivity.
Qed.

(** C1. On a state whose current card is a split-decision card, [advance]
    called with source ['ui'] and without [splitConfirmed] returns [false]
    and leaves [currentId], [decisionRecords] and [decisionTrail] as they
    were (in fact the whole state). *)
Theorem advance_decision_guard (env : Env) (s : AppState) (card : Card)
    (options : AdvanceOptions) :
  DECK env !! currentId s = Some card ->
  isSplitDecisionCard (Some card) = true ->
  opt_source options = "ui" ->
  splitConfirmed options = false ->
  fst (advance env options s) = false
  /\ currentId (snd (advance env options s)) = currentId s
  /\ decisionRecords (snd (advance env options s)) = decisionRecords s
  /\ decisionTrail (snd (advance env options s)) = decisionTrail s
  /\ snd (advance env options s) = s.
Proof.
  intros Hcard Hsplit Hsrc Hconf.
  rewrite (advance_split_unconfirmed env s card options Hcard Hsplit Hconf).
  - repeat split.
  - rewrite Hsrc. cbn. discriminate.
Qed.

(** ** Self loops *)

(** C9. When the current card has a [self_loop] transition whose [next_id]
    is the card's own id and its status is not ['complete'], [advance]
    returns [true] although the card does not change: [currentId] and
    [history] are as before, [decisionTapped] and [carouselIndex] (and
    [decisionIndex]) are back at their defaults, the elapsed seconds are
    untouched, and the timer is running afterwards exactly when it was
    running before or this call was due to start it.  The deck is one the
    loader produces (no card has an empty id). *)
Theorem advance_self_loop (env : Env) (s : AppState) (card : Card)
    (options : AdvanceOptions) :
  loadedDeck env ->
  DECK env !! currentId s = Some card ->
  transitions card = Some (TSelfLoop (id card)) ->
  status card <> "complete" ->
  let autoStartCard := auto_start_on_card (algorithm_meta (RUNTIME_ALGORITHM env)) in
  let shouldStartTimer :=
    (negb (truthy autoStartCard) || String.eqb (currentId s) autoStartCard)%bool in
  fst (advance env options s) = true
  /\ currentId (snd (advance env options s)) = currentId s
  /\ history (snd (advance env options s)) = history s
  /\ decisionTapped (snd (advance env options s)) = false
  /\ carouselIndex (snd (advance env options s)) = 0
  /\ decisionIndex (snd (advance env options s)) = 0
  /\ timerSeconds (snd (advance env options s)) = timerSeconds s
  /\ timerRunning (snd (advance env options s)) = (timerRunning s || shouldStartTimer)%bool.
Proof.
  intros Hld Hcard Htr Hst auto_ should. subst auto_ should.
  pose proof (DECK_lookup_id env _ _ Hcard) as Hid.
  pose proof (loadedDeck_truthy env _ _ Hld Hcard) as Htruthy.
  unfold advance. rewrite Hcard, Htr.
  apply String.eqb_neq in Hst. rewrite Hst.
  rewrite Hid, Htruthy, Hcard. rewrite String.eqb_refl.
  cbv beta iota. rewrite Htruthy.
  unfold isSplitDecisionCard. rewrite Htr.
  cbn [fst snd].
  autorewrite with render_frame.
  destruct (timerRunning s) eqn:Hrun;
    destruct (negb (truthy (auto_start_on_card (algorithm_meta (RUNTIME_ALGORITHM env))))
              || String.eqb (currentId s)
                   (auto_start_on_card (algorithm_meta (RUNTIME_ALGORITHM env))))%bool;
    cbn; rewrite ?Hrun; cbn; rewrite ?Hrun; repeat split; reflexivity.
Qed.

(** ** Automation: selecting an option *)

(** C10. On a split-decision card the automation call
    [selectDecisionOption] reports no error whatever number it is given,
    finite or not: it answers [ok: true] with no error, stores the index
    clamped by [normalizeDecisionIndexForCard] (hence within the options)
    in [decisionIndex], and sets [decisionTapped]. *)
Theorem selectDecisionOption_clamps (env : Env) (s : AppState) (card : Card)
    (index : jsnum) :
  DECK env !! currentId s = Some card ->
  isSplitDecisionCard (Some card) = true ->
  ok (fst (Automation.selectDecisionOption env index s)) = true
  /\ error (fst (Automation.selectDecisionOption env index s)) = None
  /\ decisionIndex (snd (Automation.selectDecisionOption env index s))
     = normalizeDecisionIndexForCard (Some card) index
  /\ 0 <= decisionIndex (snd (Automation.selectDecisionOption env index s))
       <= optionCount card - 1
  /\ decisionTapped (snd (Automation.selectDecisionOption env index s)) = true.
Proof.
  intros Hcard Hsplit.
  pose proof (normalize_split_range card index Hsplit) as Hrange.
  unfold Automation.selectDecisionOption. rewrite Hcard.
  unfold isSplitDecisionCard in Hsplit.
  destruct (transitions card) as [[nx|opts|nx|]|] eqn:Htr; try discriminate.
  cbn [fst snd ok error]. autorewrite with render_frame. cbn.
  repeat split; try reflexivity; apply Hrange.
Qed.

(** ** The two outcomes of [advance] *)

(** What a refused [advance] leaves alone: everything except, possibly,
    the decision record and the trail. *)
Definition advance_refused (s s' : AppState) : Prop :=
  currentId s' = currentId s
  /\ history s' = history s
  /\ decisionIndex s' = decisionIndex s
  /\ decisionTapped s' = decisionTapped s
  /\ carouselIndex s' = carouselIndex s
  /\ timerSeconds s' = timerSeconds s
  /\ timerRunning s' = timerRunning s
  /\ checklistState s' = checklistState s.

Definition advance_moved (env : Env) (s s' : AppState) : Prop :=
  exists (nextId : string) (nextCard : Card),
    truthy nextId = true
    /\ DECK env !! nextId = Some nextCard
    /\ currentId s' = nextId
    /\ history s' = (if String.eqb nextId (currentId s) then history s
                     else history s ++ [currentId s])
    /\ (isSplitDecisionCard (Some nextCard) = false -> decisionIndex s' = 0)
    /\ decisionTapped s' = false
    /\ carouselIndex s' = 0
    /\ timerSeconds s' = timerSeconds s
    /\ (timerRunning s = true -> timerRunning s' = true)
    /\ checklistState s' = checklistState s.

Lemma advance_commit_moved (env : Env) (s0 s : AppState) (nextId : string) (nextCard : Card) :
  currentId s = currentId s0 -> history s = history s0 ->
  timerSeconds s = timerSeconds s0 -> timerRunning s = timerRunning s0 ->
  checklistState s = checklistState s0 ->
  truthy nextId = true -> DECK env !! nextId = Some nextCard ->
  forall s1,
    s1 = (let s := if String.eqb nextId (currentId s) then s
                   else set_history (history s ++ [currentId s]) s in
          let s := set_currentId nextId s in
          let s := if isSplitDecisionCard (Some nextCard)
                   then set_decisionIndex (rememberedDecisionIndexForCard s nextCard) s
                   else set_decisionIndex 0 s in
          let s := set_decisionTapped false s in
          let s := set_carouselIndex 0 s in
          let autoStartCard := auto_start_on_card (algorithm_meta (RUNTIME_ALGORITHM env)) in
          let shouldStartTimer :=
            (negb (truthy autoStartCard) || String.eqb nextId autoStartCard)%bool in
          let s := if (negb (timerRunning s) && shouldStartTimer)%bool
                   then startTimer s else s in
          render env s) ->
    advance_moved env s0 s1.
Proof.
  intros Hc Hh Hts Htr Hck Htruthy Hnext s1 ->.
  exists nextId, nextCard. cbv zeta. autorewrite with render_frame.
  rewrite <- Hc, <- Hh, <- Hts, <- Htr, <- Hck.
  destruct (String.eqb nextId (currentId s));
    destruct (isSplitDecisionCard (Some nextCard));
    destruct (timerRunning s) eqn:Hrun;
    destruct (negb (truthy (auto_start_on_card (algorithm_meta (RUNTIME_ALGORITHM env))))
              || String.eqb nextId (auto_start_on_card (algorithm_meta (RUNTIME_ALGORITHM env))))%bool;
    cbn; rewrite ?Hrun; cbn; rewrite ?Hrun;
    repeat split; try reflexivity; try assumption; try discriminate.
Qed.

Lemma advance_outcome (env : Env) (options : AdvanceOptions) (s : AppState) :
  (fst (advance env options s) = false /\ advance_refused s (snd (advance env options s)))
  \/ (fst (advance env options s) = true /\ advance_moved env s (snd (advance env options s))).
Proof.
  assert (Hrefl : advance_refused s s) by (repeat split).
  unfold advance.
  destruct (DECK env !! currentId s) as [card|]; [|left; split; [reflexivity|exact Hrefl]].
  destruct (String.eqb (status card) "complete"); [left; split; [reflexivity|exact Hrefl]|].
  destruct (transitions card) as [[nx|opts|nx|]|]; try (left; split; [reflexivity|exact Hrefl]).
  - destruct (truthy nx) eqn:Hnx; [|left; split; [reflexivity|exact Hrefl]].
    destruct (DECK env !! nx) as [nextCard|] eqn:Hnext; [|left; split; [reflexivity|exact Hrefl]].
    right. split; [reflexivity|]. cbn [snd].
    eapply (advance_commit_moved env s s nx nextCard); try reflexivity; assumption.
  - destruct (Z.of_nat (length opts) =? 0); [left; split; [reflexivity|exact Hrefl]|].
    destruct (negb _); [left; split; [reflexivity|exact Hrefl]|].
    match goal with
    | |- context [if truthy ?n then DECK env !! ?n else None] =>
        destruct (truthy n) eqn:Hnx;
        [destruct (DECK env !! n) as [nextCard|] eqn:Hnext|]
    end.
    + right. split; [reflexivity|]. cbn [snd].
      eapply (advance_commit_moved env s _ _ nextCard); [..|eassumption|reflexivity];
        try reflexivity; assumption.
    + left. split; [reflexivity|]. repeat split.
    + left. split; [reflexivity|]. repeat split.
  - match goal with
    | |- context [if truthy ?n then DECK env !! ?n else None] =>
        destruct (truthy n) eqn:Hnx;
        [destruct (DECK env !! n) as [nextCard|] eqn:Hnext|]
    end; try (left; split; [reflexivity|exact Hrefl]).
    right. split; [reflexivity|]. cbn [snd].
    eapply (advance_commit_moved env s s _ nextCard); try reflexivity; assumption.
Qed.

Lemma rewind_outcome (env : Env) (s : AppState) :
  (history s = [] /\ rewind env s = (false, s))
  \/ (exists prevId,
         history s = removelast (history s) ++ [prevId]
         /\ fst (rewind env s) = true
         /\ currentId (snd (rewind env s)) = prevId
         /\ history (snd (rewind env s)) = removelast (history s)
         /\ (isSplitDecisionCard (DECK env !! prevId) = false ->
             decisionIndex (snd (rewind env s)) = 0)
         /\ timerSeconds (snd (rewind env s)) = timerSeconds s
         /\ timerRunning (snd (rewind env s)) = timerRunning s
         /\ checklistState (snd (rewind env s)) = checklistState s
         /\ decisionRecords (snd (rewind env s)) = decisionRecords s
         /\ decisionTrail (snd (rewind env s)) = decisionTrail s).
Proof.
  unfold rewind.
  destruct (last (history s)) as [prevId|] eqn:Hlast.
  - right. exists prevId.
    assert (Hh : history s = removelast (history s) ++ [prevId]).
    { apply last_Some in Hlast as [l' Hl']. rewrite Hl'.
      rewrite removelast_last. reflexivity. }
    split; [exact Hh|].
    cbn [fst snd]. autorewrite with render_frame.
    destruct (DECK env !! prevId) as [c|]; [destruct (isSplitDecisionCard (Some c))|];
      cbn; repeat split; try reflexivity; try discriminate.
  - left. apply last_None in Hlast. split; [exact Hlast|reflexivity].
Qed.

(** ** The elapsed-time clock under navigation *)

Lemma setCurrentCard_known (env : Env) (cardId : string) (card : Card) (s : AppState) :
  DECK env !! cardId = Some card ->
  ok (fst (setCurrentCardForAutomation env cardId s)) = true
  /\ timerSeconds (snd (setCurrentCardForAutomation env cardId s)) = 0
  /\ timerRunning (snd (setCurrentCardForAutomation env cardId s)) = false
  /\ currentId (snd (setCurrentCardForAutomation env cardId s)) = cardId
  /\ history (snd (setCurrentCardForAutomation env cardId s)) = []
  /\ (isSplitDecisionCard (Some card) = false ->
      decisionIndex (snd (setCurrentCardForAutomation env cardId s)) = 0).
Proof.
  intros Hcard. pose proof (DECK_lookup_id env _ _ Hcard) as Hid.
  unfold setCurrentCardForAutomation. rewrite Hcard.
  cbn [fst snd ok]. autorewrite with render_frame.
  destruct (isSplitDecisionCard (Some card)); cbn;
    repeat split; try reflexivity; try assumption; try discriminate.
Qed.

Lemma setCurrentCard_unknown (env : Env) (cardId : string) (s : AppState) :
  DECK env !! cardId = None ->
  ok (fst (setCurrentCardForAutomation env cardId s)) = false
  /\ snd (setCurrentCardForAutomation env cardId s) = s.
Proof.
  intros Hcard. unfold setCurrentCardForAutomation. rewrite Hcard. split; reflexivity.
Qed.

(** C8 (as the code has it).  [advance] and [rewind] never put the elapsed
    seconds back to 0 nor stop a running clock.  The automation calls
    [gotoCard] and [reset] are different: when they find their card (for
    [reset], the first card of a loaded, non-empty deck) they stop the
    clock and put the seconds back to 0. *)
Theorem navigation_and_the_clock (env : Env) (s : AppState)
    (options : AdvanceOptions) (cardId : string) :
  (timerSeconds (snd (advance env options s)) = timerSeconds s
   /\ (timerRunning s = true -> timerRunning (snd (advance env options s)) = true))
  /\ (timerSeconds (snd (rewind env s)) = timerSeconds s
      /\ timerRunning (snd (rewind env s)) = timerRunning s)
  /\ (is_Some (DECK env !! cardId) ->
      timerSeconds (snd (Automation.gotoCard env cardId s)) = 0
      /\ timerRunning (snd (Automation.gotoCard env cardId s)) = false)
  /\ (loadedDeck env -> deck (RUNTIME_ALGORITHM env) <> [] ->
      timerSeconds (snd (Automation.reset env s)) = 0
      /\ timerRunning (snd (Automation.reset env s)) = false).
Proof.
  split; [|split; [|split]].
  - destruct (advance_outcome env options s) as [[_ Hr]|[_ Hm]].
    + destruct Hr as (_ & _ & _ & _ & _ & Hs & Hrun & _).
      split; [exact Hs|]. intros H. rewrite Hrun. exact H.
    + destruct Hm as (n & c & _ & _ & _ & _ & _ & _ & _ & Hs & Hrun & _).
      split; assumption.
  - destruct (rewind_outcome env s) as [[_ ->]|(p & _ & _ & _ & _ & _ & Hs & Hrun & _)].
    + split; reflexivity.
    + split; assumption.
  - intros [card Hcard]. unfold Automation.gotoCard.
    destruct (setCurrentCard_known env cardId card s Hcard) as (_ & Hs & Hrun & _).
    split; assumption.
  - intros Hld Hne. unfold Automation.reset, currentAlgorithmStartId.
    destruct (deck (RUNTIME_ALGORITHM env)) as [|c0 rest] eqn:Hdeck; [congruence|].
    destruct (DECK_start_known env c0 rest Hdeck) as [c1 Hc1].
    rewrite (loadedDeck_truthy env _ _ Hld Hc1).
    destruct (setCurrentCard_known env _ c1 s Hc1) as (_ & Hs & Hrun & _).
    split; assumption.
Qed.

Lemma navigation_and_the_clock_witness :
  timerRunning (snd (advance (Samples.envOf Samples.linearDeck)
                       {| opt_source := "ui"; splitConfirmed := false |}
                       (Samples.stateAt "A" [] ∅ 42 true))) = true
  /\ timerSeconds (snd (Automation.gotoCard (Samples.envOf Samples.linearDeck) "A"
                          (Samples.stateAt "B" ["A"] ∅ 42 true))) = 0
  /\ timerSeconds (snd (Automation.reset (Samples.envOf Samples.linearDeck)
                          (Samples.stateAt "B" ["A"] ∅ 42 true))) = 0.
Proof.
  split; [|split].
  - apply (proj2 (proj1 (navigation_and_the_clock (Samples.envOf Samples.linearDeck)
                           (Samples.stateAt "A" [] ∅ 42 true)
                           {| opt_source := "ui"; splitConfirmed := false |} "A"))).
    reflexivity.
  - apply (proj1 (proj2 (proj2 (navigation_and_the_clock (Samples.envOf Samples.linearDeck)
                                  (Samples.stateAt "B" ["A"] ∅ 42 true)
                                  {| opt_source := "ui"; splitConfirmed := false |} "A")))).
    vm_compute. eauto.
  - apply (proj2 (proj2 (proj2
             (navigation_and_the_clock (Samples.envOf Samples.linearDeck)
                (Samples.stateAt "B" ["A"] ∅ 42 true)
                {| opt_source := "ui"; splitConfirmed := false |} "A")))).
    + repeat constructor.
    + discriminate.
Defined.

(** C8, as stated, fails: with the clock running at 42 seconds, the
    automation calls [gotoCard] and [reset] put it back to 0 and stop
    it. *)
Lemma gotoCard_resets_the_clock :
  timerRunning (Samples.stateAt "B" ["A"] ∅ 42 true) = true
  /\ timerSeconds (Samples.stateAt "B" ["A"] ∅ 42 true) = 42
  /\ timerSeconds (snd (Automation.gotoCard (Samples.envOf Samples.linearDeck) "A"
                          (Samples.stateAt "B" ["A"] ∅ 42 true))) = 0
  /\ timerRunning (snd (Automation.gotoCard (Samples.envOf Samples.linearDeck) "A"
                          (Samples.stateAt "B" ["A"] ∅ 42 true))) = false
  /\ timerSeconds (snd (Automation.reset (Samples.envOf Samples.linearDeck)
                          (Samples.stateAt "B" ["A"] ∅ 42 true))) = 0
  /\ timerRunning (snd (Automation.reset (Samples.envOf Samples.linearDeck)
                          (Samples.stateAt "B" ["A"] ∅ 42 true))) = false.
Proof. vm_compute. repeat split. Qed.

(** ** The highlighted index at rest *)

Lemma applyAlgorithm_indexAtRest (env : Env) (s : AppState) :
  indexAtRest env (applyAlgorithm env s).
Proof.
  unfold indexAtRest, applyAlgorithm. intros _.
  rewrite render_decisionIndex. reflexivity.
Qed.

Lemma advance_indexAtRest (env : Env) (options : AdvanceOptions) (s : AppState) :
  indexAtRest env s -> indexAtRest env (snd (advance env options s)).
Proof.
  intros Hinv. unfold indexAtRest in *.
  destruct (advance_outcome env options s) as [[_ Hr]|[_ Hm]].
  - destruct Hr as (Hc & _ & Hi & _). rewrite Hc, Hi. exact Hinv.
  - destruct Hm as (n & c & _ & Hn & Hc & _ & Hi & _). rewrite Hc, Hn. exact Hi.
Qed.

Lemma rewind_indexAtRest (env : Env) (s : AppState) :
  indexAtRest env s -> indexAtRest env (snd (rewind env s)).
Proof.
  intros Hinv. unfold indexAtRest in *.
  destruct (rewind_outcome env s) as [[_ ->]|(p & _ & _ & Hc & _ & Hi & _)].
  - exact Hinv.
  - rewrite Hc. exact Hi.
Qed.

Lemma setCurrentCard_indexAtRest (env : Env) (cardId : string) (s : AppState) :
  indexAtRest env s -> indexAtRest env (snd (setCurrentCardForAutomation env cardId s)).
Proof.
  intros Hinv. unfold indexAtRest in *.
  destruct (DECK env !! cardId) as [card|] eqn:Hcard.
  - destruct (setCurrentCard_known env cardId card s Hcard) as (_ & _ & _ & Hc & _ & Hi).
    rewrite Hc, Hcard. exact Hi.
  - destruct (setCurrentCard_unknown env cardId s Hcard) as [_ ->]. exact Hinv.
Qed.

Lemma selectDecisionOption_indexAtRest (env : Env) (index : jsnum) (s : AppState) :
  indexAtRest env s -> indexAtRest env (snd (Automation.selectDecisionOption env index s)).
Proof.
  intros Hinv. unfold indexAtRest, Automation.selectDecisionOption in *.
  destruct (DECK env !! currentId s) as [card|] eqn:Hcard;
    [|cbn [snd]; rewrite Hcard; exact Hinv].
  destruct (transitions card) as [[nx|opts|nx|]|] eqn:Htr;
    try (cbn [snd]; rewrite Hcard; exact Hinv).
  cbn [snd]. autorewrite with render_frame.
  cbn [currentId decisionIndex set_decisionTapped set_decisionIndex]. rewrite Hcard.
  apply normalize_not_split.
Qed.

Lemma tapDecisionOption_indexAtRest (env : Env) (idx : jsnum) (s : AppState) :
  indexAtRest env s -> indexAtRest env (tapDecisionOption env idx s).
Proof.
  intros Hinv. unfold indexAtRest, tapDecisionOption in *.
  destruct (DECK env !! currentId s) as [card|] eqn:Hcard; [|rewrite Hcard; exact Hinv].
  autorewrite with render_frame.
  cbn [currentId decisionIndex set_decisionTapped set_decisionIndex]. rewrite Hcard.
  apply normalize_not_split.
Qed.

(** ** Advance and rewind on a linear step *)




(** ** Refused advances *)

Lemma advance_refused_unchanged (env : Env) (options : AdvanceOptions) (s : AppState) :
  isSplitDecisionCard (DECK env !! currentId s) = false ->
  fst (advance env options s) = false ->
  snd (advance env options s) = s.
Proof.
  unfold advance, isSplitDecisionCard.
  destruct (DECK env !! currentId s) as [card|]; [|reflexivity].
  destruct (String.eqb (status card) "complete"); [reflexivity|].
  destruct (transitions card) as [[nx|opts|nx|]|]; try reflexivity.
  - intros _.
    destruct (truthy nx); [destruct (DECK env !! nx)|]; cbn; try reflexivity; discriminate.
  - intros Hns. apply Z.ltb_ge in Hns.
    destruct (Z.eqb_spec (Z.of_nat (length opts)) 0); [reflexivity|lia].
  - intros _.
    match goal with
    | |- context [if truthy ?n then DECK env !! ?n else None] =>
        destruct (truthy n); [destruct (DECK env !! n)|]
    end; cbn; try reflexivity; discriminate.
Qed.

(** C2. A confirmed decision whose chosen option points at a card that is
    not in the deck: [advance] returns [false] and neither [currentId]
    nor [history] moves, but the choice has already been written to
    [decisionRecords] and an entry appended to [decisionTrail]. *)
Theorem advance_records_before_target_check :
  fst (advance (Samples.envOf Samples.danglingDeck)
         {| opt_source := "decision-confirm"; splitConfirmed := true |}
         (Samples.stateAt "D" [] ∅ 0 false)) = false
  /\ currentId (snd (advance (Samples.envOf Samples.danglingDeck)
                       {| opt_source := "decision-confirm"; splitConfirmed := true |}
                       (Samples.stateAt "D" [] ∅ 0 false))) = "D"
  /\ history (snd (advance (Samples.envOf Samples.danglingDeck)
                     {| opt_source := "decision-confirm"; splitConfirmed := true |}
                     (Samples.stateAt "D" [] ∅ 0 false))) = []
  /\ decisionRecords (Samples.stateAt "D" [] ∅ 0 false) !! "D" = None
  /\ decisionRecords (snd (advance (Samples.envOf Samples.danglingDeck)
                             {| opt_source := "decision-confirm"; splitConfirmed := true |}
                             (Samples.stateAt "D" [] ∅ 0 false))) !! "D" = Some 0
  /\ decisionTrail (Samples.stateAt "D" [] ∅ 0 false) = []
  /\ decisionTrail (snd (advance (Samples.envOf Samples.danglingDeck)
                           {| opt_source := "decision-confirm"; splitConfirmed := true |}
                           (Samples.stateAt "D" [] ∅ 0 false)))
     = [ {| card_id := "D"; option_index := 0; option_label := "YES";
            trail_target_id := "GONE";
            interaction := "forward-decision-confirm";
            source := "decision-confirm";
            timestamp := "2024-01-01T00:00:00.000Z" |} ].
Proof. vm_compute. repeat split. Qed.

(** ** The walks terminate and visit each card once *)

Lemma walkable_spec (D : gmap string Card) (cardId : string) (V : gset string) :
  walkable D cardId V = true <->
  truthy cardId = true /\ is_Some (D !! cardId) /\ cardId ∉ V.
Proof.
  unfold walkable. rewrite !andb_true_iff, !bool_decide_eq_true. tauto.
Qed.

Lemma remaining_decreases (D : gmap string Card) (cardId : string) (V : gset string) :
  is_Some (D !! cardId) -> cardId ∉ V ->
  (size (dom D ∖ ({[cardId]} ∪ V)) < size (dom D ∖ V))%nat.
Proof.
  intros Hin Hnv. apply subset_size.
  apply elem_of_dom in Hin. set_solver.
Qed.

Lemma loopFuel_enough (D : gmap string Card) : (size (dom D ∖ (∅ : gset string)) < loopFuel D)%nat.
Proof.
  unfold loopFuel. rewrite difference_empty_L, size_dom. lia.
Qed.

Lemma forwardLoop_unfold (env : Env) (s : AppState) (fuel : nat)
    (cardId : string) (V : gset string) (p : list string) :
  forwardLoop env s (S fuel) cardId V p =
  if walkable (DECK env) cardId V then
    match DECK env !! cardId with
    | Some card =>
        match forwardNext env s card ({[cardId]} ∪ V) with
        | Some n => forwardLoop env s fuel n ({[cardId]} ∪ V) (p ++ [cardId])
        | None => Some (p ++ [cardId])
        end
    | None => Some p
    end
  else Some p.
Proof.
  cbn [forwardLoop]. unfold walkable, forwardNext.
  destruct (truthy cardId); cbn [negb andb]; [|reflexivity].
  destruct (DECK env !! cardId) as [card|] eqn:Hcard.
  - rewrite bool_decide_eq_true_2 by eauto. cbn [andb].
    destruct (decide (cardId ∈ V)) as [Hin|Hnin].
    + rewrite bool_decide_eq_false_2 by tauto. reflexivity.
    + rewrite bool_decide_eq_true_2 by assumption.
      destruct (transitions card) as [[nx|opts|nx|]|]; try reflexivity.
      * destruct (decisionRecords s !! id card); reflexivity.
      * destruct (String.eqb nx (id card)); reflexivity.
  - rewrite bool_decide_eq_false_2; [reflexivity|].
    intros [? ?]. discriminate.
Qed.

Lemma forwardLoop_total (env : Env) (s : AppState) (fuel : nat) :
  forall (cardId : string) (V : gset string) (p : list string),
    (size (dom (DECK env) ∖ V) < fuel)%nat ->
    is_Some (forwardLoop env s fuel cardId V p).
Proof.
  induction fuel as [|fuel IH]; intros cardId V p Hfuel; [lia|].
  rewrite forwardLoop_unfold.
  destruct (walkable (DECK env) cardId V) eqn:Hw; [|eauto].
  apply walkable_spec in Hw as (_ & [card Hcard] & Hnv).
  rewrite Hcard.
  destruct (forwardNext env s card ({[cardId]} ∪ V)) as [n|]; [|eauto].
  apply IH.
  pose proof (remaining_decreases (DECK env) cardId V (ltac:(eauto)) Hnv). lia.
Qed.

(** Whatever the walk returns extends the path it started from by cards
    that were not visited before, none of them twice. *)
Lemma forwardLoop_extends (env : Env) (s : AppState) (fuel : nat) :
  forall (cardId : string) (V : gset string) (p r : list string),
    forwardLoop env s fuel cardId V p = Some r ->
    exists suffix,
      r = p ++ suffix /\ NoDup suffix /\ (forall x, x ∈ suffix -> x ∉ V)
      /\ (forall x, x ∈ suffix -> is_Some (DECK env !! x)).
Proof.
  induction fuel as [|fuel IH]; intros cardId V p r Hr; [discriminate|].
  rewrite forwardLoop_unfold in Hr.
  assert (Hstop : Some p = Some r ->
                  exists suffix, r = p ++ suffix /\ NoDup suffix
                                 /\ (forall x, x ∈ suffix -> x ∉ V)
                                 /\ (forall x, x ∈ suffix -> is_Some (DECK env !! x))).
  { intros [= <-]. exists []. rewrite app_nil_r.
    repeat split; [constructor|intros x Hx; inversion Hx..]. }
  destruct (walkable (DECK env) cardId V) eqn:Hw; [|auto].
  apply walkable_spec in Hw as (_ & [card Hcard] & Hnv).
  rewrite Hcard in Hr.
  destruct (forwardNext env s card ({[cardId]} ∪ V)) as [n|].
  - apply IH in Hr as (suffix & -> & Hnd & Hfresh & Hdeck).
    exists (cardId :: suffix). rewrite <- app_assoc. split; [reflexivity|].
    split; [|split].
    + constructor; [|exact Hnd]. intros Hin. apply Hfresh in Hin. set_solver.
    + intros x Hx. apply elem_of_cons in Hx as [->|Hx]; [exact Hnv|].
      apply Hfresh in Hx. set_solver.
    + intros x Hx. apply elem_of_cons in Hx as [->|Hx]; [eauto|auto].
  - injection Hr as <-. exists [cardId]. split; [reflexivity|].
    split; [|split].
    + apply NoDup_singleton.
    + intros x Hx. apply list_elem_of_singleton in Hx as ->. exact Hnv.
    + intros x Hx. apply list_elem_of_singleton in Hx as ->. eauto.
Qed.

Lemma computeForwardPath_returns (env : Env) (s : AppState) :
  forwardLoop env s (loopFuel (DECK env)) (currentAlgorithmStartId env) ∅ []
  = Some (computeForwardPath env s).
Proof.
  unfold computeForwardPath.
  destruct (forwardLoop_total env s (loopFuel (DECK env)) (currentAlgorithmStartId env) ∅ [])
    as [r Hr]; [apply loopFuel_enough|].
  rewrite Hr. reflexivity.
Qed.

Lemma computeForwardPath_NoDup (env : Env) (s : AppState) :
  NoDup (computeForwardPath env s)
  /\ (forall x, x ∈ computeForwardPath env s -> is_Some (DECK env !! x)).
Proof.
  pose proof (computeForwardPath_returns env s) as Hr.
  apply forwardLoop_extends in Hr as (suffix & Heq & Hnd & _ & Hdeck).
  cbn [app] in Heq. rewrite Heq. split; assumption.
Qed.

(** ** Anchors *)

Lemma imap_anchor_ids (l : list string) :
  forall f : nat -> string -> Anchor,
    (forall i x, anchor_id (f i x) = x) -> anchor_id <$> imap f l = l.
Proof.
  induction l as [|x l IH]; intros f Hf; [reflexivity|].
  rewrite imap_cons, fmap_cons, Hf. f_equal.
  apply IH. intros i y. apply Hf.
Qed.

Lemma computeAnchors_ids (env : Env) (s : AppState) :
  anchor_id <$> computeAnchors env s = computeForwardPath env s.
Proof.
  unfold computeAnchors.
  destruct (computeForwardPath env s) as [|x [|y rest]]; [reflexivity..|].
  apply imap_anchor_ids. reflexivity.
Qed.

Lemma computeAnchors_angle (env : Env) (s : AppState) (i : nat) (a : Anchor) :
  computeAnchors env s !! i = Some a ->
  anchor_angle a =
  if decide (length (computeForwardPath env s) = 1%nat)
  then start_degrees (getCurrentWheelArc env)
  else angleOnArc (getCurrentWheelArc env)
         (inject_Z (Z.of_nat i)
          / inject_Z (Z.of_nat (length (computeForwardPath env s)) - 1)).
Proof.
  unfold computeAnchors.
  destruct (computeForwardPath env s) as [|x [|y rest]] eqn:Hp.
  - intros H. rewrite lookup_nil in H. discriminate.
  - destruct i as [|i]; [|intros H; rewrite lookup_cons_ne_0, lookup_nil in H by lia; discriminate].
    intros [= <-]. reflexivity.
  - intros H. rewrite list_lookup_imap in H.
    destruct ((x :: y :: rest) !! i) as [c|]; [|discriminate].
    injection H as <-. reflexivity.
Qed.

(** C3. The anchor list follows the forward path: the walk that computes
    the path ends within its fuel; the list has one anchor per card of
    the path, with the ids of the path in the order of the path and no id
    twice; an anchor at position [i] of a path of [n] cards sits at
    [angleOnArc arc (i / (n - 1))], and the only anchor of a one-card
    path sits at [arc.start_degrees]. *)
Theorem computeAnchors_follow_path (env : Env) (s : AppState) :
  forwardLoop env s (loopFuel (DECK env)) (currentAlgorithmStartId env) ∅ []
  = Some (computeForwardPath env s)
  /\ length (computeAnchors env s) = length (computeForwardPath env s)
  /\ anchor_id <$> computeAnchors env s = computeForwardPath env s
  /\ NoDup (anchor_id <$> computeAnchors env s)
  /\ (forall (i : nat) (a : Anchor),
         computeAnchors env s !! i = Some a ->
         anchor_angle a =
         if decide (length (computeForwardPath env s) = 1%nat)
         then start_degrees (getCurrentWheelArc env)
         else angleOnArc (getCurrentWheelArc env)
                (inject_Z (Z.of_nat i)
                 / inject_Z (Z.of_nat (length (computeForwardPath env s)) - 1))).
Proof.
  split; [apply computeForwardPath_returns|].
  split; [rewrite <- (length_fmap anchor_id), computeAnchors_ids; reflexivity|].
  split; [apply computeAnchors_ids|].
  split; [rewrite computeAnchors_ids; apply computeForwardPath_NoDup|].
  apply computeAnchors_angle.
Qed.

Lemma computeAnchors_follow_path_witness :
  anchor_angle {| anchor_id := "B";
                  anchor_angle := angleOnArc DEFAULT_WHEEL_ARC (inject_Z 1 / inject_Z (3 - 1)) |}
  = angleOnArc DEFAULT_WHEEL_ARC (inject_Z 1 / inject_Z (3 - 1)).
Proof.
  apply (proj2 (proj2 (proj2 (proj2
           (computeAnchors_follow_path (Samples.envOf Samples.linearDeck)
              (Samples.stateAt "A" [] ∅ 0 false))))) 1%nat).
  vm_compute. reflexivity.
Defined.

(** ** Branch lengths *)

Open Scope Z_scope.







(** ** Which card follows which on the forward path *)





(** ** The longest remaining branch *)




(** ** Concrete instances *)

Lemma normalizeDecisionIndexForCard_clamp_witness :
  0 <= normalizeDecisionIndexForCard
         (Some (Samples.card "D" (Some (TSplit [Samples.opt "YES" "E"; Samples.opt "NO" "F"]))))
         (Num (inject_Z 7))
    <= optionCount (Samples.card "D" (Some (TSplit [Samples.opt "YES" "E"; Samples.opt "NO" "F"]))) - 1.
Proof.
  apply (proj1 (proj1 normalizeDecisionIndexForCard_clamp
                  (Samples.card "D" (Some (TSplit [Samples.opt "YES" "E"; Samples.opt "NO" "F"])))
                  7)).
  reflexivity.
Defined.

Lemma advance_decision_guard_witness :
  fst (advance (Samples.envOf Samples.danglingDeck)
         {| opt_source := "ui"; splitConfirmed := false |}
         (Samples.stateAt "D" [] ∅ 0 false)) = false.
Proof.
  refine (proj1 (advance_decision_guard (Samples.envOf Samples.danglingDeck)
                   (Samples.stateAt "D" [] ∅ 0 false)
                   (Samples.card "D" (Some (TSplit [Samples.opt "YES" "GONE"; Samples.opt "NO" "F"])))
                   {| opt_source := "ui"; splitConfirmed := false |} _ _ _ _)).
  - vm_compute. reflexivity.
  - reflexivity.
  - reflexivity.
  - reflexivity.
Defined.

Lemma advance_self_loop_witness :
  fst (advance (Samples.envOf Samples.loopDeck)
         {| opt_source := "wheel-tap"; splitConfirmed := false |}
         (Samples.stateAt "L" [] ∅ 0 false)) = true.
Proof.
  refine (proj1 (advance_self_loop (Samples.envOf Samples.loopDeck)
                   (Samples.stateAt "L" [] ∅ 0 false)
                   (Samples.card "L" (Some (TSelfLoop "L")))
                   {| opt_source := "wheel-tap"; splitConfirmed := false |} _ _ _ _)).
  - repeat constructor.
  - vm_compute. reflexivity.
  - reflexivity.
  - discriminate.
Defined.

Lemma selectDecisionOption_clamps_witness :
  decisionIndex (snd (Automation.selectDecisionOption (Samples.envOf Samples.danglingDeck)
                        PosInfinity (Samples.stateAt "D" [] ∅ 0 false))) = 0.
Proof.
  rewrite (proj1 (proj2 (proj2
             (selectDecisionOption_clamps (Samples.envOf Samples.danglingDeck)
                (Samples.stateAt "D" [] ∅ 0 false)
                (Samples.card "D" (Some (TSplit [Samples.opt "YES" "GONE"; Samples.opt "NO" "F"])))
                PosInfinity ltac:(vm_compute; reflexivity) ltac:(reflexivity))))).
  reflexivity.
Defined.

(** * Further properties of the navigation core *)

(** ** [advance] in two halves *)

Lemma advance_eq (env : Env) (options : AdvanceOptions) (s : AppState) :
  advance env options s =
  match DECK env !! currentId s with
  | None => (false, s)
  | Some card =>
      if String.eqb (status card) "complete" then (false, s)
      else
        match resolveTransition env (advanceSource options) (advanceConfirmed options) card s with
        | None => (false, s)
        | Some (nextId, s1) =>
            match (if truthy nextId then DECK env !! nextId else None) with
            | Some nextCard => (true, landOn env nextId nextCard s1)
            | None => (false, s1)
            end
        end
  end.
Proof.
  unfold advance, resolveTransition, landOn, advanceConfirmed, advanceSource.
  destruct (DECK env !! currentId s) as [card|]; [|reflexivity].
  destruct (String.eqb (status card) "complete"); [reflexivity|].
  destruct (transitions card) as [[nx|opts|nx|]|]; reflexivity.
Qed.

Ltac landOn_frame :=
  unfold landOn; cbv zeta; autorewrite with render_frame;
  repeat match goal with
         | |- context [if ?c then _ else _] => destruct c eqn:?
         end; cbn; try reflexivity.

Lemma landOn_currentId env n c s : currentId (landOn env n c s) = n.
Proof. landOn_frame. Qed.

Lemma landOn_history env n c s :
  history (landOn env n c s) =
  if String.eqb n (currentId s) then history s else history s ++ [currentId s].
Proof. landOn_frame. Qed.

Lemma rememberedDecisionIndexForCard_ext (s s' : AppState) (c : Card) :
  decisionRecords s' = decisionRecords s -> decisionIndex s' = decisionIndex s ->
  rememberedDecisionIndexForCard s' c = rememberedDecisionIndexForCard s c.
Proof.
  intros Hr Hi. unfold rememberedDecisionIndexForCard. rewrite Hr, Hi. reflexivity.
Qed.

Lemma landOn_decisionIndex env n c s :
  decisionIndex (landOn env n c s) =
  if isSplitDecisionCard (Some c) then rememberedDecisionIndexForCard s c else 0.
Proof.
  unfold landOn; cbv zeta; autorewrite with render_frame.
  destruct (isSplitDecisionCard (Some c));
    repeat match goal with
           | |- context [if ?c then _ else _] => destruct c eqn:?
           end; cbn; try reflexivity;
    apply rememberedDecisionIndexForCard_ext; reflexivity.
Qed.

Lemma landOn_decisionTapped env n c s : decisionTapped (landOn env n c s) = false.
Proof. landOn_frame. Qed.

Lemma landOn_carouselIndex env n c s : carouselIndex (landOn env n c s) = 0.
Proof. landOn_frame. Qed.

Lemma landOn_decisionRecords env n c s :
  decisionRecords (landOn env n c s) = decisionRecords s.
Proof. landOn_frame. Qed.

Lemma landOn_decisionTrail env n c s :
  decisionTrail (landOn env n c s) = decisionTrail s.
Proof. landOn_frame. Qed.

Lemma landOn_checklistState env n c s :
  checklistState (landOn env n c s) = checklistState s.
Proof. landOn_frame. Qed.

Lemma landOn_timerSeconds env n c s : timerSeconds (landOn env n c s) = timerSeconds s.
Proof. landOn_frame. Qed.

Lemma landOn_timerRunning env n c s :
  timerRunning (landOn env n c s) =
  (timerRunning s
   || (negb (truthy (auto_start_on_card (algorithm_meta (RUNTIME_ALGORITHM env))))
       || String.eqb n (auto_start_on_card (algorithm_meta (RUNTIME_ALGORITHM env)))))%bool.
Proof.
  unfold landOn; cbv zeta; autorewrite with render_frame.
  generalize (negb (truthy (auto_start_on_card (algorithm_meta (RUNTIME_ALGORITHM env))))
              || String.eqb n (auto_start_on_card (algorithm_meta (RUNTIME_ALGORITHM env))))%bool.
  intros should.
  destruct (String.eqb n (currentId s)); destruct (isSplitDecisionCard (Some c));
    cbn; destruct (timerRunning s) eqn:Hrun; destruct should; cbn; rewrite ?Hrun; reflexivity.
Qed.

(** What resolving the transition may have written. *)
Lemma resolveTransition_frame (env : Env) (src : string) (confirmed : bool)
    (card : Card) (s s1 : AppState) (n : string) :
  resolveTransition env src confirmed card s = Some (n, s1) ->
  currentId s1 = currentId s /\ history s1 = history s
  /\ decisionIndex s1 = decisionIndex s /\ decisionTapped s1 = decisionTapped s
  /\ carouselIndex s1 = carouselIndex s /\ timerSeconds s1 = timerSeconds s
  /\ timerRunning s1 = timerRunning s /\ checklistState s1 = checklistState s
  /\ (forall k, k <> id card -> decisionRecords s1 !! k = decisionRecords s !! k)
  /\ exists entries, decisionTrail s1 = decisionTrail s ++ entries
                     /\ (length entries <= 1)%nat
                     /\ (entries = [] -> s1 = s).
Proof.
  unfold resolveTransition.
  destruct (transitions card) as [[nx|opts|nx|]|]; try discriminate.
  - intros [= <- <-]. repeat split; try reflexivity.
    exists []. rewrite app_nil_r. repeat split; auto.
  - destruct (Z.of_nat (length opts) =? 0); [discriminate|].
    destruct (negb confirmed); [discriminate|].
    intros [= <- <-]. cbn. repeat split; try reflexivity.
    + intros k Hk. rewrite lookup_insert_ne by congruence. reflexivity.
    + eexists [_]. split; [reflexivity|]. split; [cbn; lia|discriminate].
  - intros [= <- <-]. repeat split; try reflexivity.
    exists []. rewrite app_nil_r. repeat split; auto.
Qed.

Lemma advance_inv (env : Env) (options : AdvanceOptions) (s : AppState) :
  advance env options s = (false, s)
  \/ (exists card n s1,
         DECK env !! currentId s = Some card
         /\ resolveTransition env (advanceSource options) (advanceConfirmed options) card s
            = Some (n, s1)
         /\ advance env options s = (false, s1))
  \/ (exists card n s1 nextCard,
         DECK env !! currentId s = Some card
         /\ String.eqb (status card) "complete" = false
         /\ resolveTransition env (advanceSource options) (advanceConfirmed options) card s
            = Some (n, s1)
         /\ truthy n = true
         /\ DECK env !! n = Some nextCard
         /\ advance env options s = (true, landOn env n nextCard s1)).
Proof.
  rewrite advance_eq.
  destruct (DECK env !! currentId s) as [card|] eqn:Hcard; [|left; reflexivity].
  destruct (String.eqb (status card) "complete") eqn:Hst; [left; reflexivity|].
  destruct (resolveTransition _ _ _ card s) as [[n s1]|] eqn:Hres; [|left; reflexivity].
  destruct (truthy n) eqn:Hn.
  - destruct (DECK env !! n) as [nextCard|] eqn:Hnext.
    + right. right. exists card, n, s1, nextCard. repeat split; auto.
    + right. left. exists card, n, s1. repeat split; auto.
  - right. left. exists card, n, s1. repeat split; auto.
Qed.


(** ** Committing a decision *)



(** ** Rewinding *)


(** X2. Rewinding onto a split-decision card pops it from the history,
    marks it tapped exactly when it has a committed choice, and
    highlights the committed option, or else the clamped live index. *)
Theorem rewind_onto_decision (env : Env) (s : AppState) (h : list string)
    (p : string) (c : Card) :
  history s = h ++ [p] ->
  DECK env !! p = Some c ->
  isSplitDecisionCard (Some c) = true ->
  fst (rewind env s) = true
  /\ currentId (snd (rewind env s)) = p
  /\ history (snd (rewind env s)) = h
  /\ decisionTapped (snd (rewind env s)) = bool_decide (is_Some (decisionRecords s !! p))
  /\ decisionIndex (snd (rewind env s))
     = normalizeDecisionIndexForCard (Some c)
         (Num (inject_Z (default (decisionIndex s) (decisionRecords s !! p))))
  /\ decisionRecords (snd (rewind env s)) = decisionRecords s
  /\ decisionTrail (snd (rewind env s)) = decisionTrail s.
Proof.
  intros Hh Hc Hsplit.
  pose proof (DECK_lookup_id env _ _ Hc) as Hid.
  unfold rewind. rewrite Hh, last_snoc, removelast_last, Hc, Hsplit.
  cbn [fst snd]. autorewrite with render_frame.
  unfold rememberedDecisionIndexForCard. rewrite Hsplit.
  cbn. rewrite Hid.
  destruct (decisionRecords s !! p); repeat split; reflexivity.
Qed.

(** X3. Whenever [advance] moves to a different card, [rewind] brings
    back the card and the history that were there before, and keeps the
    decision records and the trail of the advance. *)
Theorem rewind_undoes_advance (env : Env) (options : AdvanceOptions) (s : AppState) :
  fst (advance env options s) = true ->
  currentId (snd (advance env options s)) <> currentId s ->
  fst (rewind env (snd (advance env options s))) = true
  /\ currentId (snd (rewind env (snd (advance env options s)))) = currentId s
  /\ history (snd (rewind env (snd (advance env options s)))) = history s
  /\ checklistState (snd (rewind env (snd (advance env options s)))) = checklistState s
  /\ decisionRecords (snd (rewind env (snd (advance env options s))))
     = decisionRecords (snd (advance env options s))
  /\ decisionTrail (snd (rewind env (snd (advance env options s))))
     = decisionTrail (snd (advance env options s)).
Proof.
  intros Hmoved Hne.
  destruct (advance_inv env options s)
    as [Heq|[(card & n & s1 & _ & _ & Heq)|(card & n & s1 & nc & _ & _ & Hres & _ & _ & Heq)]];
    rewrite Heq in *; try discriminate.
  cbn [fst snd] in *.
  apply resolveTransition_frame in Hres
    as (Hc & Hh & _ & _ & _ & _ & _ & Hck & _).
  rewrite landOn_currentId in Hne.
  assert (Hhist : history (landOn env n nc s1) = history s ++ [currentId s]).
  { rewrite landOn_history, Hc, Hh.
    destruct (String.eqb_spec n (currentId s)); [congruence|reflexivity]. }
  destruct (rewind_outcome env (landOn env n nc s1))
    as [[Hnil _]|(p & Hp & Hrw & Hcur & Hh' & _ & _ & _ & Hck' & Hrec & Htrail)].
  - rewrite Hhist in Hnil. destruct (history s); discriminate.
  - rewrite Hhist in Hp, Hh'. rewrite removelast_last in Hp, Hh'.
    apply app_inj_tail in Hp as [_ <-].
    rewrite landOn_checklistState in Hck'.
    repeat split; try assumption. congruence.
Qed.


(** X5. Where [canTapAdvance] refuses the current card, an unconfirmed
    advance from the interface would do nothing anyway: it returns
    [false] and leaves the state alone. *)
Theorem canTapAdvance_refusal_is_safe (env : Env) (options : AdvanceOptions) (s : AppState) :
  canTapAdvance (DECK env !! currentId s) = false ->
  advanceConfirmed options = false ->
  advance env options s = (false, s).
Proof.
  intros Htap Hconf. rewrite advance_eq.
  unfold canTapAdvance in Htap.
  destruct (DECK env !! currentId s) as [card|]; [|reflexivity].
  destruct (String.eqb (status card) "complete"); [reflexivity|].
  destruct (isSplitDecisionCard (Some card)) eqn:Hsplit; [|discriminate].
  unfold resolveTransition. unfold isSplitDecisionCard in Hsplit.
  destruct (transitions card) as [[nx|opts|nx|]|]; try discriminate.
  rewrite Hconf. destruct (Z.of_nat (length opts) =? 0); reflexivity.
Qed.

(** ** Invariants kept by navigation *)

Lemma setCurrentCard_known_frame (env : Env) (cardId : string) (card : Card) (s : AppState) :
  DECK env !! cardId = Some card ->
  fst (setCurrentCardForAutomation env cardId s) = {| ok := true; error := None |}
  /\ currentId (snd (setCurrentCardForAutomation env cardId s)) = cardId
  /\ history (snd (setCurrentCardForAutomation env cardId s)) = []
  /\ decisionIndex (snd (setCurrentCardForAutomation env cardId s))
     = (if isSplitDecisionCard (Some card) then rememberedDecisionIndexForCard s card else 0)
  /\ decisionTapped (snd (setCurrentCardForAutomation env cardId s)) = false
  /\ carouselIndex (snd (setCurrentCardForAutomation env cardId s)) = 0
  /\ decisionRecords (snd (setCurrentCardForAutomation env cardId s)) = decisionRecords s
  /\ decisionTrail (snd (setCurrentCardForAutomation env cardId s)) = decisionTrail s
  /\ checklistState (snd (setCurrentCardForAutomation env cardId s)) = checklistState s.
Proof.
  intros Hcard. pose proof (DECK_lookup_id env _ _ Hcard) as Hid.
  unfold setCurrentCardForAutomation. rewrite Hcard.
  cbn [fst snd]. autorewrite with render_frame.
  destruct (isSplitDecisionCard (Some card)); cbn; rewrite Hid;
    repeat split; reflexivity.
Qed.

Lemma rememberedDecisionIndexForCard_range (s : AppState) (c : Card) :
  isSplitDecisionCard (Some c) = true ->
  0 <= rememberedDecisionIndexForCard s c <= optionCount c - 1.
Proof.
  intros Hsplit. unfold rememberedDecisionIndexForCard. rewrite Hsplit.
  apply normalize_split_range. exact Hsplit.
Qed.

Lemma indexFitsCard_intro (env : Env) (s : AppState) (c : Card) (v : Z) :
  DECK env !! currentId s = Some c ->
  decisionIndex s = (if isSplitDecisionCard (Some c) then v else 0) ->
  (isSplitDecisionCard (Some c) = true -> 0 <= v <= optionCount c - 1) ->
  indexFitsCard env s.
Proof.
  intros Hc Hidx Hrange. unfold indexFitsCard. rewrite Hc. split.
  - intros Hns. rewrite Hidx, Hns. reflexivity.
  - intros c' [= <-] Hsplit. rewrite Hidx, Hsplit. auto.
Qed.


(** X7. The highlighted option index always fits the current card: it
    lies within the options of a split-decision card and is 0 on any
    other card.  The load establishes this; [advance], [rewind],
    [gotoCard], [reset], the automation's [selectDecisionOption] and the
    option tap of the preview zone keep it. *)
Theorem decision_index_fits_card (env : Env) (s : AppState) :
  indexFitsCard env (applyAlgorithm env s)
  /\ (indexFitsCard env s ->
      (forall options, indexFitsCard env (snd (advance env options s)))
      /\ indexFitsCard env (snd (rewind env s))
      /\ (forall cardId, indexFitsCard env (snd (Automation.gotoCard env cardId s)))
      /\ indexFitsCard env (snd (Automation.reset env s))
      /\ (forall index, indexFitsCard env (snd (Automation.selectDecisionOption env index s)))
      /\ (forall index, indexFitsCard env (tapDecisionOption env index s))).
Proof.
  assert (Hgoto : forall cardId, indexFitsCard env s ->
                    indexFitsCard env (snd (setCurrentCardForAutomation env cardId s))).
  { intros cardId Hfit. destruct (DECK env !! cardId) as [card|] eqn:Hcard.
    - destruct (setCurrentCard_known_frame env cardId card s Hcard) as (_ & Hc & _ & Hi & _).
      eapply indexFitsCard_intro; [rewrite Hc; exact Hcard|exact Hi|].
      apply rememberedDecisionIndexForCard_range.
    - destruct (setCurrentCard_unknown env cardId s Hcard) as [_ ->]. exact Hfit. }
  assert (Hselect : forall (card : Card) (index : jsnum) (s' : AppState),
             DECK env !! currentId s = Some card ->
             currentId s' = currentId s ->
             decisionIndex s' = normalizeDecisionIndexForCard (Some card) index ->
             indexFitsCard env s').
  { intros card index s' Hcard Hc Hi. unfold indexFitsCard. rewrite Hc, Hcard, Hi. split.
    - apply normalize_not_split.
    - intros c' [= <-]. apply normalize_split_range. }
  split.
  - unfold indexFitsCard, applyAlgorithm. autorewrite with render_frame.
    cbn [currentId decisionIndex resetTimerState set_timer]. split; [reflexivity|].
    intros c _ Hsplit. unfold isSplitDecisionCard, optionCount in *.
    destruct (transitions c) as [[nx|opts|nx|]|]; try discriminate.
    apply Z.ltb_lt in Hsplit. lia.
  - intros Hfit. split; [|split; [|split; [|split; [|split]]]].
    + intros options.
      destruct (advance_inv env options s)
        as [Heq|[(card & n & s1 & _ & Hres & Heq)
                |(card & n & s1 & nc & _ & _ & Hres & _ & Hnext & Heq)]];
        rewrite Heq; cbn [snd].
      * exact Hfit.
      * apply resolveTransition_frame in Hres as (Hc & _ & Hi & _).
        unfold indexFitsCard. rewrite Hc, Hi. exact Hfit.
      * eapply indexFitsCard_intro;
          [rewrite landOn_currentId; exact Hnext|apply landOn_decisionIndex|].
        apply rememberedDecisionIndexForCard_range.
    + unfold rewind. destruct (last (history s)) as [p|]; [|exact Hfit].
      cbn [snd].
      destruct (DECK env !! p) as [c|] eqn:Hp.
      * eapply (indexFitsCard_intro env _ c (rememberedDecisionIndexForCard s c)).
        -- autorewrite with render_frame.
           destruct (isSplitDecisionCard (Some c)); cbn; exact Hp.
        -- autorewrite with render_frame.
           destruct (isSplitDecisionCard (Some c)); cbn; [|reflexivity].
           apply rememberedDecisionIndexForCard_ext; reflexivity.
        -- apply rememberedDecisionIndexForCard_range.
      * unfold indexFitsCard. autorewrite with render_frame. cbn. rewrite Hp.
        split; [reflexivity|discriminate].
    + intros cardId. apply Hgoto. exact Hfit.
    + unfold Automation.reset. apply Hgoto. exact Hfit.
    + intros index. unfold Automation.selectDecisionOption.
      destruct (DECK env !! currentId s) as [card|] eqn:Hcard; [|exact Hfit].
      destruct (transitions card) as [[nx|opts|nx|]|]; try exact Hfit.
      cbn [snd]. apply (Hselect card index); [reflexivity|..];
        autorewrite with render_frame; reflexivity.
    + intros index. unfold tapDecisionOption.
      destruct (DECK env !! currentId s) as [card|] eqn:Hcard; [|exact Hfit].
      apply (Hselect card index); [reflexivity|..];
        autorewrite with render_frame; reflexivity.
Qed.

(** ** The audit trail and the committed choices *)

(** X8. The decision trail is append-only and committed choices are only
    ever written for the current card: [advance] appends at most one
    entry and leaves the records of all other cards alone; [rewind],
    [gotoCard] and [reset] change neither, although the two automation
    calls clear the history. *)
Theorem trail_is_append_only (env : Env) (s : AppState) :
  (forall options,
      (exists entries,
          decisionTrail (snd (advance env options s)) = decisionTrail s ++ entries
          /\ (length entries <= 1)%nat)
      /\ (forall k, k <> currentId s ->
                    decisionRecords (snd (advance env options s)) !! k
                    = decisionRecords s !! k))
  /\ (decisionTrail (snd (rewind env s)) = decisionTrail s
      /\ decisionRecords (snd (rewind env s)) = decisionRecords s)
  /\ (forall cardId,
         decisionTrail (snd (Automation.gotoCard env cardId s)) = decisionTrail s
         /\ decisionRecords (snd (Automation.gotoCard env cardId s)) = decisionRecords s)
  /\ (decisionTrail (snd (Automation.reset env s)) = decisionTrail s
      /\ decisionRecords (snd (Automation.reset env s)) = decisionRecords s).
Proof.
  assert (Hgoto : forall cardId,
             decisionTrail (snd (setCurrentCardForAutomation env cardId s)) = decisionTrail s
             /\ decisionRecords (snd (setCurrentCardForAutomation env cardId s))
                = decisionRecords s).
  { intros cardId. destruct (DECK env !! cardId) as [card|] eqn:Hcard.
    - destruct (setCurrentCard_known_frame env cardId card s Hcard)
        as (_ & _ & _ & _ & _ & _ & Hrec & Htrail & _). split; assumption.
    - destruct (setCurrentCard_unknown env cardId s Hcard) as [_ ->]. split; reflexivity. }
  split; [|split; [|split]].
  - intros options.
    destruct (advance_inv env options s)
      as [Heq|[(card & n & s1 & Hcard & Hres & Heq)
              |(card & n & s1 & nc & Hcard & _ & Hres & _ & _ & Heq)]];
      rewrite Heq; cbn [snd].
    + split; [exists []; rewrite app_nil_r; split; [reflexivity|cbn; lia]|reflexivity].
    + pose proof (DECK_lookup_id env _ _ Hcard) as Hid.
      apply resolveTransition_frame in Hres
        as (_ & _ & _ & _ & _ & _ & _ & _ & Hrec & entries & Htrail & Hlen & _).
      split; [exists entries; split; assumption|].
      intros k Hk. apply Hrec. congruence.
    + pose proof (DECK_lookup_id env _ _ Hcard) as Hid.
      apply resolveTransition_frame in Hres
        as (_ & _ & _ & _ & _ & _ & _ & _ & Hrec & entries & Htrail & Hlen & _).
      rewrite landOn_decisionTrail, landOn_decisionRecords.
      split; [exists entries; split; assumption|].
      intros k Hk. apply Hrec. congruence.
  - destruct (rewind_outcome env s)
      as [[_ ->]|(p & _ & _ & _ & _ & _ & _ & _ & _ & Hrec & Htrail)];
      split; auto.
  - intros cardId. apply Hgoto.
  - apply Hgoto.
Qed.

(** ** Starting the clock *)

(** X9. [advance] starts the clock only by moving: a refused advance
    leaves [timerRunning] as it was; a successful one leaves the timer
    running if it was running, or if no [auto_start_on_card] is
    configured, or if the card it lands on is that card, and stopped
    otherwise.  The elapsed seconds are never touched. *)
Theorem advance_starts_the_clock (env : Env) (options : AdvanceOptions) (s : AppState) :
  timerSeconds (snd (advance env options s)) = timerSeconds s
  /\ timerRunning (snd (advance env options s))
     = (timerRunning s
        || (fst (advance env options s)
            && (negb (truthy (auto_start_on_card (algorithm_meta (RUNTIME_ALGORITHM env))))
                || String.eqb (currentId (snd (advance env options s)))
                     (auto_start_on_card (algorithm_meta (RUNTIME_ALGORITHM env))))))%bool.
Proof.
  destruct (advance_inv env options s)
    as [Heq|[(card & n & s1 & _ & Hres & Heq)
            |(card & n & s1 & nc & _ & _ & Hres & _ & _ & Heq)]];
    rewrite Heq; cbn [fst snd andb].
  - rewrite orb_false_r. split; reflexivity.
  - apply resolveTransition_frame in Hres as (_ & _ & _ & _ & _ & Hs & Hr & _).
    rewrite orb_false_r. split; assumption.
  - apply resolveTransition_frame in Hres as (_ & _ & _ & _ & _ & Hs & Hr & _).
    rewrite landOn_timerSeconds, landOn_timerRunning, landOn_currentId, Hs, Hr.
    split; reflexivity.
Qed.

(** ** Automation errors *)

(** The automation interface reports misuse instead of acting:
    [gotoCard] with an id that is not in the deck and
    [selectDecisionOption] on a card without a split transition both
    answer [ok: false] with their message and leave the state as it
    was. *)
Lemma automation_errors_change_nothing (env : Env) (s : AppState) :
  (forall cardId,
      DECK env !! cardId = None ->
      Automation.gotoCard env cardId s
      = ({| ok := false; error := Some ("Unknown card id: " ++ cardId)%string |}, s))
  /\ (forall index,
         (forall card opts, DECK env !! currentId s = Some card ->
                            transitions card <> Some (TSplit opts)) ->
         Automation.selectDecisionOption env index s
         = ({| ok := false; error := Some "Current card is not a split decision card" |}, s)).
Proof.
  split.
  - intros cardId Hnone. unfold Automation.gotoCard, setCurrentCardForAutomation.
    rewrite Hnone. reflexivity.
  - intros index Hns. unfold Automation.selectDecisionOption.
    destruct (DECK env !! currentId s) as [card|] eqn:Hcard; [|reflexivity].
    destruct (transitions card) as [[nx|opts|nx|]|] eqn:Htr; try reflexivity.
    exfalso. eapply Hns; [reflexivity|exact Htr].
Qed.

(** ** Angle normalisation in double arithmetic *)

Open Scope Q_scope.

Lemma jsrem_small (x : Q) : 0 <= x -> x < 360 -> jsrem x 360 == x.
Proof.
  intros Hlo Hhi. unfold jsrem, Qtrunc.
  assert (Hdiv : x == 360 * (x / 360)) by (field; discriminate).
  destruct (Qlt_le_dec (x / 360) 0) as [Hneg|Hpos]; [lra|].
  assert (Hfl : Qfloor (x / 360) = 0%Z).
  { pose proof (Qfloor_le (x / 360)) as Hf.
    pose proof (Qlt_floor (x / 360)) as Hl.
    assert (H1 : (Qfloor (x / 360) < 1)%Z).
    { rewrite Zlt_Qlt. change (inject_Z 1) with 1. lra. }
    assert (H2 : (-1 < Qfloor (x / 360))%Z).
    { rewrite Zlt_Qlt. rewrite inject_Z_plus in Hl.
      change (inject_Z 1) with 1 in Hl. change (inject_Z (-1)) with (-1). lra. }
    lia. }
  rewrite Hfl. change (inject_Z 0) with 0. ring.
Qed.

Lemma jsrem_full_turn (x : Q) : x == 360 -> jsrem x 360 == 0.
Proof.
  intros Hx. unfold jsrem, Qtrunc.
  assert (Hone : x / 360 == 1) by (rewrite Hx; reflexivity).
  destruct (Qlt_le_dec (x / 360) 0) as [Hneg|Hpos]; [lra|].
  rewrite (Qfloor_comp _ _ Hone). change (Qfloor 1) with 1%Z.
  change (inject_Z 1) with 1. lra.
Qed.

(** X10. In double arithmetic [normalizeDegrees] maps every finite angle
    into the closed interval from 0 to 360 and leaves the angles of
    [[0,360)] as they are; the non-finite numbers go to 0.  The value 360
    itself is reached, for instance from -1e-17, whose sum with 360
    rounds to 360.  A second call changes nothing below 360, and sends
    360 to 0. *)
Theorem normalizeDegrees_double_range :
  (forall (rnd : Q -> Q) (x : Q),
      rounding rnd ->
      (0 <= Double.normalizeDegrees rnd (Num x)
       /\ Double.normalizeDegrees rnd (Num x) <= 360)
      /\ (0 <= x -> x < 360 -> Double.normalizeDegrees rnd (Num x) == x)
      /\ (Double.normalizeDegrees rnd (Num x) < 360 ->
          Double.normalizeDegrees rnd (Num (Double.normalizeDegrees rnd (Num x)))
          == Double.normalizeDegrees rnd (Num x))
      /\ (Double.normalizeDegrees rnd (Num x) == 360 ->
          Double.normalizeDegrees rnd (Num (Double.normalizeDegrees rnd (Num x))) == 0))
  /\ (forall (rnd : Q -> Q) (n : jsnum),
         isFinite n = false -> Double.normalizeDegrees rnd n = 0)
  /\ Double.normalizeDegrees round64 (Num (round64 (-1 # 100000000000000000))) == 360.
Proof.
  split; [|split].
  - intros rnd x Hrnd.
    assert (Hfix : forall y, 0 <= y -> y < 360 -> Double.normalizeDegrees rnd (Num y) == y).
    { intros y Hy0 Hy1. unfold Double.normalizeDegrees.
      pose proof (jsrem_small y Hy0 Hy1) as Hs.
      destruct (Qlt_le_dec (jsrem y 360) 0); [lra|exact Hs]. }
    pose proof (normalizeDegrees_double_bounds rnd Hrnd x) as [H0 H1].
    split; [split; assumption|]. split; [apply Hfix|]. split.
    + intros Hlt. apply Hfix; assumption.
    + intros Heq. unfold Double.normalizeDegrees at 1.
      pose proof (jsrem_full_turn _ Heq) as Hz.
      destruct (Qlt_le_dec (jsrem (Double.normalizeDegrees rnd (Num x)) 360) 0);
        [lra|exact Hz].
  - intros rnd n Hn. destruct n; [discriminate|reflexivity..].
  - vm_compute. reflexivity.
Qed.

(** X11. In double arithmetic [normalizeWheelArc] answers an arc whose
    ends lie in the closed interval from 0 to 360 and whose spread is not
    negative; metadata without a [wheel_arc] gives the default arc, 330
    to 30 degrees anticlockwise with spread 4.  An end can be 360 itself:
    a raw [start_degrees] of -1e-17 gives 360. *)
Theorem normalizeWheelArc_double_range :
  (forall (rnd : Q -> Q) (meta : AlgorithmMeta),
      rounding rnd ->
      (0 <= start_degrees (Double.normalizeWheelArc rnd meta)
       /\ start_degrees (Double.normalizeWheelArc rnd meta) <= 360)
      /\ (0 <= end_degrees (Double.normalizeWheelArc rnd meta)
          /\ end_degrees (Double.normalizeWheelArc rnd meta) <= 360)
      /\ 0 <= phase_spread_degrees (Double.normalizeWheelArc rnd meta))
  /\ (forall (rnd : Q -> Q) (meta : AlgorithmMeta),
         wheel_arc meta = None -> Double.normalizeWheelArc rnd meta = DEFAULT_WHEEL_ARC)
  /\ (start_degrees DEFAULT_WHEEL_ARC == 330 /\ end_degrees DEFAULT_WHEEL_ARC == 30
      /\ direction DEFAULT_WHEEL_ARC = anticlockwise
      /\ phase_spread_degrees DEFAULT_WHEEL_ARC == 4)
  /\ start_degrees
       (Double.normalizeWheelArc round64
          {| wheel_arc :=
               Some {| raw_start_degrees := Some (round64 (-1 # 100000000000000000));
                       raw_end_degrees := None; raw_direction := "";
                       raw_phase_spread_degrees := None |};
             auto_start_on_card := "" |}) == 360.
Proof.
  split; [|split; [|split]].
  - intros rnd meta Hrnd. unfold Double.normalizeWheelArc.
    destruct (wheel_arc meta) as [raw|]; cbn [start_degrees end_degrees phase_spread_degrees].
    + split; [|split].
      * destruct (raw_start_degrees raw);
          [apply normalizeDegrees_double_bounds; exact Hrnd|cbn; lra].
      * destruct (raw_end_degrees raw);
          [apply normalizeDegrees_double_bounds; exact Hrnd|cbn; lra].
      * destruct (raw_phase_spread_degrees raw); [apply Q.le_max_l|cbn; lra].
    + cbn. repeat split; lra.
  - intros rnd meta Hnone. unfold Double.normalizeWheelArc. rewrite Hnone. reflexivity.
  - cbn. repeat split; reflexivity.
  - vm_compute. reflexivity.
Qed.

(** ** Where the anchors sit *)

Lemma jsrem_wd (x y : Q) : x == y -> jsrem x 360 == jsrem y 360.
Proof.
  intros Hxy. unfold jsrem, Qtrunc.
  assert (Hd : x / 360 == y / 360) by (rewrite Hxy; reflexivity).
  destruct (Qlt_le_dec (x / 360) 0) as [Hx|Hx];
    destruct (Qlt_le_dec (y / 360) 0) as [Hy|Hy]; try lra.
  - rewrite (Qceiling_comp _ _ Hd). lra.
  - rewrite (Qfloor_comp _ _ Hd). lra.
Qed.

Lemma angleOnArc_double_bounds (rnd : Q -> Q) (arc : WheelArc) (ratio : Q) :
  rounding rnd ->
  0 <= Double.angleOnArc rnd arc ratio /\ Double.angleOnArc rnd arc ratio <= 360.
Proof.
  intros Hrnd. unfold Double.angleOnArc.
  destruct (direction arc);
    match goal with
    | |- context [Qlt_le_dec (jsrem ?n 360) 0] =>
        pose proof (jsrem_360_bounds n) as [Hlo Hhi];
        destruct (Qlt_le_dec (jsrem n 360) 0) as [Hneg|Hpos]; [|split; lra];
        apply (rnd_between rnd Hrnd 0 360);
          [reflexivity|reflexivity|unfold inject_Z; lra|unfold inject_Z; lra]
    end.
Qed.

Lemma angleOnArc_double_start (rnd : Q -> Q) (arc : WheelArc) (ratio : Q) :
  rounding rnd -> ratio <= 0 ->
  0 <= start_degrees arc -> start_degrees arc < 360 ->
  rnd (start_degrees arc) == start_degrees arc ->
  Double.angleOnArc rnd arc ratio == start_degrees arc.
Proof.
  intros Hrnd Hr H0 H1 Hfix.
  assert (Ht : Qmax 0 (Qmin 1 ratio) == 0).
  { apply Q.max_l. apply Qle_trans with ratio; [apply Q.le_min_r|exact Hr]. }
  destruct Hrnd as (Hwd & _ & Hint).
  assert (Hz : rnd 0 == 0) by (apply (Hint 0%Z); reflexivity).
  assert (Hp : forall d, rnd (d * Qmax 0 (Qmin 1 ratio)) == 0).
  { intros d. apply Qeq_trans with (rnd 0); [|exact Hz].
    apply Hwd. rewrite Ht. ring. }
  assert (Hm : forall n, n == start_degrees arc ->
                         jsrem (rnd n) 360 == start_degrees arc).
  { intros n Hn.
    apply Qeq_trans with (jsrem (start_degrees arc) 360);
      [|apply jsrem_small; assumption].
    apply jsrem_wd. apply Qeq_trans with (rnd (start_degrees arc)); [|exact Hfix].
    apply Hwd. exact Hn. }
  unfold Double.angleOnArc. cbv zeta.
  destruct (direction arc).
  - match goal with
    | |- context [Qlt_le_dec (jsrem (rnd ?n) 360) 0] =>
        assert (Hn : n == start_degrees arc) by (rewrite Hp; ring);
        pose proof (Hm n Hn) as Hmod;
        destruct (Qlt_le_dec (jsrem (rnd n) 360) 0); [lra|exact Hmod]
    end.
  - match goal with
    | |- context [Qlt_le_dec (jsrem (rnd ?n) 360) 0] =>
        assert (Hn : n == start_degrees arc) by (rewrite Hp; ring);
        pose proof (Hm n Hn) as Hmod;
        destruct (Qlt_le_dec (jsrem (rnd n) 360) 0); [lra|exact Hmod]
    end.
Qed.


Lemma getCurrentWheelArc_double_start (rnd : Q -> Q) (env : Env) :
  rounding rnd ->
  0 <= start_degrees (Double.getCurrentWheelArc rnd env)
  /\ start_degrees (Double.getCurrentWheelArc rnd env) <= 360.
Proof.
  intros Hrnd. unfold Double.getCurrentWheelArc, Double.normalizeWheelArc.
  destruct (wheel_arc (algorithm_meta (RUNTIME_ALGORITHM env))) as [raw|];
    cbn [start_degrees]; [|cbn; split; lra].
  destruct (raw_start_degrees raw);
    [apply normalizeDegrees_double_bounds; exact Hrnd|cbn; split; lra].
Qed.

Lemma computeAnchors_double_angle (rnd : Q -> Q) (env : Env) (s : AppState)
      (i : nat) (a : Anchor) :
  Double.computeAnchors rnd env s !! i = Some a ->
  anchor_angle a =
  if decide (length (computeForwardPath env s) = 1%nat)
  then start_degrees (Double.getCurrentWheelArc rnd env)
  else Double.angleOnArc rnd (Double.getCurrentWheelArc rnd env)
         (rnd (inject_Z (Z.of_nat i)
               / inject_Z (Z.of_nat (length (computeForwardPath env s)) - 1))).
Proof.
  unfold Double.computeAnchors.
  destruct (computeForwardPath env s) as [|x [|y rest]] eqn:Hp.
  - intros H. rewrite lookup_nil in H. discriminate.
  - destruct i as [|i]; [|intros H; rewrite lookup_cons_ne_0, lookup_nil in H by lia; discriminate].
    intros [= <-]. reflexivity.
  - intros H. rewrite list_lookup_imap in H.
    destruct ((x :: y :: rest) !! i) as [c|]; [|discriminate].
    injection H as <-. reflexivity.
Qed.

(** X12. In double arithmetic [angleOnArc] answers an angle of the closed
    interval from 0 to 360, and at a ratio of 0 or less the start of the
    arc, when that start is a double of [[0,360)].  The end of the arc
    is not always reached at ratio 1: on the clockwise arc from 0 to 1.1
    the answer is 1.1000000000000227.  The value 360 itself is reached:
    on the anticlockwise arc from 60 to 250 at ratio 6/17. *)
Theorem angleOnArc_double_range :
  (forall (rnd : Q -> Q) (arc : WheelArc) (ratio : Q),
      rounding rnd ->
      (0 <= Double.angleOnArc rnd arc ratio /\ Double.angleOnArc rnd arc ratio <= 360)
      /\ (ratio <= 0 ->
          0 <= start_degrees arc -> start_degrees arc < 360 ->
          rnd (start_degrees arc) == start_degrees arc ->
          Double.angleOnArc rnd arc ratio == start_degrees arc))
  /\ (let arc := {| start_degrees := 0; end_degrees := round64 (11 # 10);
                    direction := clockwise; phase_spread_degrees := 4 |} in
      end_degrees arc < Double.angleOnArc round64 arc 1)
  /\ Double.angleOnArc round64
       {| start_degrees := 60; end_degrees := 250;
          direction := anticlockwise; phase_spread_degrees := 4 |}
       (round64 (6 # 17)) == 360.
Proof.
  split; [|split].
  - intros rnd arc ratio Hrnd. split.
    + pose proof Hrnd as (_ & Hmono & Hint).
      unfold Double.angleOnArc.
      destruct (direction arc);
        match goal with
        | |- context [Qlt_le_dec (jsrem ?n 360) 0] =>
            pose proof (jsrem_360_bounds n) as [Hlo Hhi];
            destruct (Qlt_le_dec (jsrem n 360) 0) as [Hneg|Hpos]; [|split; lra]
        end.
      * split.
        -- apply Qle_trans with (rnd (inject_Z 0)); [rewrite (Hint 0%Z); [apply Qle_refl|reflexivity]|].
           apply Hmono. unfold inject_Z. lra.
        -- apply Qle_trans with (rnd (inject_Z 360)); [apply Hmono; unfold inject_Z; lra|].
           rewrite (Hint 360%Z); [apply Qle_refl|reflexivity].
      * split.
        -- apply Qle_trans with (rnd (inject_Z 0)); [rewrite (Hint 0%Z); [apply Qle_refl|reflexivity]|].
           apply Hmono. unfold inject_Z. lra.
        -- apply Qle_trans with (rnd (inject_Z 360)); [apply Hmono; unfold inject_Z; lra|].
           rewrite (Hint 360%Z); [apply Qle_refl|reflexivity].
    + intros Hr H0 H1 Hfix. apply angleOnArc_double_start; assumption.
  - vm_compute. reflexivity.
  - vm_compute. reflexivity.
Qed.

Lemma angleOnArc_double_range_witness :
  Double.angleOnArc round64 DEFAULT_WHEEL_ARC 0 == start_degrees DEFAULT_WHEEL_ARC.
Proof.
  refine (proj2 (proj1 angleOnArc_double_range round64 DEFAULT_WHEEL_ARC 0 _) _ _ _ _).
  - exact round64_rounding.
  - vm_compute. discriminate.
  - vm_compute. discriminate.
  - vm_compute. reflexivity.
  - vm_compute. reflexivity.
Defined.

(** X13. In double arithmetic the anchors carry the ids of the forward
    path in its order, every anchor angle lies in the closed interval
    from 0 to 360, and the first anchor sits on the start of the arc,
    when that start is a double below 360. *)
Theorem anchors_double_span (rnd : Q -> Q) (env : Env) (s : AppState) :
  rounding rnd ->
  anchor_id <$> Double.computeAnchors rnd env s = computeForwardPath env s
  /\ (forall i a, Double.computeAnchors rnd env s !! i = Some a ->
                  0 <= anchor_angle a /\ anchor_angle a <= 360)
  /\ (forall a, Double.computeAnchors rnd env s !! 0%nat = Some a ->
                start_degrees (Double.getCurrentWheelArc rnd env) < 360 ->
                rnd (start_degrees (Double.getCurrentWheelArc rnd env))
                == start_degrees (Double.getCurrentWheelArc rnd env) ->
                anchor_angle a == start_degrees (Double.getCurrentWheelArc rnd env)).
Proof.
  intros Hrnd. split; [|split].
  - unfold Double.computeAnchors.
    destruct (computeForwardPath env s) as [|x [|y rest]]; [reflexivity..|].
    apply imap_anchor_ids. reflexivity.
  - intros i a Hi. rewrite (computeAnchors_double_angle rnd env s i a Hi).
    destruct (decide (length (computeForwardPath env s) = 1%nat)).
    + apply getCurrentWheelArc_double_start. exact Hrnd.
    + apply angleOnArc_double_bounds. exact Hrnd.
  - intros a Ha Hlt Hfix. rewrite (computeAnchors_double_angle rnd env s 0 a Ha).
    destruct (decide (length (computeForwardPath env s) = 1%nat)); [reflexivity|].
    pose proof (getCurrentWheelArc_double_start rnd env Hrnd) as [H0 _].
    apply angleOnArc_double_start; try assumption.
    pose proof Hrnd as (Hwd & _ & Hint).
    apply Qle_trans with (rnd 0).
    + apply Qle_lteq. right. apply Hwd.
      change (inject_Z (Z.of_nat 0)) with 0. unfold Qdiv. ring.
    + apply Qle_lteq. right. apply (Hint 0%Z). reflexivity.
Qed.

Lemma anchors_double_span_witness :
  anchor_id <$> Double.computeAnchors round64 (Samples.envOf Samples.nestedDeck)
                  (Samples.stateAt "S" [] ∅ 0 false)
  = computeForwardPath (Samples.envOf Samples.nestedDeck)
      (Samples.stateAt "S" [] ∅ 0 false)
  /\ anchor_angle {| anchor_id := "S"; anchor_angle := 330 |}
     == start_degrees (Double.getCurrentWheelArc round64 (Samples.envOf Samples.nestedDeck)).
Proof.
  split.
  - refine (proj1 (anchors_double_span round64 (Samples.envOf Samples.nestedDeck)
                     (Samples.stateAt "S" [] ∅ 0 false) _)).
    exact round64_rounding.
  - refine (proj2 (proj2 (anchors_double_span round64 (Samples.envOf Samples.nestedDeck)
                            (Samples.stateAt "S" [] ∅ 0 false) _)) _ _ _ _).
    + exact round64_rounding.
    + vm_compute. reflexivity.
    + vm_compute. reflexivity.
    + vm_compute. reflexivity.
Defined.

Lemma computeAnchors_length (env : Env) (s : AppState) :
  length (computeAnchors env s) = length (computeForwardPath env s).
Proof. rewrite <- (length_fmap anchor_id), computeAnchors_ids. reflexivity. Qed.

(** ** The shape of the forward path *)



(** ** Locating the current card among the anchors *)

Open Scope Z_scope.

Lemma findIndexFrom_spec (p : Anchor -> bool) (l : list Anchor) :
  forall i : Z,
    0 <= i ->
    (findIndexFrom p l i = -1 /\ Forall (fun a => p a = false) l)
    \/ (exists (k : nat) (a : Anchor),
           l !! k = Some a /\ p a = true
           /\ findIndexFrom p l i = i + Z.of_nat k).
Proof.
  induction l as [|a l IH]; intros i Hi; cbn [findIndexFrom].
  - left. split; [reflexivity|constructor].
  - destruct (p a) eqn:Hp.
    + right. exists 0%nat, a. repeat split; [assumption|lia].
    + destruct (IH (i + 1)) as [[Hnone Hall]|(k & b & Hk & Hb & Hfound)]; [lia|..].
      * left. split; [exact Hnone|constructor; assumption].
      * right. exists (S k), b. repeat split; [assumption..|lia].
Qed.

Lemma syncAnchors_index (env : Env) (s : AppState) :
  anchors (syncAnchors env s) = computeAnchors env s
  /\ (((currentId s ∉ computeForwardPath env s)
       /\ anchorIndex (syncAnchors env s)
          = Z.max 0 (Z.of_nat (length (computeForwardPath env s)) - 1))
      \/ (exists (k : nat) (a : Anchor),
             computeAnchors env s !! k = Some a
             /\ anchor_id a = currentId s
             /\ anchorIndex (syncAnchors env s) = Z.of_nat k)).
Proof.
  pose proof (computeAnchors_ids env s) as Hids.
  pose proof (computeAnchors_length env s) as Hlen.
  unfold syncAnchors, findAnchorIndex. cbv zeta.
  cbn [anchors currentId set_anchors].
  destruct (findIndexFrom_spec (fun a => String.eqb (anchor_id a) (currentId s))
              (computeAnchors env s) 0) as [[Hnone Hall]|(k & a & Hk & Ha & Hfound)]; [lia|..].
  - rewrite Hnone. cbn [Z.leb Z.compare]. cbn [anchors anchorIndex set_anchors set_anchorIndex].
    split; [reflexivity|]. left. split; [|rewrite Hlen; reflexivity].
    rewrite <- Hids. intros Hin. apply list_elem_of_fmap in Hin as (a & Heq & Hin).
    rewrite Forall_forall in Hall. specialize (Hall a Hin). cbn in Hall.
    apply String.eqb_neq in Hall. congruence.
  - rewrite Hfound. rewrite Z.add_0_l.
    destruct (Z.leb_spec 0 (Z.of_nat k)) as [_|Hneg]; [|lia].
    cbn [anchors anchorIndex set_anchors set_anchorIndex].
    apply String.eqb_eq in Ha.
    split; [reflexivity|]. right. exists k, a. repeat split; assumption.
Qed.

Lemma syncAnchors_found (env : Env) (s : AppState) :
  currentId s ∈ computeForwardPath env s ->
  exists a, js_index (anchors (syncAnchors env s)) (anchorIndex (syncAnchors env s)) = Some a
            /\ anchor_id a = currentId s.
Proof.
  intros Hin.
  destruct (syncAnchors_index env s) as [Ha [[Hnot _]|(k & a & Hk & Hid & Hidx)]];
    [contradiction|].
  exists a. split; [|exact Hid].
  rewrite Ha, Hidx. unfold js_index.
  destruct (Z.ltb_spec (Z.of_nat k) 0); [lia|].
  rewrite Nat2Z.id. exact Hk.
Qed.

(** X16. [syncAnchors] stores the anchors of the forward path and points
    [anchorIndex] at the anchor of the current card when that card is on
    the path; otherwise it falls back to the last anchor.  Either way
    the index is a valid position whenever there are anchors. *)
Theorem syncAnchors_locates_current (env : Env) (s : AppState) :
  anchors (syncAnchors env s) = computeAnchors env s
  /\ (currentId s ∈ computeForwardPath env s ->
      exists a, js_index (anchors (syncAnchors env s)) (anchorIndex (syncAnchors env s)) = Some a
                /\ anchor_id a = currentId s)
  /\ (currentId s ∉ computeForwardPath env s ->
      anchorIndex (syncAnchors env s)
      = Z.max 0 (Z.of_nat (length (computeForwardPath env s)) - 1))
  /\ 0 <= anchorIndex (syncAnchors env s)
  /\ (computeForwardPath env s <> [] ->
      anchorIndex (syncAnchors env s) < Z.of_nat (length (computeForwardPath env s))).
Proof.
  pose proof (computeAnchors_ids env s) as Hids.
  pose proof (computeAnchors_length env s) as Hlen.
  destruct (syncAnchors_index env s) as [Ha [[Hnot Hidx]|(k & a & Hk & Hid & Hidx)]].
  - split; [exact Ha|]. split; [intros Hin; contradiction|].
    split; [intros _; exact Hidx|]. rewrite Hidx. split; [lia|].
    intros Hne. destruct (computeForwardPath env s); [congruence|cbn [length]; lia].
  - pose proof (lookup_lt_Some _ _ _ Hk) as Hlt. rewrite Hlen in Hlt.
    assert (Hin : currentId s ∈ computeForwardPath env s).
    { rewrite <- Hids, <- Hid. apply list_elem_of_fmap. exists a.
      split; [reflexivity|]. eapply list_elem_of_lookup_2. exact Hk. }
    split; [exact Ha|]. split; [intros _; apply syncAnchors_found; exact Hin|].
    split; [intros Hnot; contradiction|]. rewrite Hidx. split; lia.
Qed.

(** ** What [render] writes *)

Open Scope Q_scope.

Lemma setKnobPosition_frame (env : Env) (deg : Q) (s : AppState) :
  setKnobPosition env deg s
  = set_wheel (set_visualAngle (visualAngle (wheel (setKnobPosition env deg s))) (wheel s)) s.
Proof.
  unfold setKnobPosition. destruct (negb (dom_knob env)).
  - destruct s as [? ? ? ? ? ? ? ? ? ? ? ? ? [? ? ? ? ?]]. reflexivity.
  - reflexivity.
Qed.

Open Scope Z_scope.

Lemma forwardLoop_ext (env : Env) (s s' : AppState) (fuel : nat) :
  decisionRecords s' = decisionRecords s ->
  forall cardId V p, forwardLoop env s' fuel cardId V p = forwardLoop env s fuel cardId V p.
Proof.
  intros Hrec. induction fuel as [|fuel IH]; intros cardId V p; [reflexivity|].
  rewrite !forwardLoop_unfold. unfold forwardNext. rewrite Hrec.
  destruct (walkable (DECK env) cardId V); [|reflexivity].
  destruct (DECK env !! cardId) as [card|]; [|reflexivity].
  destruct (transitions card) as [[nx|opts|nx|]|]; try reflexivity; try apply IH.
  - destruct (decisionRecords s !! id card); apply IH.
  - destruct (String.eqb nx (id card)); [reflexivity|apply IH].
Qed.

Lemma computeAnchors_ext (env : Env) (s s' : AppState) :
  decisionRecords s' = decisionRecords s -> computeAnchors env s' = computeAnchors env s.
Proof.
  intros Hrec. unfold computeAnchors, computeForwardPath.
  rewrite (forwardLoop_ext env s s' _ Hrec). reflexivity.
Qed.

Lemma syncAnchors_wheel (env : Env) (s : AppState) : wheel (syncAnchors env s) = wheel s.
Proof. unfold syncAnchors. cbv zeta. destruct (0 <=? _); reflexivity. Qed.

(** X18. What [render] writes on a card of the deck: it sets the wheel
    mode to the mode of that card, stores the anchors of the forward
    path, and puts the wheel angle on the anchor of the current card when
    that card is on the path. *)
Theorem render_positions_the_wheel (env : Env) (s : AppState) (card : Card) :
  DECK env !! currentId s = Some card ->
  mode (wheel (render env s)) = computeWheelMode (Some card)
  /\ anchors (render env s) = computeAnchors env s
  /\ (currentId s ∈ computeForwardPath env s ->
      exists a, a ∈ computeAnchors env s /\ anchor_id a = currentId s
                /\ angle (wheel (render env s)) = anchor_angle a).
Proof.
  intros Hcard. unfold render. rewrite Hcard. cbv zeta.
  remember (set_wheel (set_mode (computeWheelMode (Some card)) (wheel s)) s) as s1 eqn:Hs1.
  assert (Hrec : decisionRecords s1 = decisionRecords s) by (subst s1; reflexivity).
  assert (Hcur : currentId s1 = currentId s) by (subst s1; reflexivity).
  assert (Hmode : mode (wheel s1) = computeWheelMode (Some card)) by (subst s1; reflexivity).
  pose proof (computeAnchors_ext env s s1 Hrec) as Hanch.
  assert (Hpath : computeForwardPath env s1 = computeForwardPath env s).
  { rewrite <- !computeAnchors_ids, Hanch. reflexivity. }
  pose proof (proj1 (syncAnchors_index env s1)) as Ha.
  pose proof (syncAnchors_found env s1) as Hon.
  rewrite Hanch in Ha. rewrite Hpath, Hcur in Hon.
  pose proof (syncAnchors_wheel env s1) as Hw2.
  remember (syncAnchors env s1) as s2 eqn:Hs2.
  remember (set_wheel (set_angle (currentAnchorAngle env s2) (wheel s2)) s2) as s3 eqn:Hs3.
  assert (Hang3 : angle (wheel s3) = currentAnchorAngle env s2) by (subst s3; reflexivity).
  assert (Hmode3 : mode (wheel s3) = computeWheelMode (Some card)).
  { subst s3. cbn. rewrite Hw2. exact Hmode. }
  assert (Hanch3 : anchors s3 = computeAnchors env s) by (subst s3; exact Ha).
  pose proof (setKnobPosition_frame env (angle (wheel s3)) s3) as Hframe.
  remember (setKnobPosition env (angle (wheel s3)) s3) as F eqn:HF.
  assert (HFmode : mode (wheel F) = mode (wheel s3)) by (rewrite Hframe; reflexivity).
  assert (HFangle : angle (wheel F) = angle (wheel s3)) by (rewrite Hframe; reflexivity).
  assert (HFanch : anchors F = anchors s3) by (rewrite Hframe; reflexivity).
  rewrite HFmode, HFangle, HFanch, Hmode3, Hang3, Hanch3.
  split; [reflexivity|]. split; [reflexivity|].
  intros Hin. destruct (Hon Hin) as (a & Hjs & Hid).
  exists a. split; [|split; [exact Hid|]].
  - unfold js_index in Hjs. destruct (_ <? 0); [discriminate|].
    rewrite Ha in Hjs. eapply list_elem_of_lookup_2. exact Hjs.
  - unfold currentAnchorAngle. rewrite Hjs.
    assert (Hlt : 0 <= anchorIndex s2 < Z.of_nat (length (anchors s2))).
    { unfold js_index in Hjs. destruct (Z.ltb_spec (anchorIndex s2) 0); [discriminate|].
      apply lookup_lt_Some in Hjs. lia. }
    destruct (Z.leb_spec 0 (anchorIndex s2)); [|lia].
    destruct (Z.ltb_spec (anchorIndex s2) (Z.of_nat (length (anchors s2)))); [|lia].
    reflexivity.
Qed.

(** ** Gestures *)

Open Scope Q_scope.

Lemma Qgtb_true (a b : Q) : Qgtb a b = true <-> b < a.
Proof. unfold Qgtb. destruct (Qlt_le_dec b a); split; intros; try lra; congruence. Qed.

Lemma Qltb_true (a b : Q) : Qltb a b = true <-> a < b.
Proof. unfold Qltb. destruct (Qlt_le_dec a b); split; intros; try lra; congruence. Qed.

Lemma Qgtb_false (a b : Q) : Qgtb a b = false <-> a <= b.
Proof. unfold Qgtb. destruct (Qlt_le_dec b a); split; intros; try lra; congruence. Qed.

Lemma Qltb_false (a b : Q) : Qltb a b = false <-> b <= a.
Proof. unfold Qltb. destruct (Qlt_le_dec a b); split; intros; try lra; congruence. Qed.


(** X19. Gesture classification.  With a threshold that is not negative
    (the default is 10 degrees) a drag is never both a forward and a
    reverse gesture, and a drag of at most the threshold in absolute
    value is neither; a forward gesture on an anticlockwise arc is a
    reverse gesture on a clockwise one, and mirroring the delta swaps the
    two. *)
Theorem gesture_classification (delta : Q) (arc : WheelArc) (threshold : option Q) :
  let t := match threshold with Some t => t | None => NAV_THRESHOLD_DEG end in
  (0 <= t ->
   (isForwardGesture delta arc threshold && isReverseGesture delta arc threshold)%bool = false)
  /\ (Qabs delta <= t ->
      isForwardGesture delta arc threshold = false
      /\ isReverseGesture delta arc threshold = false)
  /\ (forall arc', direction arc' <> direction arc ->
                   isForwardGesture delta arc' threshold = isReverseGesture delta arc threshold)
  /\ isForwardGesture (- delta) arc threshold = isReverseGesture delta arc threshold.
Proof.
  intros t. unfold isForwardGesture, isReverseGesture. fold t.
  split; [|split; [|split]].
  - intros Ht. destruct (direction arc);
      destruct (Qgtb delta t) eqn:Hg; destruct (Qltb delta (- t)) eqn:Hl;
      try reflexivity;
      apply Qgtb_true in Hg; apply Qltb_true in Hl; lra.
  - intros Habs. apply Qabs_Qle_condition in Habs as [Hlo Hhi].
    destruct (direction arc); split;
      first [apply Qgtb_false; lra | apply Qltb_false; lra].
  - intros arc' Hdir.
    destruct (direction arc), (direction arc'); try congruence; reflexivity.
  - destruct (direction arc).
    + destruct (Qgtb (- delta) t) eqn:Hg; destruct (Qltb delta (- t)) eqn:Hl;
        try reflexivity;
        first [apply Qgtb_true in Hg | apply Qgtb_false in Hg];
        first [apply Qltb_true in Hl | apply Qltb_false in Hl]; lra.
    + destruct (Qltb (- delta) (- t)) eqn:Hl; destruct (Qgtb delta t) eqn:Hg;
        try reflexivity;
        first [apply Qgtb_true in Hg | apply Qgtb_false in Hg];
        first [apply Qltb_true in Hl | apply Qltb_false in Hl]; lra.
Qed.

(** ** Angle arithmetic *)


(** X21. [shortestAngularDistance] is symmetric, lies between 0 and 180
    degrees, and is 0 between an angle and itself. *)
Theorem shortestAngularDistance_metric (a b : Q) :
  shortestAngularDistance a b == shortestAngularDistance b a
  /\ (0 <= shortestAngularDistance a b /\ shortestAngularDistance a b <= 180)
  /\ shortestAngularDistance a a == 0.
Proof.
  unfold shortestAngularDistance.
  destruct (normalizeDegrees_range a) as [Ha0 Ha1].
  destruct (normalizeDegrees_range b) as [Hb0 Hb1].
  set (nA := normalizeDegrees (Num a)) in *.
  set (nB := normalizeDegrees (Num b)) in *.
  assert (Hsym : Qabs (nA - nB) == Qabs (nB - nA)).
  { rewrite <- (Qabs_opp (nB - nA)). apply Qabs_wd. ring. }
  assert (Hd0 : 0 <= Qabs (nA - nB)) by apply Qabs_nonneg.
  assert (Hd1 : Qabs (nA - nB) < 360) by (apply Qabs_Qlt_condition; split; lra).
  split; [|split].
  - destruct (Q.min_spec (Qabs (nA - nB)) (360 - Qabs (nA - nB))) as [[H1 H2]|[H1 H2]];
      destruct (Q.min_spec (Qabs (nB - nA)) (360 - Qabs (nB - nA))) as [[H3 H4]|[H3 H4]];
      rewrite H2, H4; lra.
  - destruct (Q.min_spec (Qabs (nA - nB)) (360 - Qabs (nA - nB))) as [[H1 H2]|[H1 H2]];
      rewrite H2; split; lra.
  - assert (Hz : Qabs (nA - nA) == 0).
    { assert (H0 : nA - nA == 0) by ring. rewrite (Qabs_wd _ _ H0). reflexivity. }
    destruct (Q.min_spec (Qabs (nA - nA)) (360 - Qabs (nA - nA))) as [[H1 H2]|[H1 H2]];
      rewrite H2; lra.
Qed.

(** ** Gestures and the navigation they trigger *)

Open Scope Z_scope.

Lemma resolveTransition_unconfirmed (env : Env) (src : string) (card : Card)
    (s s1 : AppState) (n : string) :
  resolveTransition env src false card s = Some (n, s1) -> s1 = s.
Proof.
  unfold resolveTransition.
  destruct (transitions card) as [[nx|opts|nx|]|]; try discriminate.
  - intros [= _ <-]. reflexivity.
  - destruct (Z.of_nat (length opts) =? 0); discriminate.
  - intros [= _ <-]. reflexivity.
Qed.

Lemma advance_unconfirmed_keeps_decisions (env : Env) (options : AdvanceOptions) (s : AppState) :
  advanceConfirmed options = false ->
  decisionRecords (snd (advance env options s)) = decisionRecords s
  /\ decisionTrail (snd (advance env options s)) = decisionTrail s.
Proof.
  intros Hconf.
  destruct (advance_inv env options s)
    as [Heq|[(card & n & s1 & _ & Hres & Heq)
            |(card & n & s1 & nc & _ & _ & Hres & _ & _ & Heq)]];
    rewrite Heq; cbn [snd]; [split; reflexivity|..];
    rewrite Hconf in Hres; apply resolveTransition_unconfirmed in Hres; subst s1.
  - split; reflexivity.
  - rewrite landOn_decisionRecords, landOn_decisionTrail. split; reflexivity.
Qed.

Lemma rewind_keeps_decisions (env : Env) (s : AppState) :
  decisionRecords (snd (rewind env s)) = decisionRecords s
  /\ decisionTrail (snd (rewind env s)) = decisionTrail s.
Proof.
  destruct (rewind_outcome env s)
    as [[_ ->]|(p & _ & _ & _ & _ & _ & _ & _ & _ & Hrec & Htrail)]; split; auto.
Qed.

Lemma setKnobPosition_keeps (env : Env) (deg : Q) (s : AppState) :
  currentId (setKnobPosition env deg s) = currentId s
  /\ history (setKnobPosition env deg s) = history s
  /\ decisionRecords (setKnobPosition env deg s) = decisionRecords s
  /\ decisionTrail (setKnobPosition env deg s) = decisionTrail s
  /\ navConsumed (wheel (setKnobPosition env deg s)) = navConsumed (wheel s)
  /\ dragOrigin (wheel (setKnobPosition env deg s)) = dragOrigin (wheel s).
Proof.
  unfold setKnobPosition. destruct (negb (dom_knob env)); repeat split; reflexivity.
Qed.


Lemma sameDecisions_refl (s : AppState) : sameDecisions s s.
Proof. split; reflexivity. Qed.

Lemma sameDecisions_trans (s s' s'' : AppState) :
  sameDecisions s s' -> sameDecisions s' s'' -> sameDecisions s s''.
Proof. intros [H1 H2] [H3 H4]. split; congruence. Qed.

Lemma sameDecisions_navConsumed (v : bool) (s s' : AppState) :
  sameDecisions s s' -> sameDecisions s (set_navConsumed v s').
Proof. intros H. exact H. Qed.

Lemma handleDecisionWheelDrag_untapped (env : Env) (delta : Q) (s : AppState) :
  decisionTapped s = false -> sameDecisions s (handleDecisionWheelDrag env delta s).
Proof.
  intros Htap. unfold handleDecisionWheelDrag.
  destruct (DECK env !! currentId s) as [card|]; [|apply sameDecisions_refl].
  destruct (transitions card) as [[nx|opts|nx|]|]; try apply sameDecisions_refl.
  rewrite Htap. cbn [andb].
  destruct (isReverseGesture delta (getCurrentWheelArc env) None); [|apply sameDecisions_refl].
  pose proof (rewind_keeps_decisions env s) as Hrw.
  destruct (rewind env s) as [moved s']. cbn [snd] in Hrw.
  destruct moved; exact Hrw.
Qed.

(** X23. Only a tapped decision can be committed.  While [decisionTapped]
    is false, no gesture writes a committed choice or a trail entry:
    not a knob drag or its release, not the release of a zone drag, not
    the release of a decision drag (which then does nothing at all), not
    a tap on the wheel or on the knob.  Zone drags and taps never write
    them in any state. *)
Theorem untapped_decisions_stay_uncommitted (env : Env) (s : AppState) :
  (decisionTapped s = false ->
   (forall pointer dragging,
       sameDecisions s (snd (onKnobDrag env pointer (dragging, s))))
   /\ (forall dy dragging, snd (endDecisionDrag env dy (dragging, s)) = s))
  /\ (forall dragging, sameDecisions s (snd (endKnobDrag env (dragging, s))))
  /\ (forall clientY drag, sameDecisions s (snd (onPointerUp env clientY drag s)))
  /\ (forall onKnob, sameDecisions s (wheelTap env onKnob s))
  /\ sameDecisions s (knobTap env s).
Proof.
  assert (Hadv : forall src s', sameDecisions s s' ->
             sameDecisions s (snd (advance env {| opt_source := src; splitConfirmed := false |} s'))
             \/ src = "automation"%string).
  { intros src s' Hs'.
    destruct (String.eqb_spec (advanceSource {| opt_source := src; splitConfirmed := false |})
                "automation") as [Heq|Hne].
    - right. unfold advanceSource in Heq. cbn in Heq.
      destruct (truthy src); [exact Heq|discriminate].
    - left. eapply sameDecisions_trans; [exact Hs'|].
      apply advance_unconfirmed_keeps_decisions.
      unfold advanceConfirmed. cbn [splitConfirmed orb].
      apply String.eqb_neq. exact Hne. }
  assert (Hrw : forall s', sameDecisions s s' -> sameDecisions s (snd (rewind env s'))).
  { intros s' Hs'. eapply sameDecisions_trans; [exact Hs'|apply rewind_keeps_decisions]. }
  assert (Hknob : forall deg s', sameDecisions s s' ->
                    sameDecisions s (setKnobPosition env deg s')).
  { intros deg s' Hs'. eapply sameDecisions_trans; [exact Hs'|].
    destruct (setKnobPosition_keeps env deg s') as (_ & _ & H1 & H2 & _). split; assumption. }
  split; [|split; [|split; [|split]]].
  - intros Htap. split.
    + intros pointer dragging. unfold onKnobDrag.
      destruct (negb dragging); [apply sameDecisions_refl|].
      destruct (DECK env !! currentId s) as [card|]; [|apply sameDecisions_refl].
      cbv zeta.
      set (s0 := match dragOrigin (wheel s) with
                 | Some _ => s
                 | None => set_dragOrigin (Some (clampAngleToArc pointer (getCurrentWheelArc env))) s
                 end).
      assert (Hs0 : sameDecisions s s0)
        by (subst s0; destruct (dragOrigin (wheel s)); split; reflexivity).
      assert (Htap0 : decisionTapped s0 = false)
        by (subst s0; destruct (dragOrigin (wheel s)); exact Htap).
      destruct (navConsumed (wheel s0)); [exact Hs0|].
      destruct (mode (wheel s0));
        repeat match goal with
               | |- context [if ?c then _ else _] => destruct c
               end; cbn [snd];
        try (apply sameDecisions_navConsumed);
        try (apply Hrw; exact Hs0);
        try (apply Hknob; exact Hs0);
        try (destruct (Hadv "wheel-drag"%string s0 Hs0) as [H|H]; [exact H|discriminate]).
      eapply sameDecisions_trans; [exact Hs0|].
      apply handleDecisionWheelDrag_untapped. exact Htap0.
    + intros dy dragging. unfold endDecisionDrag.
      destruct (negb dragging); [reflexivity|].
      rewrite Htap, andb_false_r. reflexivity.
  - intros dragging. unfold endKnobDrag.
    destruct (negb dragging); [apply sameDecisions_refl|].
    cbv zeta. cbn [snd]. apply Hknob. split; reflexivity.
  - intros clientY drag. unfold onPointerUp.
    destruct (negb (active drag)); [apply sameDecisions_refl|].
    cbv zeta.
    destruct (drag_direction drag) as [[|]|].
    + destruct (Qgtb _ _); [|apply sameDecisions_refl].
      destruct (Hadv "zone-drag"%string s (sameDecisions_refl s)) as [H|H]; [|discriminate].
      destruct (advance env _ s) as [committed s']. exact H.
    + destruct (Qltb _ _); [|apply sameDecisions_refl].
      pose proof (Hrw s (sameDecisions_refl s)) as H.
      destruct (rewind env s) as [committed s']. exact H.
    + apply sameDecisions_refl.
  - intros onKnob. unfold wheelTap.
    destruct onKnob; [apply sameDecisions_refl|].
    destruct (negb _); [apply sameDecisions_refl|].
    destruct (Hadv "wheel-tap"%string s (sameDecisions_refl s)) as [H|H]; [exact H|discriminate].
  - unfold knobTap.
    destruct (negb _); [apply sameDecisions_refl|].
    destruct (Hadv "knob-tap"%string s (sameDecisions_refl s)) as [H|H]; [exact H|discriminate].
Qed.

(** X24. One navigation per drag.  Once a knob drag has consumed its
    navigation, further pointer moves change nothing but possibly a
    missing drag origin; and whenever a pointer move does change the
    current card or the history, the drag is marked as consumed. *)
Theorem knob_drag_navigates_once (env : Env) (pointer : Q) (dragging : bool) (s : AppState) :
  (navConsumed (wheel s) = true ->
   fst (onKnobDrag env pointer (dragging, s)) = dragging
   /\ (snd (onKnobDrag env pointer (dragging, s)) = s
       \/ dragOrigin (wheel s) = None
          /\ snd (onKnobDrag env pointer (dragging, s))
             = set_dragOrigin (Some (clampAngleToArc pointer (getCurrentWheelArc env))) s))
  /\ (currentId (snd (onKnobDrag env pointer (dragging, s))) <> currentId s
      \/ history (snd (onKnobDrag env pointer (dragging, s))) <> history s ->
      navConsumed (wheel (snd (onKnobDrag env pointer (dragging, s)))) = true).
Proof.
  split.
  - intros Hcons. unfold onKnobDrag.
    destruct (negb dragging); [split; [reflexivity|left; reflexivity]|].
    destruct (DECK env !! currentId s) as [card|]; [|split; [reflexivity|left; reflexivity]].
    cbv zeta. destruct (dragOrigin (wheel s)) eqn:Ho.
    + rewrite Hcons. split; [reflexivity|left; reflexivity].
    + cbn [wheel set_dragOrigin set_wheel navConsumed set_drag]. rewrite Hcons.
      split; [reflexivity|right; split; reflexivity].
  - unfold onKnobDrag.
    destruct (negb dragging); [cbn [snd]; intros [H|H]; congruence|].
    destruct (DECK env !! currentId s) as [card|]; [|cbn [snd]; intros [H|H]; congruence].
    cbv zeta.
    set (s0 := match dragOrigin (wheel s) with
               | Some _ => s
               | None => set_dragOrigin (Some (clampAngleToArc pointer (getCurrentWheelArc env))) s
               end).
    assert (Hc0 : currentId s0 = currentId s)
      by (subst s0; destruct (dragOrigin (wheel s)); reflexivity).
    assert (Hh0 : history s0 = history s)
      by (subst s0; destruct (dragOrigin (wheel s)); reflexivity).
    rewrite <- Hc0, <- Hh0.
    assert (Hknob : forall deg,
               currentId (setKnobPosition env deg s0) <> currentId s0
               \/ history (setKnobPosition env deg s0) <> history s0 ->
               navConsumed (wheel (setKnobPosition env deg s0)) = true).
    { intros deg. destruct (setKnobPosition_keeps env deg s0) as (H1 & H2 & _).
      intros [H|H]; congruence. }
    destruct (navConsumed (wheel s0)) eqn:Hcons; [cbn [snd]; intros _; exact Hcons|].
    destruct (mode (wheel s0));
      repeat match goal with
             | |- context [if ?c then _ else _] => destruct c
             end; cbn [snd]; try (intros _; reflexivity); try apply Hknob.
    unfold handleDecisionWheelDrag.
    destruct (DECK env !! currentId s0) as [c|]; [|intros [H|H]; congruence].
    destruct (transitions c) as [[nx|opts|nx|]|]; try (intros [H|H]; congruence).
    destruct (isReverseGesture _ _ _).
    + destruct (rewind_outcome env s0) as [[_ Heq]|(p & _ & Hmoved & _)].
      * rewrite Heq. intros [H|H]; congruence.
      * destruct (rewind env s0) as [moved s']. cbn [fst] in Hmoved. subst moved.
        intros _. reflexivity.
    + destruct (decisionTapped s0 && isForwardGesture _ _ _)%bool;
        [|intros [H|H]; congruence].
      destruct (advance_outcome env {| opt_source := "wheel-drag"; splitConfirmed := true |} s0)
        as [[Hmoved (Hc & Hh & _)]|[Hmoved _]];
        destruct (advance env _ s0) as [moved s']; cbn [fst snd] in *; subst moved.
      * intros [H|H]; congruence.
      * intros _. reflexivity.
Qed.


(** X26. Releasing the knob ends the drag: the drag origin and the
    consumed flag are cleared, the wheel angle goes back to the angle of
    the current anchor, and the navigation state is untouched.  Without
    a drag in progress the release does nothing. *)
Theorem endKnobDrag_snaps_back (env : Env) (s : AppState) :
  endKnobDrag env (false, s) = (false, s)
  /\ fst (endKnobDrag env (true, s)) = false
  /\ dragOrigin (wheel (snd (endKnobDrag env (true, s)))) = None
  /\ navConsumed (wheel (snd (endKnobDrag env (true, s)))) = false
  /\ angle (wheel (snd (endKnobDrag env (true, s)))) = currentAnchorAngle env s
  /\ currentId (snd (endKnobDrag env (true, s))) = currentId s
  /\ history (snd (endKnobDrag env (true, s))) = history s
  /\ decisionIndex (snd (endKnobDrag env (true, s))) = decisionIndex s
  /\ anchors (snd (endKnobDrag env (true, s))) = anchors s.
Proof.
  split; [reflexivity|]. unfold endKnobDrag. cbn [negb fst snd]. cbv zeta.
  set (s3 := set_wheel (set_angle _ _) _).
  assert (Hang : angle (wheel s3) = currentAnchorAngle env s) by reflexivity.
  pose proof (setKnobPosition_frame env (angle (wheel s3)) s3) as Hframe.
  split; [reflexivity|].
  split; [rewrite Hframe; reflexivity|]. split; [rewrite Hframe; reflexivity|].
  split; [rewrite Hframe; exact Hang|].
  rewrite Hframe. repeat split; reflexivity.
Qed.

(** X27. A zone drag commits only past the threshold, which is the zone
    height times 0.35 as doubles compute it.  A release no further than
    the threshold from where the drag began leaves the state alone and
    reports no commit; past it, the release does what [advance]
    (downwards, unconfirmed) or [rewind] (upwards) does.  Either way the
    drag is over afterwards, and a release without an active drag does
    nothing.  The computed threshold can lie below 35% of the height: for
    a zone 180 high it is below 63, so a release at exactly 63 commits. *)
Theorem zone_drag_threshold (rnd : Q -> Q) (env : Env) (clientY : Q) (drag : DragState)
    (s : AppState) :
  let dy := (rnd (clientY - startY drag))%Q in
  let threshold := (rnd (zoneHeight drag * Double.ZONE_THRESHOLD_RATIO rnd))%Q in
  (active drag = false -> Double.onPointerUp rnd env clientY drag s = (drag, false, s))
  /\ (active drag = true ->
      active (fst (fst (Double.onPointerUp rnd env clientY drag s))) = false
      /\ drag_direction (fst (fst (Double.onPointerUp rnd env clientY drag s))) = None
      /\ ((Qabs dy <= threshold)%Q ->
          snd (fst (Double.onPointerUp rnd env clientY drag s)) = false
          /\ snd (Double.onPointerUp rnd env clientY drag s) = s)
      /\ (drag_direction drag = Some DragAdvance ->
          (threshold < dy)%Q ->
          (snd (fst (Double.onPointerUp rnd env clientY drag s)),
           snd (Double.onPointerUp rnd env clientY drag s))
          = advance env {| opt_source := "zone-drag"; splitConfirmed := false |} s)
      /\ (drag_direction drag = Some DragRewind ->
          (dy < - threshold)%Q ->
          (snd (fst (Double.onPointerUp rnd env clientY drag s)),
           snd (Double.onPointerUp rnd env clientY drag s))
          = rewind env s))
  /\ (round64 (180 * Double.ZONE_THRESHOLD_RATIO round64) < 63)%Q.
Proof.
  intros dy threshold. split; [|split].
  - intros Ha. unfold Double.onPointerUp. rewrite Ha. reflexivity.
  - intros Ha. unfold Double.onPointerUp. rewrite Ha. cbn [negb]. cbv zeta.
    fold dy. fold threshold.
    split; [|split; [|split; [|split]]].
    + destruct (drag_direction drag) as [[|]|];
        repeat match goal with
               | |- context [if ?c then _ else _] => destruct c
               | |- context [let '(_, _) := ?x in _] => destruct x
               end; reflexivity.
    + destruct (drag_direction drag) as [[|]|];
        repeat match goal with
               | |- context [if ?c then _ else _] => destruct c
               | |- context [let '(_, _) := ?x in _] => destruct x
               end; reflexivity.
    + intros Habs. apply Qabs_Qle_condition in Habs as [Hlo Hhi].
      destruct (drag_direction drag) as [[|]|]; [| |split; reflexivity].
      * assert (Hg : Qgtb dy threshold = false) by (apply Qgtb_false; exact Hhi).
        rewrite Hg. split; reflexivity.
      * assert (Hl : Qltb dy (- threshold) = false) by (apply Qltb_false; exact Hlo).
        rewrite Hl. split; reflexivity.
    + intros Hdir Hgt. rewrite Hdir.
      assert (Hg : Qgtb dy threshold = true) by (apply Qgtb_true; exact Hgt).
      rewrite Hg. destruct (advance env _ s). reflexivity.
    + intros Hdir Hlt. rewrite Hdir.
      assert (Hl : Qltb dy (- threshold) = true) by (apply Qltb_true; exact Hlt).
      rewrite Hl. destruct (rewind env s). reflexivity.
  - vm_compute. reflexivity.
Qed.

(** ** The deck as the loader leaves it *)

Lemma normalizeOptions_spec (opts : list RawOption) :
  forall idx,
    Forall (fun o => truthy (raw_target_id o) = true) opts ->
    length (normalizeOptions idx opts) = length opts
    /\ Forall (fun o => truthy (target_id o) = true /\ truthy (label o) = true)
              (normalizeOptions idx opts)
    /\ target_id <$> normalizeOptions idx opts = raw_target_id <$> opts.
Proof.
  induction opts as [|o rest IH]; intros idx Hall; cbn [normalizeOptions].
  - repeat split; constructor.
  - inversion Hall as [|? ? Ho Hrest]; subst.
    destruct (IH (idx + 1) Hrest) as (Hlen & Hwf & Htargets).
    split; [cbn; rewrite Hlen; reflexivity|]. split.
    + constructor; [|exact Hwf]. cbn [target_id label]. split; [exact Ho|].
      destruct (truthy (raw_label o)) eqn:Hl; [exact Hl|reflexivity].
    + cbn. rewrite Htargets. reflexivity.
Qed.

Lemma filter_truthy_targets (opts : list RawOption) :
  Forall (fun o => truthy (raw_target_id o) = true)
         (List.filter (fun o => truthy (raw_target_id o)) opts).
Proof.
  apply Forall_forall. intros o Ho.
  apply list_elem_of_In, filter_In in Ho. tauto.
Qed.

Lemma normalizeTransitions_wf (card : RawCard) (nextCardId : option string) (t : Transition) :
  truthy (raw_id card) = true ->
  (forall n, nextCardId = Some n -> truthy n = true) ->
  normalizeTransitions card nextCardId = Some t ->
  loaderTransition t.
Proof.
  intros Hid Hnext. unfold normalizeTransitions.
  destruct (raw_transitions card) as [raw|].
  - cbv zeta.
    set (options := match raw_options raw with
                    | Some opts =>
                        if String.eqb (raw_type raw) "split"
                        then normalizeOptions 0
                               (List.filter (fun o => truthy (raw_target_id o)) opts)
                        else []
                    | None => []
                    end).
    assert (Hwf : Forall (fun o => truthy (target_id o) = true /\ truthy (label o) = true)
                         options).
    { subst options. destruct (raw_options raw) as [opts|]; [|constructor].
      destruct (String.eqb (raw_type raw) "split"); [|constructor].
      apply normalizeOptions_spec. apply filter_truthy_targets. }
    destruct (Z.ltb_spec 0 (Z.of_nat (length options))) as [Hpos|Hzero].
    + intros [= <-]. cbn. split; [|exact Hwf].
      intros Hnil. rewrite Hnil in Hpos. cbn in Hpos. lia.
    + destruct (String.eqb (raw_type raw) "self_loop").
      * intros [= <-]. cbn.
        destruct (truthy (raw_next_id raw)) eqn:Hn; [exact Hn|exact Hid].
      * match goal with
        | |- context [if truthy ?x then Some (TLinear ?x) else None] =>
            destruct (truthy x) eqn:Hl
        end; [|discriminate].
        intros [= <-]. exact Hl.
  - destruct (isTerminalLike card); [discriminate|].
    destruct nextCardId as [n|]; [|discriminate].
    intros [= <-]. cbn. apply Hnext. reflexivity.
Qed.

Lemma normalizeCards_wf (trim : string -> string) (cards : list RawCard) :
  Forall (fun c => truthy (raw_id c) = true) cards ->
  Forall (fun c => truthy (id c) = true
                   /\ forall t, transitions c = Some t -> loaderTransition t)
         (normalizeCards trim cards)
  /\ id <$> normalizeCards trim cards = raw_id <$> cards.
Proof.
  induction cards as [|card rest IH]; intros Hall; cbn [normalizeCards].
  - split; [constructor|reflexivity].
  - inversion Hall as [|? ? Hc Hrest]; subst.
    destruct (IH Hrest) as [Hwf Hids].
    split; [|cbn; rewrite Hids; reflexivity].
    constructor; [|exact Hwf]. cbn [id transitions]. split; [exact Hc|].
    intros t Ht. eapply normalizeTransitions_wf; [exact Hc| |exact Ht].
    intros n Hn. destruct rest as [|c' rest']; [discriminate|].
    cbn in Hn. injection Hn as <-. inversion Hrest; assumption.
Qed.

(** X28. For every raw deck whose ids, link targets and labels are
    strings or absent, the deck the loader answers has only cards with a
    non-empty id, in the order of the raw cards that have
    one, and only well-formed transitions: a linear or self-loop link
    has a non-empty target, a split has at least one option and every
    option has a non-empty target and label; no other kind of transition
    survives.  So every split card of a loaded deck is a split-decision
    card. *)
Theorem normalizeDeck_well_formed (trim : string -> string) (rawDeck : list RawCard) :
  Forall (fun c => truthy (id c) = true) (normalizeDeck trim rawDeck)
  /\ id <$> normalizeDeck trim rawDeck
     = List.filter (fun i => truthy i) (raw_id <$> rawDeck)
  /\ (forall c t, c ∈ normalizeDeck trim rawDeck -> transitions c = Some t ->
                  loaderTransition t)
  /\ (forall c opts, c ∈ normalizeDeck trim rawDeck ->
                     transitions c = Some (TSplit opts) ->
                     isSplitDecisionCard (Some c) = true).
Proof.
  unfold normalizeDeck.
  assert (Hf : Forall (fun c => truthy (raw_id c) = true)
                      (List.filter (fun card => truthy (raw_id card)) rawDeck)).
  { apply Forall_forall. intros c Hc. apply list_elem_of_In, filter_In in Hc. tauto. }
  destruct (normalizeCards_wf trim _ Hf) as [Hwf Hids].
  rewrite Forall_forall in Hwf.
  split; [apply Forall_forall; intros c Hc; apply Hwf; exact Hc|].
  split.
  - rewrite Hids. clear. induction rawDeck as [|c rest IH]; [reflexivity|].
    cbn. destruct (truthy (raw_id c)); cbn; rewrite IH; reflexivity.
  - split.
    + intros c t Hc Ht. apply (Hwf c Hc). exact Ht.
    + intros c opts Hc Ht. destruct (Hwf c Hc) as [_ Ht'].
      specialize (Ht' _ Ht). cbn in Ht'. destruct Ht' as [Hne _].
      unfold isSplitDecisionCard. rewrite Ht. apply Z.ltb_lt.
      destruct opts; [congruence|cbn; lia].
Qed.

(** X29. How the loader links cards.  A card without transitions is
    linked to the card that follows it, unless it is terminal-like
    (type [terminal], status [complete] or [handoff]) or the last card,
    in which case it has none.  A split whose options all lack a target
    is not kept as a split: it becomes a linear link to its own
    [next_id] or, failing that, to the following card, and no transition
    at all for a terminal-like or last card.  A self loop without
    [next_id] loops on the card itself. *)
Theorem normalizeTransitions_links (card : RawCard) (nextCardId : option string) :
  (raw_transitions card = None ->
   normalizeTransitions card nextCardId
   = if isTerminalLike card then None else TLinear <$> nextCardId)
  /\ (forall raw opts,
         raw_transitions card = Some raw ->
         raw_type raw = "split"%string ->
         raw_options raw = Some opts ->
         Forall (fun o => truthy (raw_target_id o) = false) opts ->
         normalizeTransitions card nextCardId
         = if truthy (raw_next_id raw) then Some (TLinear (raw_next_id raw))
           else if isTerminalLike card then None
           else match nextCardId with
                | Some n => if truthy n then Some (TLinear n) else None
                | None => None
                end)
  /\ (forall raw,
         raw_transitions card = Some raw ->
         raw_type raw = "self_loop"%string ->
         raw_next_id raw = ""%string ->
         normalizeTransitions card nextCardId = Some (TSelfLoop (raw_id card))).
Proof.
  unfold normalizeTransitions. split; [|split].
  - intros Hnone. rewrite Hnone.
    destruct (isTerminalLike card); [reflexivity|]. destruct nextCardId; reflexivity.
  - intros raw opts Hraw Htype Hopts Hall. rewrite Hraw, Hopts, Htype. cbv zeta.
    assert (Hnil : List.filter (fun o => truthy (raw_target_id o)) opts = []).
    { clear -Hall. induction Hall as [|o rest Ho _ IH]; [reflexivity|].
      cbn. rewrite Ho. exact IH. }
    rewrite Hnil. cbn.
    destruct (truthy (raw_next_id raw)) eqn:Hn; [rewrite Hn; reflexivity|].
    destruct (isTerminalLike card); cbn; [reflexivity|].
    destruct nextCardId as [n|]; reflexivity.
  - intros raw Hraw Htype Hnext. rewrite Hraw, Htype, Hnext. cbv zeta.
    destruct (raw_options raw); reflexivity.
Qed.

(** ** The deck map *)


(** ** Concrete instances of the further properties *)

Open Scope Z_scope.


Lemma rewind_onto_decision_witness :
  decisionTapped (snd (rewind (Samples.envOf Samples.twoFiveDeck)
                         (Samples.stateAt "Q1" ["S"] {["S" := 1]} 0 false)))
  = bool_decide (is_Some (({["S" := 1]} : gmap string Z) !! "S")).
Proof.
  refine (proj1 (proj2 (proj2 (proj2
            (rewind_onto_decision (Samples.envOf Samples.twoFiveDeck)
               (Samples.stateAt "Q1" ["S"] {["S" := 1]} 0 false) [] "S"
               MoreSamples.splitCard _ _ _))))).
  - reflexivity.
  - vm_compute. reflexivity.
  - reflexivity.
Defined.

Lemma rewind_undoes_advance_witness :
  currentId (snd (rewind (Samples.envOf Samples.linearDeck)
                    (snd (advance (Samples.envOf Samples.linearDeck) MoreSamples.plain
                            (Samples.stateAt "A" [] ∅ 0 false))))) = "A"%string.
Proof.
  refine (proj1 (proj2
            (rewind_undoes_advance (Samples.envOf Samples.linearDeck) MoreSamples.plain
               (Samples.stateAt "A" [] ∅ 0 false) _ _))).
  - vm_compute. reflexivity.
  - vm_compute. discriminate.
Defined.


Lemma canTapAdvance_refusal_is_safe_witness :
  advance (Samples.envOf Samples.twoFiveDeck) MoreSamples.plain
    (Samples.stateAt "S" [] ∅ 0 false)
  = (false, Samples.stateAt "S" [] ∅ 0 false).
Proof.
  apply (canTapAdvance_refusal_is_safe (Samples.envOf Samples.twoFiveDeck) MoreSamples.plain
           (Samples.stateAt "S" [] ∅ 0 false)).
  - vm_compute. reflexivity.
  - reflexivity.
Defined.


Lemma decision_index_fits_card_witness :
  indexFitsCard (Samples.envOf Samples.linearDeck)
    (snd (rewind (Samples.envOf Samples.linearDeck) (Samples.stateAt "B" ["A"] ∅ 0 false))).
Proof.
  refine (proj1 (proj2 (proj2
            (decision_index_fits_card (Samples.envOf Samples.linearDeck)
               (Samples.stateAt "B" ["A"] ∅ 0 false)) _))).
  split.
  - intros _. reflexivity.
  - intros c Hc Hs. vm_compute in Hc. injection Hc as <-. discriminate.
Defined.

Lemma trail_is_append_only_witness :
  decisionRecords (snd (advance (Samples.envOf Samples.twoFiveDeck) MoreSamples.confirm
                          (Samples.stateAt "S" [] {["T" := 1]} 0 false))) !! "T"
  = ({["T" := 1]} : gmap string Z) !! "T".
Proof.
  refine (proj2 (proj1 (trail_is_append_only (Samples.envOf Samples.twoFiveDeck)
                          (Samples.stateAt "S" [] {["T" := 1]} 0 false))
                   MoreSamples.confirm) "T"%string _).
  discriminate.
Defined.

Open Scope Q_scope.

Lemma normalizeDegrees_double_range_witness :
  Double.normalizeDegrees round64 (Num 90) == 90.
Proof.
  refine (proj1 (proj2 (proj1 normalizeDegrees_double_range round64 90 _)) _ _).
  - exact round64_rounding.
  - vm_compute. discriminate.
  - vm_compute. reflexivity.
Defined.

Lemma normalizeWheelArc_double_range_witness :
  Double.normalizeWheelArc round64 {| wheel_arc := None; auto_start_on_card := "" |}
  = DEFAULT_WHEEL_ARC.
Proof.
  refine (proj1 (proj2 normalizeWheelArc_double_range) round64
            {| wheel_arc := None; auto_start_on_card := "" |} _).
  reflexivity.
Defined.



Lemma syncAnchors_locates_current_witness :
  exists a,
    js_index (anchors (syncAnchors (Samples.envOf Samples.linearDeck)
                         (Samples.stateAt "B" ["A"] ∅ 0 false)))
             (anchorIndex (syncAnchors (Samples.envOf Samples.linearDeck)
                             (Samples.stateAt "B" ["A"] ∅ 0 false))) = Some a
    /\ anchor_id a = "B"%string.
Proof.
  refine (proj1 (proj2
            (syncAnchors_locates_current (Samples.envOf Samples.linearDeck)
               (Samples.stateAt "B" ["A"] ∅ 0 false))) _).
  vm_compute. repeat constructor.
Defined.

Lemma render_positions_the_wheel_witness :
  mode (wheel (render (Samples.envOf Samples.linearDeck) (Samples.stateAt "B" ["A"] ∅ 0 false)))
  = computeWheelMode (Some (Samples.card "B" (Some (TLinear "C")))).
Proof.
  refine (proj1 (render_positions_the_wheel (Samples.envOf Samples.linearDeck)
                   (Samples.stateAt "B" ["A"] ∅ 0 false)
                   (Samples.card "B" (Some (TLinear "C"))) _)).
  vm_compute. reflexivity.
Defined.

Lemma gesture_classification_witness :
  isForwardGesture 5 DEFAULT_WHEEL_ARC None = false
  /\ isReverseGesture 5 DEFAULT_WHEEL_ARC None = false.
Proof.
  refine (proj1 (proj2 (gesture_classification 5 DEFAULT_WHEEL_ARC None)) _).
  vm_compute. discriminate.
Defined.


Lemma untapped_decisions_stay_uncommitted_witness :
  sameDecisions (Samples.stateAt "S" [] ∅ 0 false)
    (snd (onKnobDrag (Samples.envOf Samples.twoFiveDeck) 100
            (true, Samples.stateAt "S" [] ∅ 0 false))).
Proof.
  refine (proj1 (proj1 (untapped_decisions_stay_uncommitted
                          (Samples.envOf Samples.twoFiveDeck)
                          (Samples.stateAt "S" [] ∅ 0 false)) _) 100 true).
  reflexivity.
Defined.

Lemma knob_drag_navigates_once_witness :
  fst (onKnobDrag (Samples.envOf Samples.linearDeck) 100
         (true, set_navConsumed true (Samples.stateAt "A" [] ∅ 0 false))) = true.
Proof.
  refine (proj1 (proj1 (knob_drag_navigates_once (Samples.envOf Samples.linearDeck) 100 true
                          (set_navConsumed true (Samples.stateAt "A" [] ∅ 0 false))) _)).
  reflexivity.
Defined.


Lemma zone_drag_threshold_witness :
  snd (Double.onPointerUp round64 (Samples.envOf Samples.linearDeck) 50
         {| active := true; startY := 0; drag_direction := Some DragAdvance;
            zoneHeight := 200 |}
         (Samples.stateAt "A" [] ∅ 0 false))
  = Samples.stateAt "A" [] ∅ 0 false.
Proof.
  refine (proj2 (proj1 (proj2 (proj2
            (proj1 (proj2 (zone_drag_threshold round64 (Samples.envOf Samples.linearDeck) 50
                      {| active := true; startY := 0; drag_direction := Some DragAdvance;
                         zoneHeight := 200 |}
                      (Samples.stateAt "A" [] ∅ 0 false))) _))) _)).
  - reflexivity.
  - vm_compute. discriminate.
Defined.

Lemma normalizeDeck_well_formed_witness :
  loaderTransition
    (TSplit [ {| label := "YES"; target_id := "E" |};
              {| label := "Option 2"; target_id := "A" |} ]).
Proof.
  refine (proj1 (proj2 (proj2
            (normalizeDeck_well_formed MoreSamples.noTrim MoreSamples.rawDeck)))
            {| id := "D"; type := "decision"; phase := "decision"; status := "";
               transitions := Some (TSplit [ {| label := "YES"; target_id := "E" |};
                                             {| label := "Option 2"; target_id := "A" |} ]) |}
            _ _ _).
  - vm_compute. repeat constructor.
  - reflexivity.
Defined.

Lemma normalizeTransitions_links_witness :
  normalizeTransitions
    {| raw_id := "A"; raw_card_type := "cover"; raw_status := ""; raw_phase := "";
       raw_transitions := None |} (Some "D"%string)
  = Some (TLinear "D").
Proof.
  refine (proj1 (normalizeTransitions_links
                   {| raw_id := "A"; raw_card_type := "cover"; raw_status := "";
                      raw_phase := ""; raw_transitions := None |} (Some "D"%string)) _).
  reflexivity.
Defined.

